(** * Overlord proxy: batches, the Redis command tables and the Memcache handler

    A shallow embedding of four parts of the proxy:

    - [proto/batch.go]: [MsgBatch], its parent links and done-channel,
      [NewMsgBatchSlice], and [MsgBatchAllocator] with [Wait], [Reset] and
      [checkAllDone];
    - [proto/redis/request.go]: the command tables, [IsSupport], [IsCtl],
      [Cmd], [Key] and [AsSlowlog];
    - the Memcache [handler] ([Handle], [Close], [Closed], [makeBytes]);
    - [anzi/anzi_test.go]: the mock connection.

    Go pointers are locations of an explicit heap, Go [int] is [Z], byte
    slices are lists of [ascii], a Go [map] is a [gmap]. *)

From Stdlib Require Import ZArith Ascii String.
From Stdlib Require DecimalString.
From stdpp Require Import gmap strings list fin_maps.

Local Open Scope Z_scope.
Set Warnings "-register-all".

(** Byte slices. [B "abc"] is [[]byte("abc")]. *)
Abbreviation bytes := (list ascii).

Definition B (s : string) : bytes := list_ascii_of_string s.

Definition byte_eqb (a b : ascii) : bool := Ascii.eqb a b.

(** [bytes.Equal]: a nil slice and an empty slice are equal. *)
Fixpoint bytes_Equal (a b : bytes) : bool :=
  match a, b with
  | [], [] => true
  | x :: a', y :: b' => byte_eqb x y && bytes_Equal a' b'
  | _, _ => false
  end.

(** [bytes.HasPrefix], [bytes.Contains] and [bytes.Index] of Go's standard
    library. The empty slice is contained in every slice. *)
Fixpoint bytes_HasPrefix (s prefix : bytes) : bool :=
  match prefix, s with
  | [], _ => true
  | _ :: _, [] => false
  | x :: prefix', y :: s' => byte_eqb x y && bytes_HasPrefix s' prefix'
  end.

Fixpoint bytes_Contains (b subslice : bytes) : bool :=
  bytes_HasPrefix b subslice ||
  match b with
  | [] => false
  | _ :: b' => bytes_Contains b' subslice
  end.

Fixpoint bytes_Index (s sep : bytes) : Z :=
  if bytes_HasPrefix s sep then 0
  else match s with
       | [] => -1
       | _ :: s' =>
           let i := bytes_Index s' sep in
           if i <? 0 then -1 else i + 1
       end.

(** Outcome of an operation that may hit a Go run-time panic (index out of
    range, nil dereference). *)
Inductive result (A : Type) : Type :=
| Val (a : A)
| Panic.
Arguments Val {A} a.
Arguments Panic {A}.

(** ** proto/batch.go *)
Module Batch.

(** [*MsgBatch] and [chan struct{}] values are heap locations; the nil
    pointer and the nil channel are [None]. A [*Message] is opaque here: only
    its identity matters to a batch. *)
Abbreviation loc := nat (only parsing).
Abbreviation chanid := nat (only parsing).
Abbreviation msgptr := (option nat) (only parsing).

Definition defaultMsgBatchSize : nat := 2.
Definition maxRetryTimes : nat := 8.

Definition msgBatchStateNotReady : Z := 0.
Definition msgBatchStateDone : Z := 1.

(** [buf] holds the bytes written to the batch's [bufio.Buffer]. *)
Record MsgBatch : Type := mkMsgBatch {
  buf : bytes;
  msgs : list msgptr;
  count : Z;
  dc : option chanid;
  state : Z;
  parent : option loc
}.

(** A [chan struct{}]: its capacity and the number of signals buffered in it. *)
Record chan : Type := mkChan {
  cap : nat;
  pending : nat
}.

Record heap : Type := mkHeap {
  batches : gmap nat MsgBatch;
  chans : gmap nat chan
}.

Global Instance MsgBatch_eq_dec : EqDecision MsgBatch.
Proof. solve_decision. Defined.
Global Instance chan_eq_dec : EqDecision chan.
Proof. solve_decision. Defined.

(** What [msgBatchPool.New] builds: [make([]*Message, defaultMsgBatchSize)]
    is two nil slots. *)
Definition newMsgBatchValue : MsgBatch :=
  {| buf := [];
     msgs := replicate defaultMsgBatchSize None;
     count := 0;
     dc := None;
     state := msgBatchStateNotReady;
     parent := None |}.

(** [NewMsgBatch]: the pool hands out a batch that nothing else points to;
    it is modelled by the allocation of the pool's [New]. *)
Definition NewMsgBatch (h : heap) : nat * heap :=
  let l := fresh (dom (batches h)) in
  (l, {| batches := <[l := newMsgBatchValue]> (batches h); chans := chans h |}).

(** The loop of [Fork]: walk the parent links from [p] up to the batch whose
    parent is nil. [None]: the walk did not end within [fuel] steps, or met
    a location that holds no batch. *)
Fixpoint Fork_loop (bs : gmap nat MsgBatch) (fuel : nat) (p : nat) : option nat :=
  match fuel with
  | O => None
  | S fuel' =>
      match bs !! p with
      | None => None
      | Some b =>
          match parent b with
          | None => Some p
          | Some q => Fork_loop bs fuel' q
          end
      end
  end.

Definition set_dc (d : option chanid) (b : MsgBatch) : MsgBatch :=
  {| buf := buf b; msgs := msgs b; count := count b; dc := d;
     state := state b; parent := parent b |}.

Definition set_parent (p : option loc) (b : MsgBatch) : MsgBatch :=
  {| buf := buf b; msgs := msgs b; count := count b; dc := dc b;
     state := state b; parent := p |}.

Definition set_state (s : Z) (b : MsgBatch) : MsgBatch :=
  {| buf := buf b; msgs := msgs b; count := count b; dc := dc b;
     state := s; parent := parent b |}.

(** [m.Fork()]: the new batch shares [m]'s channel and hangs off [m]'s root. *)
Definition Fork (fuel : nat) (h : heap) (m : nat) : option (nat * heap) :=
  match batches h !! m with
  | None => None
  | Some bm =>
      let '(mb, h1) := NewMsgBatch h in
      let bs1 := alter (set_dc (dc bm)) mb (batches h1) in
      match Fork_loop bs1 fuel m with
      | None => None
      | Some p =>
          Some (mb, {| batches := alter (set_parent (Some p)) mb bs1;
                       chans := chans h1 |})
      end
  end.

(** Bounds-checked slice indexing [s[i]] and assignment [s[i] = x]. *)
Definition slice_get {A} (s : list A) (i : Z) : result A :=
  if i <? 0 then Panic
  else match s !! Z.to_nat i with
       | Some x => Val x
       | None => Panic
       end.

Definition slice_set {A} (s : list A) (i : Z) (x : A) : result (list A) :=
  if (i <? 0) || (Z.of_nat (length s) <=? i) then Panic
  else Val (<[Z.to_nat i := x]> s).

(** [s[:n]] for a slice whose capacity is its length. *)
Definition slice_to {A} (s : list A) (n : Z) : result (list A) :=
  if (n <? 0) || (Z.of_nat (length s) <? n) then Panic
  else Val (take (Z.to_nat n) s).

(** [m.AddMsg(msg)] *)
Definition MsgBatch_AddMsg (m : MsgBatch) (msg : msgptr) : result MsgBatch :=
  if Z.of_nat (length (msgs m)) <=? count m then
    Val {| buf := buf m; msgs := msgs m ++ [msg]; count := count m + 1;
           dc := dc m; state := state m; parent := parent m |}
  else
    match slice_set (msgs m) (count m) msg with
    | Panic => Panic
    | Val ms =>
        Val {| buf := buf m; msgs := ms; count := count m + 1;
               dc := dc m; state := state m; parent := parent m |}
    end.

Definition MsgBatch_Count (m : MsgBatch) : Z := count m.

(** [m.Nth(i)] *)
Definition MsgBatch_Nth (m : MsgBatch) (i : Z) : result msgptr :=
  if i <? count m then slice_get (msgs m) i else Val None.

Definition MsgBatch_Buffer (m : MsgBatch) : bytes := buf m.

(** The non-blocking send [select { case c <- struct{}{}: default: }]. With
    no receiver parked on the channel, the send goes through when the buffer
    has room, and the [default] arm is taken otherwise, as it is for a nil
    channel. *)
Definition try_send (d : option chanid) (cs : gmap nat chan) : gmap nat chan :=
  match d with
  | None => cs
  | Some c =>
      match cs !! c with
      | None => cs
      | Some ch =>
          if (pending ch <? cap ch)%nat
          then <[c := {| cap := cap ch; pending := S (pending ch) |}]> cs
          else cs
      end
  end.

(** The loop of [Done]: walk to the root and store the done state there. *)
Fixpoint Done_loop (bs : gmap nat MsgBatch) (fuel : nat) (p : nat)
  : option (gmap nat MsgBatch) :=
  match fuel with
  | O => None
  | S fuel' =>
      match bs !! p with
      | None => None
      | Some b =>
          match parent b with
          | None => Some (<[p := set_state msgBatchStateDone b]> bs)
          | Some q => Done_loop bs fuel' q
          end
      end
  end.

(** [m.Done()] *)
Definition Done (fuel : nat) (h : heap) (m : nat) : option heap :=
  match batches h !! m with
  | None => None
  | Some bm =>
      match Done_loop (batches h) fuel m with
      | None => None
      | Some bs' => Some {| batches := bs'; chans := try_send (dc bm) (chans h) |}
      end
  end.

(** [m.Reset()] *)
Definition MsgBatch_Reset (m : MsgBatch) : MsgBatch :=
  {| buf := [];
     msgs := msgs m;
     count := 0;
     dc := dc m;
     state := msgBatchStateNotReady;
     parent := None |}.

(** [m.Msgs()] *)
Definition MsgBatch_Msgs (m : MsgBatch) : result (list msgptr) :=
  slice_to (msgs m) (count m).

(** [m.IsDone()] *)
Definition MsgBatch_IsDone (m : MsgBatch) : bool := state m =? msgBatchStateDone.

(** [Reset] and [AddMsg] through a pointer: the batch at [l] is replaced,
    every other batch and every channel stays as it is. *)
Definition Reset (h : heap) (l : nat) : heap :=
  {| batches := alter MsgBatch_Reset l (batches h); chans := chans h |}.

Definition AddMsg (h : heap) (l : nat) (msg : msgptr) : result heap :=
  match batches h !! l with
  | None => Panic
  | Some mb =>
      match MsgBatch_AddMsg mb msg with
      | Panic => Panic
      | Val mb' => Val {| batches := <[l := mb']> (batches h); chans := chans h |}
      end
  end.

(** [MsgBatchAllocator] *)
Record MsgBatchAllocator : Type := mkMsgBatchAllocator {
  mbMap : gmap string nat;
  alloc_dc : option chanid;
  timeout : Z;
  quickSearch : gset string
}.

Definition NewMsgBatchAllocator (d : option chanid) (t : Z) : MsgBatchAllocator :=
  {| mbMap := ∅; alloc_dc := d; timeout := t; quickSearch := ∅ |}.

(** [m.AddMsg(node, msg)] of the allocator. *)
Definition MsgBatchAllocator_AddMsg (h : heap) (m : MsgBatchAllocator)
    (node : string) (msg : msgptr) : result (heap * MsgBatchAllocator) :=
  match mbMap m !! node with
  | Some l =>
      match AddMsg h l msg with
      | Panic => Panic
      | Val h' => Val (h', m)
      end
  | None =>
      let '(l, h1) := NewMsgBatch h in
      match AddMsg h1 l msg with
      | Panic => Panic
      | Val h2 =>
          Val ({| batches := alter (set_dc (alloc_dc m)) l (batches h2);
                  chans := chans h2 |},
               {| mbMap := <[node := l]> (mbMap m); alloc_dc := alloc_dc m;
                  timeout := timeout m; quickSearch := quickSearch m |})
      end
  end.

Definition MsgBatchs (m : MsgBatchAllocator) : gmap string nat := mbMap m.

(** The [range] loop of [checkAllDone] over the entries of the map, in the
    order [l]. *)
Fixpoint checkAllDone_loop (h : heap) (l : list (string * nat)) : result bool :=
  match l with
  | [] => Val true
  | (_, p) :: l' =>
      match batches h !! p with
      | None => Panic
      | Some mb =>
          if (0 <? MsgBatch_Count mb) && negb (MsgBatch_IsDone mb)
          then Val false
          else checkAllDone_loop h l'
      end
  end.

Definition checkAllDone (h : heap) (m : MsgBatchAllocator) : result bool :=
  checkAllDone_loop h (map_to_list (MsgBatchs m)).

Inductive error : Type :=
| ErrTimeout
| ErrMaxRetryReached.

(** What one [select] of [Wait] receives. The batches are written by the
    handlers' goroutines while [Wait] sleeps, so a receive from the done
    channel comes with the heap as it is when [Wait] wakes up.
    [RecvTo] is the timer of [time.After(m.timeout)] firing. *)
Inductive wakeup : Type :=
| RecvDc (h : heap)
| RecvTo.

(** [Wait] runs against the list of wakeups still to come and hands back the
    ones it did not consume. It blocks when the list is used up while it
    still sits in a [select]. *)
Inductive wait_outcome : Type :=
| WaitReturns (err : option error) (rest : list wakeup)
| WaitBlocks
| WaitPanics.

(** The [for] loop of [Wait], with [n] iterations left. *)
Fixpoint Wait_loop (m : MsgBatchAllocator) (n : nat) (sched : list wakeup)
  : wait_outcome :=
  match n with
  | O => WaitReturns (Some ErrMaxRetryReached) sched
  | S n' =>
      match sched with
      | [] => WaitBlocks
      | RecvDc h :: rest =>
          match checkAllDone h m with
          | Panic => WaitPanics
          | Val true => WaitReturns None rest
          | Val false => Wait_loop m n' rest
          end
      | RecvTo :: rest => WaitReturns (Some ErrTimeout) rest
      end
  end.

(** [m.Wait()] *)
Definition Wait (m : MsgBatchAllocator) (sched : list wakeup) : wait_outcome :=
  let mbLen := size (mbMap m) in
  if (mbLen =? 0)%nat then
    match sched with
    | [] => WaitBlocks
    | RecvDc h :: rest =>
        match checkAllDone h m with
        | Panic => WaitPanics
        | Val true => WaitReturns None rest
        | Val false => WaitReturns (Some ErrMaxRetryReached) rest
        end
    | RecvTo :: rest => WaitReturns (Some ErrTimeout) rest
    end
  else Wait_loop m (mbLen + maxRetryTimes) sched.

(** [m.Done()] of the allocator. *)
Definition MsgBatchAllocator_Done (h : heap) (m : MsgBatchAllocator) : heap :=
  {| batches := batches h; chans := try_send (alloc_dc m) (chans h) |}.

(** A receive [<-c] that goes through takes one buffered signal. *)
Definition recv (h : heap) (c : nat) : option heap :=
  match chans h !! c with
  | Some ch =>
      match pending ch with
      | O => None
      | S k => Some {| batches := batches h;
                       chans := <[c := {| cap := cap ch; pending := k |}]> (chans h) |}
      end
  | None => None
  end.

(** The [range] loop of the allocator's [Reset], over the entries in the
    order [l]. *)
Fixpoint Reset_loop (h : heap) (l : list (string * nat)) : result heap :=
  match l with
  | [] => Val h
  | (_, p) :: l' =>
      match batches h !! p with
      | None => Panic
      | Some _ => Reset_loop (Reset h p) l'
      end
  end.

(** [m.Reset()] of the allocator. *)
Definition MsgBatchAllocator_Reset (h : heap) (m : MsgBatchAllocator) : result heap :=
  Reset_loop h (map_to_list (MsgBatchs m)).



End Batch.

(** ** proto/redis/request.go *)
Module Redis.

Definition emptyBytes : bytes := [].
Definition crlfBytes : bytes := ["013"%char; "010"%char].
Definition blankByte : ascii := " "%char.

(** The Go literal ["<n>\r\n<CMD>"]: the payload of a bulk string, its
    length line included. *)
Definition lit (n cmd : string) : bytes := B n ++ crlfBytes ++ B cmd.

Definition cmdQuitBytes : bytes := lit "4" "QUIT".
Definition cmdPingBytes : bytes := lit "4" "PING".
Definition cmdMSetBytes : bytes := lit "4" "MSET".
Definition cmdMGetBytes : bytes := lit "4" "MGET".
Definition cmdGetBytes : bytes := lit "3" "GET".
Definition cmdDelBytes : bytes := lit "3" "DEL".
Definition cmdExistsBytes : bytes := lit "6" "EXISTS".

(** Each table is the concatenation of its literals, in the order of the
    source. *)
Definition reqReadCmds : list bytes :=
  [
    lit "4" "DUMP";
    lit "6" "EXISTS";
    lit "4" "PTTL";
    lit "3" "TTL";
    lit "4" "TYPE";
    lit "8" "BITCOUNT";
    lit "6" "BITPOS";
    lit "3" "GET";
    lit "6" "GETBIT";
    lit "8" "GETRANGE";
    lit "4" "MGET";
    lit "6" "STRLEN";
    lit "7" "HEXISTS";
    lit "4" "HGET";
    lit "7" "HGETALL";
    lit "5" "HKEYS";
    lit "4" "HLEN";
    lit "5" "HMGET";
    lit "7" "HSTRLEN";
    lit "5" "HVALS";
    lit "5" "HSCAN";
    lit "5" "SCARD";
    lit "5" "SDIFF";
    lit "6" "SINTER";
    lit "9" "SISMEMBER";
    lit "8" "SMEMBERS";
    lit "11" "SRANDMEMBER";
    lit "6" "SUNION";
    lit "5" "SSCAN";
    lit "5" "ZCARD";
    lit "6" "ZCOUNT";
    lit "9" "ZLEXCOUNT";
    lit "6" "ZRANGE";
    lit "11" "ZRANGEBYLEX";
    lit "13" "ZRANGEBYSCORE";
    lit "5" "ZRANK";
    lit "9" "ZREVRANGE";
    lit "14" "ZREVRANGEBYLEX";
    lit "16" "ZREVRANGEBYSCORE";
    lit "8" "ZREVRANK";
    lit "6" "ZSCORE";
    lit "5" "ZSCAN";
    lit "6" "LINDEX";
    lit "4" "LLEN";
    lit "6" "LRANGE";
    lit "7" "PFCOUNT"
  ].

Definition reqReadCmdsBytes : bytes := concat reqReadCmds.

Definition reqWriteCmds : list bytes :=
  [
    lit "3" "DEL";
    lit "6" "EXPIRE";
    lit "8" "EXPIREAT";
    lit "7" "PERSIST";
    lit "7" "PEXPIRE";
    lit "9" "PEXPIREAT";
    lit "7" "RESTORE";
    lit "4" "SORT";
    lit "6" "APPEND";
    lit "4" "DECR";
    lit "6" "DECRBY";
    lit "6" "GETSET";
    lit "4" "INCR";
    lit "6" "INCRBY";
    lit "11" "INCRBYFLOAT";
    lit "4" "MSET";
    lit "6" "PSETEX";
    lit "3" "SET";
    lit "6" "SETBIT";
    lit "5" "SETEX";
    lit "5" "SETNX";
    lit "8" "SETRANGE";
    lit "4" "HDEL";
    lit "7" "HINCRBY";
    lit "12" "HINCRBYFLOAT";
    lit "5" "HMSET";
    lit "4" "HSET";
    lit "6" "HSETNX";
    lit "7" "LINSERT";
    lit "4" "LPOP";
    lit "5" "LPUSH";
    lit "6" "LPUSHX";
    lit "4" "LREM";
    lit "4" "LSET";
    lit "5" "LTRIM";
    lit "4" "RPOP";
    lit "9" "RPOPLPUSH";
    lit "5" "RPUSH";
    lit "6" "RPUSHX";
    lit "4" "SADD";
    lit "5" "SMOVE";
    lit "4" "SPOP";
    lit "4" "SREM";
    lit "4" "ZADD";
    lit "7" "ZINCRBY";
    lit "11" "ZINTERSTORE";
    lit "4" "ZREM";
    lit "14" "ZREMRANGEBYLEX";
    lit "15" "ZREMRANGEBYRANK";
    lit "16" "ZREMRANGEBYSCORE";
    lit "5" "PFADD";
    lit "7" "PFMERGE"
  ].

Definition reqWriteCmdsBytes : bytes := concat reqWriteCmds.

Definition reqNotSupportCmds : list bytes :=
  [
    lit "6" "MSETNX";
    lit "10" "SDIFFSTORE";
    lit "11" "SINTERSTORE";
    lit "11" "SUNIONSTORE";
    lit "11" "ZUNIONSTORE";
    lit "5" "BLPOP";
    lit "5" "BRPOP";
    lit "10" "BRPOPLPUSH";
    lit "4" "KEYS";
    lit "7" "MIGRATE";
    lit "4" "MOVE";
    lit "6" "OBJECT";
    lit "9" "RANDOMKEY";
    lit "6" "RENAME";
    lit "8" "RENAMENX";
    lit "4" "SCAN";
    lit "4" "WAIT";
    lit "5" "BITOP";
    lit "4" "EVAL";
    lit "7" "EVALSHA";
    lit "4" "AUTH";
    lit "4" "ECHO";
    lit "4" "INFO";
    lit "5" "PROXY";
    lit "7" "SLOWLOG";
    lit "6" "SELECT";
    lit "4" "TIME";
    lit "6" "CONFIG";
    lit "8" "COMMANDS"
  ].

Definition reqNotSupportCmdsBytes : bytes := concat reqNotSupportCmds.

Definition reqCtlCmds : list bytes :=
  [
    lit "4" "QUIT";
    lit "4" "PING"
  ].

Definition reqCtlCmdsBytes : bytes := concat reqCtlCmds.

(** Modelled from the spec: the RESP node, declared in [resp.go] of the
    package. The spec lists the node types (simple-string,
    error, integer, bulk, array); this file reads the fields [rTp], [data],
    [array] and [arrayn] and names the type [respBulk]. *)
Inductive respType : Type :=
| respUnknown
| respString
| respError
| respInt
| respBulk
| respArray.

Inductive resp : Type :=
| mkResp (rTp : respType) (data : bytes) (array : list resp) (arrayn : Z).

Definition rTp (r : resp) : respType := let '(mkResp t _ _ _) := r in t.
Definition data (r : resp) : bytes := let '(mkResp _ d _ _) := r in d.
Definition array (r : resp) : list resp := let '(mkResp _ _ a _) := r in a.
Definition arrayn (r : resp) : Z := let '(mkResp _ _ _ n) := r in n.

Definition mergeTypeNo : Z := 0.
Definition mergeTypeCount : Z := 1.
Definition mergeTypeOK : Z := 2.
Definition mergeTypeJoin : Z := 3.

(** A nil [reply] is [None]. *)
Record Request : Type := mkRequest {
  req_resp : resp;
  reply : option resp;
  mType : Z
}.

Definition respType_eqb (a b : respType) : bool :=
  match a, b with
  | respUnknown, respUnknown | respString, respString | respError, respError
  | respInt, respInt | respBulk, respBulk | respArray, respArray => true
  | _, _ => false
  end.

(** [s[i]] and [s[lo:]] with Go's bounds checks. *)
Definition index {A} (s : list A) (i : Z) : result A :=
  if i <? 0 then Panic
  else match s !! Z.to_nat i with
       | Some x => Val x
       | None => Panic
       end.

Definition slice_from {A} (s : list A) (lo : Z) : result (list A) :=
  if (lo <? 0) || (Z.of_nat (length s) <? lo) then Panic
  else Val (drop (Z.to_nat lo) s).

(** [r.Cmd()] *)
Definition Cmd (r : Request) : result bytes :=
  if arrayn (req_resp r) <? 1 then Val emptyBytes
  else
    match index (array (req_resp r)) 0 with
    | Panic => Panic
    | Val cmd =>
        let pos :=
          if respType_eqb (rTp cmd) respBulk
          then bytes_Index (data cmd) crlfBytes + 2
          else 0 in
        slice_from (data cmd) pos
    end.

(** [r.IsSupport()] *)
Definition IsSupport (r : Request) : result bool :=
  if arrayn (req_resp r) <? 1 then Val false
  else
    match index (array (req_resp r)) 0 with
    | Panic => Panic
    | Val c =>
        Val (bytes_Contains reqReadCmdsBytes (data c) ||
             bytes_Contains reqWriteCmdsBytes (data c) ||
             bytes_Contains reqCtlCmdsBytes (data c))
    end.

(** [r.IsCtl()] *)
Definition IsCtl (r : Request) : result bool :=
  if arrayn (req_resp r) <? 1 then Val false
  else
    match index (array (req_resp r)) 0 with
    | Panic => Panic
    | Val c => Val (bytes_Contains reqCtlCmdsBytes (data c))
    end.

(** [r.Key()] *)
Definition Key (r : Request) : result bytes :=
  if arrayn (req_resp r) <? 1 then Val emptyBytes
  else if arrayn (req_resp r) =? 1 then
    match index (array (req_resp r)) 0 with
    | Panic => Panic
    | Val c => Val (data c)
    end
  else
    match index (array (req_resp r)) 1 with
    | Panic => Panic
    | Val k =>
        let pos :=
          if respType_eqb (rTp k) respBulk
          then bytes_Index (data k) crlfBytes + 2
          else 0 in
        slice_from (data k) pos
    end.

(** The loop of [AsSlowlog]: elements [i], [i+1], ... ([n] of them), each
    followed by a blank, appended to [sb]. *)
Fixpoint AsSlowlog_loop (arr : list resp) (i : Z) (n : nat) (sb : bytes)
  : result bytes :=
  match n with
  | O => Val sb
  | S n' =>
      match index arr i with
      | Panic => Panic
      | Val e => AsSlowlog_loop arr (i + 1) n' (sb ++ data e ++ [blankByte])
      end
  end.

(** [r.AsSlowlog()] *)
Definition AsSlowlog (r : Request) : result bytes :=
  match Cmd r with
  | Panic => Panic
  | Val c =>
      match AsSlowlog_loop (array (req_resp r)) 1
              (Z.to_nat (arrayn (req_resp r) - 1 - 1)) c with
      | Panic => Panic
      | Val sb =>
          match index (array (req_resp r)) (arrayn (req_resp r) - 1) with
          | Panic => Panic
          | Val e => Val (sb ++ data e)
          end
      end
  end.

End Redis.

(** ** The Memcache handler *)
Module Memcache.

Definition handlerOpening : Z := 0.
Definition handlerClosed : Z := 1.

Definition handlerWriteBufferSize : Z := 8 * 1024.
Definition handlerReadBufferSize : Z := 128 * 1024.

(** Modelled from the spec: the byte constants of the package, declared
    in another of its files. The terminator line is [END\r\n] (five bytes,
    as [endBytesLen] says), lines end in [\n], tokens are separated by one
    space. *)
Definition spaceByte : ascii := " "%char.
Definition spaceBytes : bytes := [" "%char].
Definition crlfBytes : bytes := ["013"%char; "010"%char].
Definition delim : ascii := "010"%char.
Definition endBytes : bytes := B "END" ++ crlfBytes.

(** Modelled from the spec: the request kinds of the Memcache text protocol
    and the command word [String()] writes for each. *)
Inductive RequestType : Type :=
| RequestTypeUnknown
| RequestTypeSet
| RequestTypeAdd
| RequestTypeReplace
| RequestTypeAppend
| RequestTypePrepend
| RequestTypeCas
| RequestTypeGet
| RequestTypeGets
| RequestTypeDelete
| RequestTypeIncr
| RequestTypeDecr
| RequestTypeTouch
| RequestTypeGat
| RequestTypeGats.

Definition RequestType_String (t : RequestType) : string :=
  match t with
  | RequestTypeUnknown => "unknown"
  | RequestTypeSet => "set"
  | RequestTypeAdd => "add"
  | RequestTypeReplace => "replace"
  | RequestTypeAppend => "append"
  | RequestTypePrepend => "prepend"
  | RequestTypeCas => "cas"
  | RequestTypeGet => "get"
  | RequestTypeGets => "gets"
  | RequestTypeDelete => "delete"
  | RequestTypeIncr => "incr"
  | RequestTypeDecr => "decr"
  | RequestTypeTouch => "touch"
  | RequestTypeGat => "gat"
  | RequestTypeGats => "gats"
  end.

Record MCRequest : Type := mkMCRequest {
  rTp : RequestType;
  key : bytes;
  data : bytes
}.

(** What [req.Proto()] holds: an [*MCRequest], or the request of another
    protocol, on which the type assertion fails. *)
Inductive protoRequest : Type :=
| ProtoMC (mcr : MCRequest)
| ProtoOther.

Inductive CacheType : Type :=
| CacheTypeUnknown
| CacheTypeMemcache
| CacheTypeRedis.

Record MCResponse : Type := mkMCResponse {
  resp_rTp : RequestType;
  resp_data : bytes
}.

Record Response : Type := mkResponse {
  Type_ : CacheType;
  proto : MCResponse
}.

(** Errors: the sentinel values of the package, or the error an operation
    on the connection gave, under the message of [errors.Wrap]. *)
Inductive cause : Type :=
| ErrClosed
| ErrAssertRequest
| ErrBadResponse
| ErrConn.

Record error : Type := Wrap {
  err_cause : cause;
  err_msg : string
}.

(** Calls the handler makes on its connection, its buffered writer and
    reader, and the [stat] package, in the order it makes them. *)
Inductive event : Type :=
| SetWriteDeadline (d : Z)
| SetReadDeadline (d : Z)
| BwWrite (bs : bytes)
| BwFlush (ok : bool)
| BrRead (bs : bytes)
| BrReadFail
| StatHit (cluster addr : string)
| StatMiss (cluster addr : string)
| ConnClose.

(** The handler with its connection. [incoming] is what the peer still
    delivers to [br]: a read that needs more than is there fails (end of
    stream, or the read deadline). [bw] is what the buffered writer holds,
    [sent] what has gone out, [write_broken] whether [Flush] fails. The
    writer has a size and sends bytes on its own when it runs full:
    [bw_auto held p] is the number of bytes, counted from the front of what
    it holds followed by [p], that it sends while [p] is written to it. The
    writer is the one of the package [lib/bufio], declared in another file,
    so its policy is left open. [close_err] is what [conn.Close()] returns.
    [buf] is the length of the slab: its bytes are handed out once and
    overwritten by whoever gets them. [log] keeps the calls made so far. *)
Record handler : Type := mkHandler {
  cluster : string;
  addr : string;
  incoming : bytes;
  sent : bytes;
  write_broken : bool;
  bw : bytes;
  bw_auto : bytes -> bytes -> nat;
  bss : list bytes;
  buf : Z;
  readTimeout : Z;
  writeTimeout : Z;
  closed : Z;
  close_err : option cause;
  log : list event
}.

Definition emit (e : event) (h : handler) : handler :=
  {| cluster := cluster h; addr := addr h; incoming := incoming h;
     sent := sent h; write_broken := write_broken h; bw := bw h;
     bw_auto := bw_auto h; close_err := close_err h;
     bss := bss h; buf := buf h; readTimeout := readTimeout h;
     writeTimeout := writeTimeout h; closed := closed h;
     log := log h ++ [e] |}.

Definition set_incoming (i : bytes) (h : handler) : handler :=
  {| cluster := cluster h; addr := addr h; incoming := i;
     sent := sent h; write_broken := write_broken h; bw := bw h;
     bw_auto := bw_auto h; close_err := close_err h;
     bss := bss h; buf := buf h; readTimeout := readTimeout h;
     writeTimeout := writeTimeout h; closed := closed h; log := log h |}.

Definition set_bw (w : bytes) (h : handler) : handler :=
  {| cluster := cluster h; addr := addr h; incoming := incoming h;
     sent := sent h; write_broken := write_broken h; bw := w;
     bw_auto := bw_auto h; close_err := close_err h;
     bss := bss h; buf := buf h; readTimeout := readTimeout h;
     writeTimeout := writeTimeout h; closed := closed h; log := log h |}.

Definition set_sent (s : bytes) (h : handler) : handler :=
  {| cluster := cluster h; addr := addr h; incoming := incoming h;
     sent := s; write_broken := write_broken h; bw := bw h;
     bw_auto := bw_auto h; close_err := close_err h;
     bss := bss h; buf := buf h; readTimeout := readTimeout h;
     writeTimeout := writeTimeout h; closed := closed h; log := log h |}.

Definition set_bss (l : list bytes) (h : handler) : handler :=
  {| cluster := cluster h; addr := addr h; incoming := incoming h;
     sent := sent h; write_broken := write_broken h; bw := bw h;
     bw_auto := bw_auto h; close_err := close_err h;
     bss := l; buf := buf h; readTimeout := readTimeout h;
     writeTimeout := writeTimeout h; closed := closed h; log := log h |}.

Definition set_buf (n : Z) (h : handler) : handler :=
  {| cluster := cluster h; addr := addr h; incoming := incoming h;
     sent := sent h; write_broken := write_broken h; bw := bw h;
     bw_auto := bw_auto h; close_err := close_err h;
     bss := bss h; buf := n; readTimeout := readTimeout h;
     writeTimeout := writeTimeout h; closed := closed h; log := log h |}.

Definition set_closed (c : Z) (h : handler) : handler :=
  {| cluster := cluster h; addr := addr h; incoming := incoming h;
     sent := sent h; write_broken := write_broken h; bw := bw h;
     bw_auto := bw_auto h; close_err := close_err h;
     bss := bss h; buf := buf h; readTimeout := readTimeout h;
     writeTimeout := writeTimeout h; closed := c; log := log h |}.

(** Computations on the handler. [None] is reserved for a loop of the model
    running out of fuel. *)
Definition M (A : Type) : Type := handler -> option (A * handler).

Definition ret {A} (a : A) : M A := fun h => Some (a, h).

Definition bind {A B} (c : M A) (k : A -> M B) : M B :=
  fun h =>
    match c h with
    | None => None
    | Some (a, h') => k a h'
    end.

Definition act (f : handler -> handler) : M unit := fun h => Some (tt, f h).

Definition get {A} (f : handler -> A) : M A := fun h => Some (f h, h).

Declare Scope handler_scope.
Delimit Scope handler_scope with handler.
Notation "x <- c ;; k" := (bind c (fun x => k))
  (at level 100, c at next level, right associativity) : handler_scope.
Notation "c ;;; k" := (bind c (fun _ => k))
  (at level 100, right associativity) : handler_scope.
Local Open Scope handler_scope.

Definition len (bs : bytes) : Z := Z.of_nat (length bs).
Definition len_list (l : list bytes) : Z := Z.of_nat (length l).

(** The automatic flush of Go's [bufio.Writer] of [size] bytes: bytes that
    fit are kept; otherwise a writer that holds nothing sends them straight
    on, and a writer that holds something is filled, sends its [size] bytes
    and deals with the rest in the same way. *)
Definition bufio_auto (size : Z) (held p : bytes) : nat :=
  if len held + len p <=? size then 0%nat
  else if len held =? 0 then length p
  else if len p - (size - len held) <=? size then Z.to_nat size
  else (length held + length p)%nat.

(** [h.bw.Write], [WriteString] and [WriteByte]: the bytes join the buffer,
    and the writer sends the front of what it then holds as [bw_auto] says;
    a writer that cannot send keeps everything. Their results are not looked
    at by [Handle]. *)
Definition bw_Write (bs : bytes) : M unit :=
  act (fun h =>
         let all := bw h ++ bs in
         let k := if write_broken h then 0%nat else bw_auto h (bw h) bs in
         emit (BwWrite bs)
           (set_bw (drop k all) (set_sent (sent h ++ take k all) h))).

(** [h.bw.Flush()] *)
Definition bw_Flush : M (option cause) :=
  fun h =>
    if write_broken h then Some (Some ErrConn, emit (BwFlush false) h)
    else Some (None, emit (BwFlush true) (set_bw [] (set_sent (sent h ++ bw h) h))).

(** Cut [s] after the first [d]. *)
Fixpoint cut_line (d : ascii) (s : bytes) : option (bytes * bytes) :=
  match s with
  | [] => None
  | c :: s' =>
      if byte_eqb c d then Some ([c], s')
      else match cut_line d s' with
           | Some (l, r) => Some (c :: l, r)
           | None => None
           end
  end.

(** [h.br.ReadBytes(delim)]: the bytes up to and including the delimiter.
    The slices the reader hands out are taken by value. *)
Definition br_ReadBytes (d : ascii) : M (bytes + cause) :=
  fun h =>
    match cut_line d (incoming h) with
    | Some (l, r) => Some (inl l, emit (BrRead l) (set_incoming r h))
    | None => Some (inr ErrConn, emit BrReadFail h)
    end.

(** [h.br.ReadFull(n)]: exactly [n] bytes. *)
Definition br_ReadFull (n : Z) : M (bytes + cause) :=
  fun h =>
    if (n <? 0) || (len (incoming h) <? n)
    then Some (inr ErrConn, emit BrReadFail h)
    else Some (inl (take (Z.to_nat n) (incoming h)),
               emit (BrRead (take (Z.to_nat n) (incoming h)))
                 (set_incoming (drop (Z.to_nat n) (incoming h)) h)).

(** [bytes.Split(s, sep)] for a separator that is not empty. [skip] counts
    the bytes of a separator just met that are still to be passed over;
    [cur] is the piece being read, last byte first. *)
Fixpoint bytes_Split_from (s sep : bytes) (skip : nat) (cur : bytes) : list bytes :=
  match s with
  | [] => [rev cur]
  | c :: s' =>
      match skip with
      | S k => bytes_Split_from s' sep k cur
      | O =>
          if bytes_HasPrefix s sep
          then rev cur :: bytes_Split_from s' sep (length sep - 1) []
          else bytes_Split_from s' sep O (c :: cur)
      end
  end.

Definition bytes_Split (s sep : bytes) : list bytes := bytes_Split_from s sep O [].

(** [int(x)] of an [int64] sum: two's complement on 64 bits. *)
Definition wrap64 (z : Z) : Z := (z + 2 ^ 63) mod 2 ^ 64 - 2 ^ 63.

Definition zeros (n : Z) : bytes := replicate (Z.to_nat n) "000"%char.

(** [h.makeBytes(n)], for [n >= 0] (it is called with a sum of lengths plus
    five). *)
Definition makeBytes (n : Z) : M bytes :=
  fun h =>
    if n =? 0 then Some ([], h)
    else if handlerWriteBufferSize <=? n then Some (zeros n, h)
    else
      let b := if buf h <? n then handlerReadBufferSize else buf h in
      Some (zeros n, set_buf (b - n) h).

(** [copy(dst[off:], src)] *)
Definition copy_at (dst : bytes) (off : Z) (src : bytes) : bytes :=
  take (Z.to_nat off) dst ++
  take (length dst - Z.to_nat off) src ++
  drop (Z.to_nat off + length src) dst.

(** The loop [for i := range h.bss] that lays the pieces out in [tmp]. *)
Fixpoint copy_all (pieces : list bytes) (tmp : bytes) (off : Z) : bytes * Z :=
  match pieces with
  | [] => (tmp, off)
  | p :: pieces' => copy_all pieces' (copy_at tmp off p) (off + len p)
  end.

Definition is_retrieval (t : RequestType) : bool :=
  match t with
  | RequestTypeGet | RequestTypeGets | RequestTypeGat | RequestTypeGats => true
  | _ => false
  end.

Definition is_gat (t : RequestType) : bool :=
  match t with
  | RequestTypeGat | RequestTypeGats => true
  | _ => false
  end.

Definition endBytesLen : Z := 5.

Definition set_read_deadline : M unit :=
  fun h =>
    if 0 <? readTimeout h
    then Some (tt, emit (SetReadDeadline (readTimeout h)) h)
    else Some (tt, h).

Definition set_write_deadline : M unit :=
  fun h =>
    if 0 <? writeTimeout h
    then Some (tt, emit (SetWriteDeadline (writeTimeout h)) h)
    else Some (tt, h).

Section WithConv.

(** [conv.Btoi] of the library package [lib/conv]: the number a byte
    string spells, or an error. It is a parameter of the handler's model. *)
Variable Btoi : bytes -> option Z.

(** The loop [for !bytes.Equal(bs3, endBytes)]: [bs3] is nil ([None]) on
    entry. It gives back [tl]. *)
Fixpoint Handle_reread (fuel : nat) (bs3 : option bytes) (tl : Z) : M (Z + error) :=
  if bytes_Equal (default [] bs3) endBytes then ret (inl tl)
  else
    match fuel with
    | O => fun _ => None
    | S fuel' =>
        tl' <- match bs3 with
               | Some b =>
                   act (fun h => set_bss (bss h ++ [b]) h) ;;;
                   ret (tl + len b)
               | None => ret tl
               end ;;
        set_read_deadline ;;;
        r <- br_ReadBytes delim ;;
        match r with
        | inr e => ret (inr (Wrap e "MC Handler handle reread response bytes"))
        | inl b => Handle_reread fuel' (Some b) tl'
        end
    end.

(** The length field of a [VALUE] line ([bss[3]], the trailing [\r\n] cut
    off when it is the last field). *)
Definition value_length (bs : bytes) : Z + error :=
  let bss := bytes_Split bs spaceBytes in
  if len_list bss <? 4
  then inr (Wrap ErrBadResponse "MC Handler handle read response bytes split")
  else
    let f3 := bss !!! 3%nat in
    if (len_list bss =? 4) && (len f3 <? 2)
    then inr (Wrap ErrBadResponse "MC Handler handle read response bytes check")
    else
      let f3' := if len_list bss =? 4 then take (length f3 - 2) f3 else f3 in
      match Btoi f3' with
      | None => inr (Wrap ErrBadResponse "MC Handler handle read response bytes length")
      | Some length => inl length
      end.

Definition response (t : RequestType) (bs : bytes) : Response :=
  {| Type_ := CacheTypeMemcache;
     proto := {| resp_rTp := t; resp_data := bs |} |}.

(** The body of the loop [for i := 0; i < len(mcrs); i++]: read the reply to
    [mcr] and build its response. [h.bss[:2]] with its two slots assigned is
    [[bs; bs2]] ([Dial] makes [bss] with two slots). The inner loop reads a
    line of at least one byte each time round, so one more step of fuel
    than there are bytes to come lets it run to its end. *)
Definition Handle_reply (mcr : MCRequest) : M (Response + error) :=
  r <- br_ReadBytes delim ;;
  match r with
  | inr e => ret (inr (Wrap e "MC Handler handle read response bytes"))
  | inl bs =>
      r <- (if is_retrieval (rTp mcr) then
              if negb (bytes_Equal bs endBytes) then
                c <- get cluster ;;
                a <- get addr ;;
                act (emit (StatHit c a)) ;;;
                match value_length bs with
                | inr e => ret (inr e)
                | inl length =>
                    r <- br_ReadFull (wrap64 (length + 2)) ;;
                    match r with
                    | inr _ =>
                        ret (inr (Wrap ErrBadResponse
                                    "MC Handler handle read response bytes read"))
                    | inl bs2 =>
                        act (set_bss [bs; bs2]) ;;;
                        fuel <- get (fun h => S (List.length (incoming h))) ;;
                        r <- Handle_reread fuel None (len bs + len bs2) ;;
                        match r with
                        | inr e => ret (inr e)
                        | inl tl =>
                            tmp <- makeBytes (tl + endBytesLen) ;;
                            pieces <- get bss ;;
                            let '(tmp', off) := copy_all pieces tmp 0 in
                            ret (inl (copy_at tmp' off endBytes))
                        end
                    end
                end
              else
                c <- get cluster ;;
                a <- get addr ;;
                act (emit (StatMiss c a)) ;;;
                ret (inl bs)
            else ret (inl bs)) ;;
      match r with
      | inr e => ret (inr e)
      | inl bs' => ret (inl (response (rTp mcr) bs'))
      end
  end.

(** The loop [for req := reqs; req != nil; req = req.Next]. *)
Fixpoint Handle_write (reqs : list protoRequest) (mcrs : list MCRequest)
  : M (list MCRequest + error) :=
  match reqs with
  | [] => ret (inl mcrs)
  | ProtoOther :: _ =>
      ret (inr (Wrap ErrAssertRequest "MC Handler handle assert MCRequest"))
  | ProtoMC mcr :: reqs' =>
      set_write_deadline ;;;
      bw_Write (B (RequestType_String (rTp mcr))) ;;;
      bw_Write [spaceByte] ;;;
      (if is_gat (rTp mcr) then
         bw_Write (data mcr) ;;;
         bw_Write [spaceByte] ;;;
         bw_Write (key mcr) ;;;
         bw_Write crlfBytes
       else
         bw_Write (key mcr) ;;;
         bw_Write (data mcr)) ;;;
      Handle_write reqs' (mcrs ++ [mcr])
  end.

(** The loop over [mcrs]; [resps] is what has been appended so far. *)
Fixpoint Handle_read (mcrs : list MCRequest) (resps : list Response)
  : M (list Response * option error) :=
  match mcrs with
  | [] => ret (resps, None)
  | mcr :: mcrs' =>
      r <- Handle_reply mcr ;;
      match r with
      | inr e => ret (resps, Some e)
      | inl resp => Handle_read mcrs' (resps ++ [resp])
      end
  end.

(** [h.Closed()] *)
Definition Closed : M bool := get (fun h => closed h =? handlerClosed).

(** [h.Handle(reqs)]: the responses and the error it returns. *)
Definition Handle (reqs : list protoRequest) : M (list Response * option error) :=
  c <- Closed ;;
  if c then ret ([], Some (Wrap ErrClosed "MC Handler handle request"))
  else
    w <- Handle_write reqs [] ;;
    match w with
    | inr e => ret ([], Some e)
    | inl mcrs =>
        f <- bw_Flush ;;
        match f with
        | Some e => ret ([], Some (Wrap e "MC Handler handle flush request bytes"))
        | None =>
            set_read_deadline ;;;
            Handle_read mcrs []
        end
    end.

End WithConv.

(** [h.Close()]: the compare-and-swap lets one caller close the connection,
    and that caller gets the result of [conn.Close()]. *)
Definition Close : M (option cause) :=
  fun h =>
    if closed h =? handlerOpening
    then Some (close_err h, emit ConnClose (set_closed handlerClosed h))
    else Some (None, h).

End Memcache.

(** ** anzi/anzi_test.go: the mock connection *)
Module Anzi.

Definition stateClosed : Z := 1.
Definition stateOpening : Z := 0.

(** [io.EOF], or another error value. *)
Inductive error : Type :=
| io_EOF
| other_error (msg : string).

(** A [*bytes.Buffer] is the unread bytes it holds; [None] is the nil
    pointer. *)
Record mockConn : Type := mkMockConn {
  addr : string;
  rbuf : option bytes;
  wbuf : option bytes;
  data : bytes;
  repeat : Z;
  err : option error;
  closed : Z
}.

Definition set_rbuf (b : option bytes) (m : mockConn) : mockConn :=
  {| addr := addr m; rbuf := b; wbuf := wbuf m; data := data m;
     repeat := repeat m; err := err m; closed := closed m |}.

Definition set_wbuf (b : option bytes) (m : mockConn) : mockConn :=
  {| addr := addr m; rbuf := rbuf m; wbuf := b; data := data m;
     repeat := repeat m; err := err m; closed := closed m |}.

Definition set_repeat (r : Z) (m : mockConn) : mockConn :=
  {| addr := addr m; rbuf := rbuf m; wbuf := wbuf m; data := data m;
     repeat := r; err := err m; closed := closed m |}.

Definition set_closed (c : Z) (m : mockConn) : mockConn :=
  {| addr := addr m; rbuf := rbuf m; wbuf := wbuf m; data := data m;
     repeat := repeat m; err := err m; closed := c |}.

(** [Write] of a [bytes.Buffer] of Go's standard library: the bytes join the
    buffer; on the nil pointer it panics. It returns [len(p)] and nil. *)
Definition Buffer_Write (b : option bytes) (p : bytes) : result bytes :=
  match b with
  | None => Panic
  | Some buf => Val (buf ++ p)
  end.

(** [Read] of a [bytes.Buffer] into a slice of [k] bytes: the bytes copied,
    the error, and what the buffer still holds. An empty buffer gives
    [io.EOF], unless [k] is 0. *)
Definition Buffer_Read (b : option bytes) (k : nat)
  : result (bytes * option error * bytes) :=
  match b with
  | None => Panic
  | Some [] => Val ([], if (k =? 0)%nat then None else Some io_EOF, [])
  | Some buf => Val (take k buf, None, drop k buf)
  end.

(** [m.Read(b)] with [len(b) = k]: the bytes put in [b] (their number is
    the [n] returned) and the error. *)
Definition Read (m : mockConn) (k : nat) : result (bytes * option error * mockConn) :=
  if closed m =? stateClosed then Val ([], Some io_EOF, m)
  else
    match err m with
    | Some e => Val ([], Some e, m)
    | None =>
        let refilled :=
          if 0 <? repeat m then
            match Buffer_Write (rbuf m) (data m) with
            | Panic => Panic
            | Val b => Val (set_repeat (repeat m - 1) (set_rbuf (Some b) m))
            end
          else Val m in
        match refilled with
        | Panic => Panic
        | Val m1 =>
            match Buffer_Read (rbuf m1) k with
            | Panic => Panic
            | Val (out, e, b') => Val (out, e, set_rbuf (Some b') m1)
            end
        end
    end.

(** [m.Write(b)]: the [n] returned and the error. *)
Definition Write (m : mockConn) (b : bytes) : result (Z * option error * mockConn) :=
  if closed m =? stateClosed then Val (0, Some io_EOF, m)
  else
    match err m with
    | Some e => Val (0, Some e, m)
    | None =>
        match Buffer_Write (wbuf m) b with
        | Panic => Panic
        | Val w => Val (Z.of_nat (length b), None, set_wbuf (Some w) m)
        end
    end.

(** [WriteTo] of [net.Buffers] on a [*bytes.Buffer], which is no
    [buffersWriter]: each buffer is written in turn. *)
Fixpoint Buffers_WriteTo (bufs : list bytes) (w : option bytes) (n : Z)
  : result (Z * option bytes) :=
  match bufs with
  | [] => Val (n, w)
  | b :: bufs' =>
      match Buffer_Write w b with
      | Panic => Panic
      | Val w' => Buffers_WriteTo bufs' (Some w') (n + Z.of_nat (length b))
      end
  end.

(** [m.writeBuffers(buf)]: the count and the error; the buffers written
    are consumed. *)
Definition writeBuffers (m : mockConn) (bufs : list bytes)
  : result (Z * option error * mockConn * list bytes) :=
  match err m with
  | Some e => Val (0, Some e, m, bufs)
  | None =>
      match Buffers_WriteTo bufs (wbuf m) 0 with
      | Panic => Panic
      | Val (n, w) => Val (n, None, set_wbuf w m, [])
      end
  end.

(** [m.Close()] returns nil. *)
Definition Close (m : mockConn) : mockConn := set_closed stateClosed m.

Definition _createRepeatConn (d : bytes) (r : Z) : mockConn :=
  {| addr := "127.0.0.1:12345"; rbuf := Some []; wbuf := Some [];
     data := d; repeat := r; err := None; closed := stateOpening |}.

Definition _createConn (d : bytes) : mockConn := _createRepeatConn d 1.

(** The buffer [_createDownStreamConn] returns beside the connection is
    the connection's [wbuf]. *)
Definition _createDownStreamConn : mockConn :=
  {| addr := "127.0.0.1:12345"; rbuf := None; wbuf := Some [];
     data := []; repeat := 0; err := None; closed := stateOpening |}.

End Anzi.

(** * Properties *)

Lemma bytes_Equal_spec (a b : bytes) : bytes_Equal a b = true <-> a = b.
Proof.
  revert b; induction a as [|x a IH]; intros [|y b]; simpl; try (split; congruence).
  rewrite andb_true_iff, IH. unfold byte_eqb. rewrite Ascii.eqb_eq.
  split; [intros [-> ->]; reflexivity | intros [= -> ->]; auto].
Qed.

Lemma bytes_Equal_refl (a : bytes) : bytes_Equal a a = true.
Proof. apply bytes_Equal_spec; reflexivity. Qed.

Lemma bytes_Equal_neq (a b : bytes) : a <> b -> bytes_Equal a b = false.
Proof.
  intros H. destruct (bytes_Equal a b) eqn:E; [|reflexivity].
  apply bytes_Equal_spec in E. contradiction.
Qed.

(** ** Properties of proto/batch.go *)
Module BatchProps.
Import Batch.

(** The shape every batch keeps: the count stays within the slice. *)
Definition MsgBatch_ok (m : MsgBatch) : Prop :=
  0 <= count m <= Z.of_nat (length (msgs m)).

(** [AddMsg] for each message of [ms] in turn. *)
Fixpoint AddMsgs (m : MsgBatch) (ms : list (option nat)) : result MsgBatch :=
  match ms with
  | [] => Val m
  | x :: ms' =>
      match MsgBatch_AddMsg m x with
      | Panic => Panic
      | Val m' => AddMsgs m' ms'
      end
  end.


Lemma MsgBatch_Reset_ok (m : MsgBatch) : MsgBatch_ok (MsgBatch_Reset m).
Proof. unfold MsgBatch_ok; simpl; lia. Qed.

(** One [AddMsg] on a well-shaped batch: it returns, the new message sits at
    index [count], the slots below it are untouched, and the slice grows by
    one exactly when it was full. *)
Lemma MsgBatch_AddMsg_ok (m : MsgBatch) (x : option nat) :
  MsgBatch_ok m ->
  exists m',
    MsgBatch_AddMsg m x = Val m' /\
    MsgBatch_ok m' /\
    count m' = count m + 1 /\
    msgs m' !! Z.to_nat (count m) = Some x /\
    (forall j, (j < Z.to_nat (count m))%nat -> msgs m' !! j = msgs m !! j) /\
    length (msgs m') = Nat.max (length (msgs m)) (S (Z.to_nat (count m))) /\
    buf m' = buf m /\ dc m' = dc m /\ state m' = state m /\ parent m' = parent m.
Proof.
  intros [H0 Hle]. unfold MsgBatch_AddMsg.
  destruct (Z.leb_spec (Z.of_nat (length (msgs m))) (count m)) as [Hfull|Hroom].
  - assert (Hc : Z.to_nat (count m) = length (msgs m)) by lia.
    eexists; split; [reflexivity|]. unfold MsgBatch_ok; simpl.
    rewrite length_app; simpl.
    repeat split; try lia.
    + rewrite Hc. rewrite lookup_app_r by lia.
      replace (length (msgs m) - length (msgs m))%nat with O by lia. reflexivity.
    + intros j Hj. rewrite lookup_app_l by lia. reflexivity.
  - unfold slice_set.
    destruct (Z.ltb_spec (count m) 0) as [?|_]; [lia|].
    destruct (Z.leb_spec (Z.of_nat (length (msgs m))) (count m)) as [?|_]; [lia|].
    simpl. eexists; split; [reflexivity|]. unfold MsgBatch_ok; simpl.
    rewrite length_insert.
    repeat split; try lia.
    + apply list_lookup_insert_eq. lia.
    + intros j Hj. apply list_lookup_insert_ne. lia.
Qed.

Lemma AddMsgs_ok (ms : list (option nat)) : forall (m : MsgBatch),
  MsgBatch_ok m ->
  exists m',
    AddMsgs m ms = Val m' /\
    MsgBatch_ok m' /\
    count m' = count m + Z.of_nat (length ms) /\
    (forall j, (j < Z.to_nat (count m))%nat -> msgs m' !! j = msgs m !! j) /\
    (forall j x, ms !! j = Some x -> msgs m' !! (Z.to_nat (count m) + j)%nat = Some x).
Proof.
  induction ms as [|x ms IH]; intros m Hok.
  - exists m. simpl. repeat split; try apply Hok; try lia; auto.
    intros j y Hj. rewrite lookup_nil in Hj. discriminate.
  - destruct (MsgBatch_AddMsg_ok m x Hok)
      as (m1 & E1 & Hok1 & Hc1 & Hat & Hbelow & _).
    destruct (IH m1 Hok1) as (m' & E' & Hok' & Hc' & Hbelow' & Hnew').
    exists m'. simpl. rewrite E1.
    assert (Hcn : Z.to_nat (count m1) = S (Z.to_nat (count m)))
      by (destruct Hok; lia).
    repeat split; try apply Hok'; auto.
    + rewrite Hc', Hc1. simpl length. lia.
    + intros j Hj. rewrite Hbelow' by lia. apply Hbelow. lia.
    + intros [|j] y Hj; simpl in Hj.
      * injection Hj as <-. rewrite Nat.add_0_r.
        rewrite Hbelow' by lia. exact Hat.
      * replace (Z.to_nat (count m) + S j)%nat
          with (Z.to_nat (count m1) + j)%nat by lia.
        apply Hnew'. exact Hj.
Qed.

(** On a well-shaped batch [Nth] never indexes out of range. *)
Lemma MsgBatch_Nth_ok (m : MsgBatch) (i : Z) :
  MsgBatch_ok m -> 0 <= i ->
  MsgBatch_Nth m i =
    Val (if i <? count m then default None (msgs m !! Z.to_nat i) else None).
Proof.
  intros [H0 Hle] Hi. unfold MsgBatch_Nth, slice_get.
  destruct (Z.ltb_spec i (count m)) as [Hlt|Hge]; [|reflexivity].
  destruct (Z.ltb_spec i 0) as [?|_]; [lia|].
  destruct (lookup_lt_is_Some_2 (msgs m) (Z.to_nat i)) as [y Hy]; [lia|].
  rewrite Hy. reflexivity.
Qed.

(** *** Parent chains *)

(** [chain bs p r]: following parent links from [p] leads to [r]. *)
Inductive chain (bs : gmap nat MsgBatch) : nat -> nat -> Prop :=
| chain_here (p : nat) : chain bs p p
| chain_up (p q r : nat) (b : MsgBatch) :
    bs !! p = Some b -> parent b = Some q -> chain bs q r -> chain bs p r.

(** The root of [m]'s parent chain: the batch on it that has no parent. *)
Definition is_root (bs : gmap nat MsgBatch) (m r : nat) : Prop :=
  chain bs m r /\ exists br, bs !! r = Some br /\ parent br = None.



(** [Done] called [n] times in a row on the same batch. *)
Fixpoint Done_times (fuel n : nat) (h : heap) (m : nat) : option heap :=
  match n with
  | O => Some h
  | S n' =>
      match Done fuel h m with
      | None => None
      | Some h' => Done_times fuel n' h' m
      end
  end.

Lemma is_root_unique (bs : gmap nat MsgBatch) (m r r' : nat) :
  is_root bs m r -> is_root bs m r' -> r = r'.
Proof.
  intros [Hc (br & Hr & Hp)] [Hc' (br' & Hr' & Hp')].
  induction Hc as [p|p q r b Hb Hpar Hc IH].
  - inversion Hc' as [|? q' ? b' Hb' Hpar' Hc'']; subst; [reflexivity|].
    congruence.
  - inversion Hc' as [|? q' ? b' Hb' Hpar' Hc'']; subst.
    + congruence.
    + apply IH; auto. congruence.
Qed.


(** The walk of [Done] is the walk of [Fork] followed by the store. *)
Lemma Done_loop_Fork_loop (bs : gmap nat MsgBatch) (fuel : nat) :
  forall p,
    Done_loop bs fuel p =
      match Fork_loop bs fuel p with
      | None => None
      | Some r =>
          match bs !! r with
          | None => None
          | Some br => Some (<[r := set_state msgBatchStateDone br]> bs)
          end
      end.
Proof.
  induction fuel as [|fuel IH]; intros p; simpl; [reflexivity|].
  destruct (bs !! p) as [b|] eqn:Hb; [|reflexivity].
  destruct (parent b) as [q|] eqn:Hp; [apply IH|].
  rewrite Hb. reflexivity.
Qed.









(** *** Done *)



(** One [Done], given where the walk ends. *)
Lemma Done_step (fuel : nat) (h : heap) (m r : nat) (bm br : MsgBatch) :
  batches h !! m = Some bm -> Fork_loop (batches h) fuel m = Some r ->
  batches h !! r = Some br ->
  Done fuel h m =
    Some {| batches := <[r := set_state msgBatchStateDone br]> (batches h);
            chans := try_send (dc bm) (chans h) |}.
Proof.
  intros Hm Hr Hbr. unfold Done.
  rewrite Hm, Done_loop_Fork_loop, Hr, Hbr. reflexivity.
Qed.







(** A root batch on a channel of depth one, a fork of it, and a fork of
    that fork. *)
Definition ex_chan : nat := 0%nat.

Definition ex_h0 : heap :=
  {| batches := ∅; chans := {[ ex_chan := {| cap := 1; pending := 0 |} ]} |}.

Definition ex_h1 : heap :=
  let '(l, h) := NewMsgBatch ex_h0 in
  {| batches := alter (set_dc (Some ex_chan)) l (batches h); chans := chans h |}.

Definition ex_fork (h : heap) (m : nat) : heap :=
  match Fork 2 h m with
  | Some (_, h') => h'
  | None => h
  end.

Definition ex_h2 : heap := ex_fork ex_h1 0.
Definition ex_h3 : heap := ex_fork ex_h2 1.


Example ex_h3_parents :
  (parent <$> batches ex_h3 !! 0%nat) = Some None /\
  (parent <$> batches ex_h3 !! 1%nat) = Some (Some 0%nat) /\
  (parent <$> batches ex_h3 !! 2%nat) = Some (Some 0%nat) /\
  (dc <$> batches ex_h3 !! 2%nat) = Some (Some ex_chan).
Proof. vm_compute. auto. Qed.

Example ex_Done_thrice :
  exists h1,
    Done 2 ex_h3 2 = Some h1 /\
    (state <$> batches h1 !! 0%nat) = Some msgBatchStateDone /\
    (state <$> batches h1 !! 2%nat) = Some msgBatchStateNotReady /\
    chans h1 !! ex_chan = Some {| cap := 1; pending := 1 |} /\
    Done_times 2 3 ex_h3 2 = Some h1.
Proof. eexists. vm_compute. auto. Qed.


(** *** Wait *)

(** A wakeup that keeps [Wait] going: a signal that finds some batch with
    messages not done yet. *)
Definition unfinished (m : MsgBatchAllocator) (e : wakeup) : Prop :=
  match e with
  | RecvDc h => checkAllDone h m = Val false
  | RecvTo => False
  end.

Lemma Wait_loop_unfinished (m : MsgBatchAllocator) (pre : list wakeup) :
  forall n rest,
    Forall (unfinished m) pre -> (length pre <= n)%nat ->
    Wait_loop m n (pre ++ rest) = Wait_loop m (n - length pre) rest.
Proof.
  induction pre as [|e pre IH]; intros n rest HF Hn.
  - simpl. rewrite Nat.sub_0_r. reflexivity.
  - inversion HF as [|? ? He HF']; subst. simpl in Hn.
    destruct n as [|n]; [lia|].
    destruct e as [h|]; [|contradiction]. simpl in He.
    simpl. rewrite He. apply IH; [exact HF'|lia].
Qed.

(** What a returned outcome of the loop says about the wakeups it consumed. *)
Lemma Wait_loop_inv (m : MsgBatchAllocator) (n : nat) :
  forall sched err rest,
    Wait_loop m n sched = WaitReturns err rest ->
    exists pre,
      Forall (unfinished m) pre /\
      match err with
      | None =>
          exists h, sched = pre ++ RecvDc h :: rest /\
                    checkAllDone h m = Val true /\ (length pre < n)%nat
      | Some ErrTimeout => sched = pre ++ RecvTo :: rest /\ (length pre < n)%nat
      | Some ErrMaxRetryReached => sched = pre ++ rest /\ length pre = n
      end.
Proof.
  induction n as [|n IH]; intros sched err rest H; simpl in H.
  - injection H as <- <-. exists []. split; [constructor|]. auto.
  - destruct sched as [|[h|] sched]; [discriminate| |].
    + destruct (checkAllDone h m) as [[|]|] eqn:E; [| |discriminate].
      * injection H as <- <-. exists []. split; [constructor|].
        exists h. simpl. repeat split; auto; lia.
      * destruct (IH _ _ _ H) as (pre & HF & Hm).
        exists (RecvDc h :: pre). split; [constructor; auto|].
        destruct err as [[|]|]; simpl.
        -- destruct Hm as [-> ?]. split; [reflexivity|lia].
        -- destruct Hm as [-> ?]. split; [reflexivity|lia].
        -- destruct Hm as (h' & -> & ? & ?). exists h'. repeat split; auto; lia.
    + injection H as <- <-. exists []. split; [constructor|].
      simpl. split; [reflexivity|lia].
Qed.

Lemma checkAllDone_empty (h : heap) (m : MsgBatchAllocator) :
  mbMap m = ∅ -> checkAllDone h m = Val true.
Proof.
  intros E. unfold checkAllDone, MsgBatchs. rewrite E, map_to_list_empty.
  reflexivity.
Qed.

(** The loop of [checkAllDone] answers true exactly when every listed
    batch that holds messages is done, whatever the order of the entries. *)
Lemma checkAllDone_loop_spec (h : heap) (l : list (string * nat)) :
  (forall e, e ∈ l -> is_Some (batches h !! e.2)) ->
  exists b,
    checkAllDone_loop h l = Val b /\
    (b = true <->
     forall e mb, e ∈ l -> batches h !! e.2 = Some mb ->
       0 < MsgBatch_Count mb -> MsgBatch_IsDone mb = true).
Proof.
  induction l as [|[node p] l IH]; intros Hval.
  - exists true. split; [reflexivity|]. split; [|reflexivity].
    intros _ e mb He. apply elem_of_nil in He. contradiction.
  - destruct (Hval (node, p)) as [mb Hmb]; [left|]. simpl in Hmb.
    simpl. rewrite Hmb.
    destruct ((0 <? MsgBatch_Count mb) && negb (MsgBatch_IsDone mb)) eqn:E.
    + exists false. split; [reflexivity|]. split; [discriminate|].
      intros Hall. apply andb_true_iff in E as [E1 E2].
      apply Z.ltb_lt in E1.
      assert (Hd : MsgBatch_IsDone mb = true)
        by (apply (Hall (node, p) mb); [left|exact Hmb|exact E1]).
      rewrite Hd in E2. discriminate.
    + destruct IH as (b & Hb & Hiff); [intros e He; apply Hval; right; exact He|].
      exists b. split; [exact Hb|]. rewrite Hiff. split.
      * intros Hall e mb' He Hmb' Hpos. apply elem_of_cons in He as [->|He].
        -- simpl in Hmb'. assert (mb' = mb) as -> by congruence.
           apply andb_false_iff in E as [E|E].
           ++ apply Z.ltb_ge in E. lia.
           ++ apply negb_false_iff in E. exact E.
        -- eapply Hall; eauto.
      * intros Hall e mb' He. apply Hall. right. exact He.
Qed.

Lemma checkAllDone_spec (h : heap) (m : MsgBatchAllocator) :
  (forall node p, mbMap m !! node = Some p -> is_Some (batches h !! p)) ->
  exists b,
    checkAllDone h m = Val b /\
    (b = true <->
     forall node p mb, mbMap m !! node = Some p -> batches h !! p = Some mb ->
       0 < MsgBatch_Count mb -> MsgBatch_IsDone mb = true).
Proof.
  intros Hval. unfold checkAllDone, MsgBatchs.
  destruct (checkAllDone_loop_spec h (map_to_list (mbMap m))) as (b & Hb & Hiff).
  - intros [node p] He. apply elem_of_map_to_list in He. eapply Hval; eauto.
  - exists b. split; [exact Hb|]. rewrite Hiff. split.
    + intros Hall node p mb Hn. apply (Hall (node, p) mb).
      apply elem_of_map_to_list. exact Hn.
    + intros Hall [node p] mb He. apply elem_of_map_to_list in He.
      apply (Hall node p mb He).
Qed.

(** An allocator with one batch holding one message, as [AddMsg] builds
    it, the heap in which that batch is not done, and the heap in which it
    is. *)
Definition ex_node : string := "10.0.0.1:11211".

Definition ex_alloc_heap : heap * MsgBatchAllocator :=
  match MsgBatchAllocator_AddMsg ex_h0 (NewMsgBatchAllocator (Some ex_chan) 1000)
          ex_node (Some 1%nat) with
  | Val hm => hm
  | Panic => (ex_h0, NewMsgBatchAllocator (Some ex_chan) 1000)
  end.

Definition ex_alloc : MsgBatchAllocator := ex_alloc_heap.2.
Definition ex_pending_heap : heap := ex_alloc_heap.1.
Definition ex_done_heap : heap :=
  match Done 2 ex_pending_heap 0 with
  | Some h => h
  | None => ex_pending_heap
  end.

Example ex_alloc_shape :
  mbMap ex_alloc = {[ ex_node := 0%nat ]} /\
  (count <$> batches ex_pending_heap !! 0%nat) = Some 1 /\
  checkAllDone ex_pending_heap ex_alloc = Val false /\
  checkAllDone ex_done_heap ex_alloc = Val true.
Proof. vm_compute. auto. Qed.

(** C3, as the code has it. With at least one batch in the map and
    [N = batchCount + 8], [Wait] returns nil exactly when, after fewer than
    [N] signals that found a batch unfinished, a signal finds every
    non-empty batch done; it returns [ErrTimeout] exactly when, after fewer
    than [N] such signals, the timer is received; and it returns
    [ErrMaxRetryReached] exactly when the first [N] wakeups are all signals
    that found a batch unfinished: the [N]-th of them ends the loop, no
    further wakeup is awaited. In each case the wakeups after those are left
    unconsumed. *)
Theorem Wait_with_batches (m : MsgBatchAllocator) (sched : list wakeup)
    (err : option error) (rest : list wakeup) :
  (1 <= size (mbMap m))%nat ->
  Wait m sched = WaitReturns err rest <->
  exists pre,
    Forall (unfinished m) pre /\
    match err with
    | None =>
        exists h, sched = pre ++ RecvDc h :: rest /\
                  checkAllDone h m = Val true /\
                  (length pre < size (mbMap m) + maxRetryTimes)%nat
    | Some ErrTimeout =>
        sched = pre ++ RecvTo :: rest /\
        (length pre < size (mbMap m) + maxRetryTimes)%nat
    | Some ErrMaxRetryReached =>
        sched = pre ++ rest /\
        length pre = (size (mbMap m) + maxRetryTimes)%nat
    end.
Proof.
  intros Hsz. unfold Wait.
  destruct (Nat.eqb_spec (size (mbMap m)) 0) as [?|_]; [lia|].
  set (N := (size (mbMap m) + maxRetryTimes)%nat). split.
  - apply Wait_loop_inv.
  - intros (pre & HF & H). destruct err as [[|]|].
    + destruct H as [-> Hlt].
      rewrite Wait_loop_unfinished by (auto; lia).
      destruct (N - length pre)%nat eqn:E; [lia|]. reflexivity.
    + destruct H as [-> Hlen].
      rewrite Wait_loop_unfinished by (auto; lia).
      replace (N - length pre)%nat with O by lia. reflexivity.
    + destruct H as (h & -> & Hd & Hlt).
      rewrite Wait_loop_unfinished by (auto; lia).
      destruct (N - length pre)%nat eqn:E; [lia|]. simpl. rewrite Hd. reflexivity.
Qed.

(** One batch, nine signals that find it unfinished, then one that would
    find it done. *)
Lemma Wait_with_batches_witness :
  (1 <= size (mbMap ex_alloc))%nat /\
  Wait ex_alloc (replicate 9 (RecvDc ex_pending_heap) ++ [RecvDc ex_done_heap])
    = WaitReturns (Some ErrMaxRetryReached) [RecvDc ex_done_heap].
Proof.
  assert (H1 : (1 <= size (mbMap ex_alloc))%nat) by (vm_compute; lia).
  split; [exact H1|].
  apply (Wait_with_batches ex_alloc _ _ _ H1).
  exists (replicate 9 (RecvDc ex_pending_heap)). split.
  - apply Forall_replicate. vm_compute. reflexivity.
  - split; [reflexivity|]. vm_compute. reflexivity.
Defined.

(** More than [batchCount + 8] wakeups are not needed for
    [ErrMaxRetryReached]: here the batch count is 1, [Wait] is woken 9
    times, and returns [ErrMaxRetryReached]. *)
Lemma Wait_MaxRetry_at_bound_counterexample :
  Wait ex_alloc (replicate 9 (RecvDc ex_pending_heap))
    = WaitReturns (Some ErrMaxRetryReached) [] /\
  ~ (size (mbMap ex_alloc) + maxRetryTimes
       < length (replicate 9 (RecvDc ex_pending_heap)))%nat.
Proof. split; [vm_compute; reflexivity|vm_compute; lia]. Qed.

(** C8. With an empty map, [Wait] sits in one [select]: a signal makes it
    return nil (the check over no batches succeeds), the timer makes it
    return [ErrTimeout], and either way every later wakeup is left
    unconsumed; with nothing to receive it blocks. *)
Theorem Wait_without_batches (m : MsgBatchAllocator) (sched : list wakeup) :
  mbMap m = ∅ ->
  Wait m sched =
    match sched with
    | [] => WaitBlocks
    | RecvDc _ :: rest => WaitReturns None rest
    | RecvTo :: rest => WaitReturns (Some ErrTimeout) rest
    end.
Proof.
  intros E. unfold Wait. rewrite E, map_size_empty. simpl.
  destruct sched as [|[h|] rest]; try reflexivity.
  rewrite checkAllDone_empty by exact E. reflexivity.
Qed.

Lemma Wait_without_batches_witness :
  Wait (NewMsgBatchAllocator (Some ex_chan) 1000)
       [RecvDc ex_h0; RecvDc ex_pending_heap; RecvTo]
    = WaitReturns None [RecvDc ex_pending_heap; RecvTo] /\
  Wait (NewMsgBatchAllocator (Some ex_chan) 1000) [RecvTo; RecvDc ex_h0]
    = WaitReturns (Some ErrTimeout) [RecvDc ex_h0].
Proof.
  split.
  - apply (Wait_without_batches (NewMsgBatchAllocator (Some ex_chan) 1000)
             [RecvDc ex_h0; RecvDc ex_pending_heap; RecvTo]). reflexivity.
  - apply (Wait_without_batches (NewMsgBatchAllocator (Some ex_chan) 1000)
             [RecvTo; RecvDc ex_h0]). reflexivity.
Defined.

(** C9. After [Reset] the batch is empty ([Count] is 0 and [Msgs] has no
    element), not done, its buffer holds nothing and its parent is nil; the
    message slice (hence its length, the slots kept for reuse) and the done
    channel are the ones it had. Through a pointer, [Reset] touches only the
    batch it is called on. *)
Theorem Reset_clears_but_keeps_slots (h : heap) (l : nat) (m : MsgBatch) :
  MsgBatch_Count (MsgBatch_Reset m) = 0 /\
  MsgBatch_Msgs (MsgBatch_Reset m) = Val [] /\
  MsgBatch_IsDone (MsgBatch_Reset m) = false /\
  MsgBatch_Buffer (MsgBatch_Reset m) = [] /\
  parent (MsgBatch_Reset m) = None /\
  msgs (MsgBatch_Reset m) = msgs m /\
  length (msgs (MsgBatch_Reset m)) = length (msgs m) /\
  dc (MsgBatch_Reset m) = dc m /\
  batches (Reset h l) !! l = MsgBatch_Reset <$> batches h !! l /\
  (forall l', l' <> l -> batches (Reset h l) !! l' = batches h !! l') /\
  chans (Reset h l) = chans h.
Proof.
  repeat split.
  - unfold MsgBatch_Msgs, slice_to; simpl.
    destruct (Z.ltb_spec (Z.of_nat (length (msgs m))) 0) as [?|_]; [lia|].
    reflexivity.
  - simpl. apply lookup_alter_eq.
  - intros l' Hne. simpl. apply lookup_alter_ne. congruence.
Qed.

(** C10. On a batch that is empty and well shaped (a new one, or any batch
    after [Reset]), adding the messages [ms] one by one never panics, and
    afterwards [Count] is their number and, for every [i >= 0], [Nth i]
    returns without panic: the [i]-th message added when [i < Count], nil
    otherwise. Each single [AddMsg] writes index [count] only, which lies
    inside the slice once the slice has grown by one when it was full. *)
Theorem Nth_AddMsg_in_order (m : MsgBatch) (ms : list (option nat)) :
  MsgBatch_ok m -> count m = 0 ->
  exists m',
    AddMsgs m ms = Val m' /\
    MsgBatch_Count m' = Z.of_nat (length ms) /\
    (forall i, 0 <= i ->
       MsgBatch_Nth m' i = Val (default None (ms !! Z.to_nat i))) /\
    (forall x, exists m'',
       MsgBatch_AddMsg m' x = Val m'' /\
       msgs m'' !! Z.to_nat (count m') = Some x /\
       (Z.to_nat (count m') < length (msgs m''))%nat /\
       length (msgs m'') = Nat.max (length (msgs m')) (S (Z.to_nat (count m'))) /\
       (forall j, (j < Z.to_nat (count m'))%nat -> msgs m'' !! j = msgs m' !! j)).
Proof.
  intros Hok Hc.
  destruct (AddMsgs_ok ms m Hok) as (m' & E & Hok' & Hc' & _ & Hnew).
  exists m'. split; [exact E|]. split; [unfold MsgBatch_Count; lia|]. split.
  - intros i Hi. rewrite MsgBatch_Nth_ok by auto.
    destruct (Z.ltb_spec i (count m')) as [Hlt|Hge].
    + destruct (lookup_lt_is_Some_2 ms (Z.to_nat i)) as [y Hy]; [lia|].
      rewrite Hy. specialize (Hnew _ _ Hy). rewrite Hc in Hnew. simpl in Hnew.
      rewrite Hnew. reflexivity.
    + rewrite lookup_ge_None_2 by lia. reflexivity.
  - intros x.
    destruct (MsgBatch_AddMsg_ok m' x Hok')
      as (m'' & E'' & _ & _ & Hat & Hbelow & Hlen & _).
    exists m''. repeat split; auto. lia.
Qed.

(** A new batch, three messages (the second one a nil pointer). *)
Lemma Nth_AddMsg_in_order_witness :
  exists m',
    AddMsgs newMsgBatchValue [Some 7%nat; None; Some 9%nat] = Val m' /\
    MsgBatch_Count m' = 3 /\
    MsgBatch_Nth m' 0 = Val (Some 7%nat) /\
    MsgBatch_Nth m' 2 = Val (Some 9%nat) /\
    MsgBatch_Nth m' 3 = Val None.
Proof.
  destruct (Nth_AddMsg_in_order newMsgBatchValue [Some 7%nat; None; Some 9%nat])
    as (m' & E & Hc & Hn & _).
  - unfold MsgBatch_ok; simpl; lia.
  - reflexivity.
  - exists m'. repeat split; auto.
    + apply (Hn 0); lia.
    + apply (Hn 2); lia.
    + apply (Hn 3); lia.
Defined.

(** *** More on batches *)






Lemma MsgBatch_Msgs_AddMsg (m : MsgBatch) (x : option nat) (l : list (option nat)) :
  MsgBatch_ok m -> MsgBatch_Msgs m = Val l ->
  exists m',
    MsgBatch_AddMsg m x = Val m' /\ MsgBatch_ok m' /\
    MsgBatch_Msgs m' = Val (l ++ [x]) /\
    length (msgs m') = Nat.max (length (msgs m)) (S (length l)) /\
    buf m' = buf m /\ dc m' = dc m /\ state m' = state m /\ parent m' = parent m.
Proof.
  intros Hok HM.
  destruct (MsgBatch_AddMsg_ok m x Hok)
    as (m' & E & Hok' & Hc & Hat & Hbelow & Hlen & Hrest).
  assert (Hl : l = take (Z.to_nat (count m)) (msgs m)).
  { unfold MsgBatch_Msgs, slice_to in HM. destruct (_ || _); congruence. }
  assert (Hll : length l = Z.to_nat (count m)).
  { rewrite Hl, length_take. destruct Hok. lia. }
  exists m'. split; [exact E|]. split; [exact Hok'|]. split.
  - unfold MsgBatch_Msgs, slice_to. destruct Hok' as [H0' Hle'].
    destruct (Z.ltb_spec (count m') 0) as [?|_]; [lia|].
    destruct (Z.ltb_spec (Z.of_nat (length (msgs m'))) (count m')) as [?|_]; [lia|].
    simpl. f_equal. rewrite Hc.
    replace (Z.to_nat (count m + 1)) with (S (Z.to_nat (count m)))
      by (destruct Hok; lia).
    erewrite take_S_r by exact Hat. f_equal. rewrite Hl.
    apply list_eq. intros i.
    destruct (decide (i < Z.to_nat (count m))%nat) as [Hi|Hi].
    + rewrite !lookup_take_lt by lia. apply Hbelow. exact Hi.
    + rewrite !lookup_take_ge by lia. reflexivity.
  - rewrite Hll. split; [exact Hlen|exact Hrest].
Qed.

Lemma MsgBatch_Msgs_AddMsgs (ms : list (option nat)) :
  forall (m : MsgBatch) (l : list (option nat)),
    MsgBatch_ok m -> MsgBatch_Msgs m = Val l ->
    exists m',
      AddMsgs m ms = Val m' /\ MsgBatch_ok m' /\
      MsgBatch_Msgs m' = Val (l ++ ms) /\
      length (msgs m') = Nat.max (length (msgs m)) (length l + length ms) /\
      buf m' = buf m /\ dc m' = dc m /\ state m' = state m /\ parent m' = parent m.
Proof.
  induction ms as [|x ms IH]; intros m l Hok HM.
  - exists m. simpl. rewrite app_nil_r, Nat.add_0_r.
    assert (length l <= length (msgs m))%nat.
    { unfold MsgBatch_Msgs, slice_to in HM. destruct (_ || _); [discriminate|].
      injection HM as <-. rewrite length_take. lia. }
    split; [reflexivity|]. split; [exact Hok|]. split; [exact HM|].
    split; [lia|]. auto.
  - destruct (MsgBatch_Msgs_AddMsg m x l Hok HM)
      as (m1 & E1 & Hok1 & HM1 & Hlen1 & Hb1 & Hd1 & Hs1 & Hp1).
    destruct (IH m1 (l ++ [x]) Hok1 HM1)
      as (m' & E' & Hok' & HM' & Hlen' & Hb' & Hd' & Hs' & Hp').
    exists m'. simpl. rewrite E1. split; [exact E'|]. split; [exact Hok'|].
    split; [rewrite HM', <- app_assoc; reflexivity|].
    split; [rewrite Hlen', Hlen1, length_app; simpl; lia|].
    repeat split; congruence.
Qed.

(** X3. A batch is reusable: whatever it held, after [Reset] the messages
    added are exactly what [Msgs] returns, in the order they were added;
    the slice has grown only if there are more of them than it had slots,
    and the batch is still on its channel. *)
Theorem Msgs_after_Reset_are_the_added (m : MsgBatch) (ms : list (option nat)) :
  exists m',
    AddMsgs (MsgBatch_Reset m) ms = Val m' /\
    MsgBatch_Msgs m' = Val ms /\
    MsgBatch_Count m' = Z.of_nat (length ms) /\
    length (msgs m') = Nat.max (length (msgs m)) (length ms) /\
    dc m' = dc m /\ MsgBatch_IsDone m' = false /\ parent m' = None.
Proof.
  destruct (MsgBatch_Msgs_AddMsgs ms (MsgBatch_Reset m) [])
    as (m' & E & Hok & HM & Hlen & _ & Hd & Hs & Hp).
  - apply MsgBatch_Reset_ok.
  - unfold MsgBatch_Msgs, slice_to. simpl.
    destruct (Z.ltb_spec (Z.of_nat (length (msgs m))) 0); [lia|reflexivity].
  - exists m'. split; [exact E|]. split; [exact HM|].
    destruct (AddMsgs_ok ms (MsgBatch_Reset m) (MsgBatch_Reset_ok m))
      as (m2 & E2 & _ & Hc2 & _).
    rewrite E in E2. injection E2 as <-.
    split; [unfold MsgBatch_Count; rewrite Hc2; simpl; lia|].
    split; [exact Hlen|]. split; [exact Hd|].
    split; [unfold MsgBatch_IsDone; rewrite Hs; reflexivity|exact Hp].
Qed.

(** *** checkAllDone *)

(** X4. Where every entry of the map points at a batch, [checkAllDone]
    answers, and answers true exactly when every batch of the map that
    holds messages is done: batches with no message are not looked at. *)
Theorem checkAllDone_true_iff_nonempty_done (h : heap) (m : MsgBatchAllocator) :
  (forall node p, mbMap m !! node = Some p -> is_Some (batches h !! p)) ->
  exists b,
    checkAllDone h m = Val b /\
    (b = true <->
     forall node p mb, mbMap m !! node = Some p -> batches h !! p = Some mb ->
       0 < MsgBatch_Count mb -> MsgBatch_IsDone mb = true).
Proof.
  intros Hval. unfold checkAllDone, MsgBatchs.
  destruct (checkAllDone_loop_spec h (map_to_list (mbMap m))) as (b & Hb & Hiff).
  - intros [node p] He. apply elem_of_map_to_list in He. eapply Hval; eauto.
  - exists b. split; [exact Hb|]. rewrite Hiff. split.
    + intros Hall node p mb Hn. apply (Hall (node, p) mb).
      apply elem_of_map_to_list. exact Hn.
    + intros Hall [node p] mb He. apply elem_of_map_to_list in He.
      apply (Hall node p mb He).
Qed.

Lemma checkAllDone_true_iff_nonempty_done_witness :
  exists b,
    checkAllDone ex_pending_heap ex_alloc = Val b /\
    (b = true <->
     forall node p mb, mbMap ex_alloc !! node = Some p ->
       batches ex_pending_heap !! p = Some mb ->
       0 < MsgBatch_Count mb -> MsgBatch_IsDone mb = true).
Proof.
  apply (checkAllDone_true_iff_nonempty_done ex_pending_heap ex_alloc).
  intros node p Hn.
  assert (Hmap : mbMap ex_alloc = {[ ex_node := 0%nat ]}) by (vm_compute; reflexivity).
  rewrite Hmap in Hn. apply lookup_singleton_Some in Hn as [_ <-].
  vm_compute. eauto.
Defined.

(** X5. Go ranges over the map in no fixed order: over any ordering of the
    entries the loop of [checkAllDone] gives the same answer. *)
Theorem checkAllDone_any_order (h : heap) (m : MsgBatchAllocator)
    (l : list (string * nat)) :
  (forall node p, mbMap m !! node = Some p -> is_Some (batches h !! p)) ->
  l ≡ₚ map_to_list (mbMap m) ->
  checkAllDone_loop h l = checkAllDone h m.
Proof.
  intros Hval Hperm. unfold checkAllDone, MsgBatchs.
  assert (Hv : forall l', l' ≡ₚ map_to_list (mbMap m) ->
                 forall e, e ∈ l' -> is_Some (batches h !! e.2)).
  { intros l' Hp [node p] He. rewrite Hp in He.
    apply elem_of_map_to_list in He. eapply Hval; eauto. }
  destruct (checkAllDone_loop_spec h l (Hv l Hperm)) as (b & Hb & Hiff).
  destruct (checkAllDone_loop_spec h (map_to_list (mbMap m)) (Hv _ (reflexivity _)))
    as (b' & Hb' & Hiff').
  rewrite Hb, Hb'. f_equal.
  assert (Heq : b = true <-> b' = true).
  { rewrite Hiff, Hiff'. split; intros Hall e mb He; apply Hall.
    - rewrite Hperm. exact He.
    - rewrite <- Hperm. exact He. }
  destruct b, b'; try reflexivity.
  - symmetry. apply Heq. reflexivity.
  - apply Heq. reflexivity.
Qed.

(** *** The allocator *)

(** [AddMsg] of the allocator for each (node, message) of [pairs] in turn,
    as the dispatch of one round does. *)
Fixpoint AddMsgs_alloc (h : heap) (m : MsgBatchAllocator)
    (pairs : list (string * option nat)) : result (heap * MsgBatchAllocator) :=
  match pairs with
  | [] => Val (h, m)
  | (node, msg) :: pairs' =>
      match MsgBatchAllocator_AddMsg h m node msg with
      | Panic => Panic
      | Val (h', m') => AddMsgs_alloc h' m' pairs'
      end
  end.









(** A round over two nodes. *)
Definition ex_round : list (string * option nat) :=
  [("10.0.0.1:11211", Some 1%nat); ("10.0.0.2:11211", Some 2%nat);
   ("10.0.0.1:11211", Some 3%nat)].

Definition ex_round_state : heap * MsgBatchAllocator :=
  match AddMsgs_alloc ex_h0 (NewMsgBatchAllocator (Some ex_chan) 1000) ex_round with
  | Val hm => hm
  | Panic => (ex_h0, NewMsgBatchAllocator (Some ex_chan) 1000)
  end.

Definition ex_round_heap : heap := ex_round_state.1.
Definition ex_round_alloc : MsgBatchAllocator := ex_round_state.2.

Example ex_round_batches :
  mbMap ex_round_alloc = {[ "10.0.0.1:11211" := 0%nat; "10.0.0.2:11211" := 1%nat ]} /\
  (MsgBatch_Msgs <$> batches ex_round_heap !! 0%nat)
    = Some (Val [Some 1%nat; Some 3%nat]) /\
  (MsgBatch_Msgs <$> batches ex_round_heap !! 1%nat) = Some (Val [Some 2%nat]).
Proof. vm_compute. auto. Qed.

Lemma ex_round_valid :
  forall node p, mbMap ex_round_alloc !! node = Some p ->
    exists mb, batches ex_round_heap !! p = Some mb /\ parent mb = None.
Proof.
  intros node p Hn.
  assert (Hmap : mbMap ex_round_alloc =
                 {[ "10.0.0.1:11211" := 0%nat; "10.0.0.2:11211" := 1%nat ]})
    by (vm_compute; reflexivity).
  rewrite Hmap in Hn.
  apply lookup_insert_Some in Hn as [[_ <-]|[_ Hn]].
  - vm_compute. eauto.
  - apply lookup_singleton_Some in Hn as [_ <-]. vm_compute. eauto.
Defined.

Lemma checkAllDone_any_order_witness :
  checkAllDone_loop ex_round_heap (reverse (map_to_list (mbMap ex_round_alloc)))
    = checkAllDone ex_round_heap ex_round_alloc.
Proof.
  apply (checkAllDone_any_order ex_round_heap ex_round_alloc).
  - intros node p Hn. destruct (ex_round_valid node p Hn) as (mb & -> & _). eauto.
  - apply reverse_Permutation.
Defined.

(** *** Done on every batch, then Wait *)

(** [Done] on each batch of [ls] in turn. *)
Fixpoint Done_each (fuel : nat) (h : heap) (ls : list nat) : option heap :=
  match ls with
  | [] => Some h
  | l :: ls' =>
      match Done fuel h l with
      | None => None
      | Some h1 => Done_each fuel h1 ls'
      end
  end.

Lemma Done_root (fuel : nat) (h : heap) (l : nat) (mb : MsgBatch) :
  batches h !! l = Some mb -> parent mb = None -> (1 <= fuel)%nat ->
  Done fuel h l =
    Some {| batches := <[l := set_state msgBatchStateDone mb]> (batches h);
            chans := try_send (dc mb) (chans h) |}.
Proof.
  intros Hl Hp Hf. apply (Done_step _ _ _ _ _ _ Hl); [|exact Hl].
  destruct fuel as [|fuel]; [lia|]. simpl. rewrite Hl, Hp. reflexivity.
Qed.

Lemma Done_each_roots (fuel : nat) (ls : list nat) :
  (1 <= fuel)%nat ->
  forall h,
    (forall l, l ∈ ls -> exists mb, batches h !! l = Some mb /\ parent mb = None) ->
    exists h',
      Done_each fuel h ls = Some h' /\
      (forall l, l ∈ ls ->
         exists mb, batches h' !! l = Some mb /\ state mb = msgBatchStateDone) /\
      (forall l mb, batches h !! l = Some mb ->
         exists mb', batches h' !! l = Some mb' /\
                     parent mb' = parent mb /\ count mb' = count mb /\
                     msgs mb' = msgs mb /\
                     (state mb = msgBatchStateDone -> state mb' = msgBatchStateDone)).
Proof.
  intros Hf. induction ls as [|l ls IH]; intros h Hroots.
  - exists h. split; [reflexivity|]. split.
    + intros l Hl. apply elem_of_nil in Hl. contradiction.
    + intros l mb Hl. exists mb. auto.
  - destruct (Hroots l) as (mb & Hl & Hp); [left|].
    cbn [Done_each]. rewrite (Done_root _ _ _ _ Hl Hp Hf).
    set (h1 := {| batches := <[l := set_state msgBatchStateDone mb]> (batches h);
                  chans := try_send (dc mb) (chans h) |}).
    assert (Hstep : forall q bq, batches h !! q = Some bq ->
              exists bq', batches h1 !! q = Some bq' /\
                          parent bq' = parent bq /\ count bq' = count bq /\
                          msgs bq' = msgs bq /\
                          (state bq = msgBatchStateDone ->
                           state bq' = msgBatchStateDone)).
    { intros q bq Hq. cbn [h1 batches]. destruct (decide (l = q)) as [<-|Hne].
      - rewrite lookup_insert_eq. eexists. split; [reflexivity|].
        assert (bq = mb) as -> by congruence. simpl. auto.
      - rewrite lookup_insert_ne by assumption. exists bq. auto. }
    destruct (IH h1) as (h' & E & Hdone & Hframe).
    { intros q Hq. destruct (Hroots q) as (bq & Hbq & Hpq); [right; exact Hq|].
      destruct (Hstep q bq Hbq) as (bq' & ? & ? & _). exists bq'.
      split; [assumption|congruence]. }
    exists h'. split; [exact E|]. split.
    + intros q Hq. apply elem_of_cons in Hq as [->|Hq]; [|apply Hdone, Hq].
      destruct (Hframe l (set_state msgBatchStateDone mb)) as (mb' & ? & _ & _ & _ & Hst).
      { cbn [h1 batches]. apply lookup_insert_eq. }
      exists mb'. split; [assumption|]. apply Hst. reflexivity.
    + intros q bq Hq. destruct (Hstep q bq Hq) as (bq1 & Hq1 & Hp1 & Hc1 & Hm1 & Hs1).
      destruct (Hframe q bq1 Hq1) as (bq' & Hq' & Hp' & Hc' & Hm' & Hs').
      exists bq'. split; [exact Hq'|]. repeat split; try congruence. auto.
Qed.

(** X7. Once [Done] has been called on every batch of the allocator's map
    (root batches, as the allocator makes them; in any order, other root
    batches included), the next signal ends [Wait] with nil, whatever the
    number of batches, and the wakeups after it are left alone. *)
Theorem Wait_returns_nil_after_all_Done (h : heap) (m : MsgBatchAllocator)
    (fuel : nat) (ls : list nat) (rest : list wakeup) :
  (1 <= fuel)%nat ->
  (forall node l, mbMap m !! node = Some l -> l ∈ ls) ->
  (forall l, l ∈ ls -> exists mb, batches h !! l = Some mb /\ parent mb = None) ->
  exists h',
    Done_each fuel h ls = Some h' /\
    checkAllDone h' m = Val true /\
    Wait m (RecvDc h' :: rest) = WaitReturns None rest.
Proof.
  intros Hf Hcover Hroots.
  destruct (Done_each_roots fuel ls Hf h Hroots) as (h' & E & Hdone & _).
  exists h'. split; [exact E|].
  assert (Hc : checkAllDone h' m = Val true).
  { unfold checkAllDone, MsgBatchs.
    destruct (checkAllDone_loop_spec h' (map_to_list (mbMap m))) as (b & Hb & Hiff).
    - intros [node p] He. apply elem_of_map_to_list in He. cbn [snd].
      destruct (Hdone p (Hcover _ _ He)) as (mb & -> & _). eauto.
    - rewrite Hb. f_equal. apply Hiff. intros [node p] mb He Hmb _.
      apply elem_of_map_to_list in He.
      destruct (Hdone p (Hcover _ _ He)) as (mb' & Hmb' & Hst).
      simpl in Hmb. assert (mb' = mb) as -> by congruence.
      unfold MsgBatch_IsDone. rewrite Hst. reflexivity. }
  split; [exact Hc|]. unfold Wait.
  destruct (size (mbMap m) =? 0)%nat.
  - rewrite Hc. reflexivity.
  - replace (size (mbMap m) + maxRetryTimes)%nat
      with (S (size (mbMap m) + 7)) by (unfold maxRetryTimes; lia).
    cbn [Wait_loop]. rewrite Hc. reflexivity.
Qed.

Lemma Wait_returns_nil_after_all_Done_witness :
  exists h',
    Done_each 1 ex_round_heap [1%nat; 0%nat] = Some h' /\
    checkAllDone h' ex_round_alloc = Val true /\
    Wait ex_round_alloc [RecvDc h'; RecvTo] = WaitReturns None [RecvTo].
Proof.
  apply (Wait_returns_nil_after_all_Done ex_round_heap ex_round_alloc 1
           [1%nat; 0%nat] [RecvTo]).
  - lia.
  - intros node l Hn.
    assert (Hmap : mbMap ex_round_alloc =
                   {[ "10.0.0.1:11211" := 0%nat; "10.0.0.2:11211" := 1%nat ]})
      by (vm_compute; reflexivity).
    rewrite Hmap in Hn.
    apply lookup_insert_Some in Hn as [[_ <-]|[_ Hn]]; [set_solver|].
    apply lookup_singleton_Some in Hn as [_ <-]. set_solver.
  - intros l Hl. apply elem_of_cons in Hl as [->|Hl]; [vm_compute; eauto|].
    apply list_elem_of_singleton in Hl as ->. vm_compute; eauto.
Defined.

(** *** Reset of the allocator *)

Lemma MsgBatch_Reset_idem (b : MsgBatch) :
  MsgBatch_Reset (MsgBatch_Reset b) = MsgBatch_Reset b.
Proof. reflexivity. Qed.

Lemma Reset_loop_spec (l : list (string * nat)) :
  forall h,
    (forall e, e ∈ l -> is_Some (batches h !! e.2)) ->
    exists h',
      Reset_loop h l = Val h' /\ chans h' = chans h /\
      forall p,
        batches h' !! p =
          if decide (p ∈ l.*2) then MsgBatch_Reset <$> batches h !! p
          else batches h !! p.
Proof.
  induction l as [|[node q] l IH]; intros h Hval.
  - exists h. split; [reflexivity|]. split; [reflexivity|].
    intros p. destruct (decide (p ∈ ([] : list (string * nat)).*2)) as [Hin|_];
      [|reflexivity].
    simpl in Hin. apply elem_of_nil in Hin. contradiction.
  - destruct (Hval (node, q)) as [bq Hq]; [left|]. simpl in Hq.
    cbn [Reset_loop]. rewrite Hq.
    destruct (IH (Reset h q)) as (h' & E & Hc & Hb).
    { intros e He. cbn [Reset batches].
      destruct (Hval e) as [be Hbe]; [right; exact He|].
      destruct (decide (q = e.2)) as [Heq|Hne].
      - rewrite <- Heq, lookup_alter_eq, Hq. simpl. eauto.
      - rewrite lookup_alter_ne by assumption. eauto. }
    exists h'. split; [exact E|]. split; [exact Hc|].
    intros p. rewrite Hb. cbn [Reset batches fmap list_fmap snd].
    destruct (decide (q = p)) as [<-|Hne].
    + rewrite lookup_alter_eq.
      destruct (decide (q ∈ q :: l.*2)) as [_|Hn]; [|exfalso; apply Hn; left].
      destruct (decide (q ∈ l.*2)); [|reflexivity].
      destruct (batches h !! q); reflexivity.
    + rewrite lookup_alter_ne by assumption.
      destruct (decide (p ∈ l.*2)) as [Hin|Hnin].
      * destruct (decide (p ∈ q :: l.*2)) as [_|Hn]; [reflexivity|].
        exfalso; apply Hn; right; exact Hin.
      * destruct (decide (p ∈ q :: l.*2)) as [Hin'|_]; [|reflexivity].
        apply elem_of_cons in Hin' as [->|?]; [congruence|contradiction].
Qed.

(** X8. Where every entry of the map points at a batch, the allocator's
    [Reset] resets each batch of the map and touches neither another batch
    nor a channel. The map itself keeps its entries; every batch of it is
    empty afterwards, so [checkAllDone] answers true. *)
Theorem MsgBatchAllocator_Reset_empties_batches (h : heap) (m : MsgBatchAllocator) :
  (forall node l, mbMap m !! node = Some l -> is_Some (batches h !! l)) ->
  exists h',
    MsgBatchAllocator_Reset h m = Val h' /\
    (forall node l, mbMap m !! node = Some l ->
       batches h' !! l = MsgBatch_Reset <$> batches h !! l) /\
    (forall l, (forall node, mbMap m !! node <> Some l) ->
       batches h' !! l = batches h !! l) /\
    chans h' = chans h /\
    checkAllDone h' m = Val true.
Proof.
  intros Hval. unfold MsgBatchAllocator_Reset, MsgBatchs.
  destruct (Reset_loop_spec (map_to_list (mbMap m)) h) as (h' & E & Hc & Hb).
  { intros [node p] He. apply elem_of_map_to_list in He. eapply Hval; eauto. }
  assert (Hin : forall l, l ∈ (map_to_list (mbMap m)).*2 <->
                          exists node, mbMap m !! node = Some l).
  { intros l. rewrite list_elem_of_fmap. split.
    - intros ([node p] & -> & He). apply elem_of_map_to_list in He. eauto.
    - intros (node & Hn). exists (node, l). split; [reflexivity|].
      apply elem_of_map_to_list. exact Hn. }
  exists h'. split; [exact E|].
  assert (H1 : forall node l, mbMap m !! node = Some l ->
                 batches h' !! l = MsgBatch_Reset <$> batches h !! l).
  { intros node l Hn. rewrite Hb.
    destruct (decide _) as [_|Hn']; [reflexivity|].
    exfalso. apply Hn', Hin. eauto. }
  split; [exact H1|]. split.
  - intros l Hnot. rewrite Hb. destruct (decide _) as [Hi|_]; [|reflexivity].
    apply Hin in Hi as (node & Hn). exfalso. exact (Hnot node Hn).
  - split; [exact Hc|]. unfold checkAllDone, MsgBatchs.
    destruct (checkAllDone_loop_spec h' (map_to_list (mbMap m))) as (b & Hbb & Hiff).
    + intros [node p] He. apply elem_of_map_to_list in He. cbn [snd].
      rewrite (H1 _ _ He). destruct (Hval _ _ He) as [mb ->]. simpl. eauto.
    + rewrite Hbb. f_equal. apply Hiff. intros [node p] mb He Hmb Hpos.
      apply elem_of_map_to_list in He. simpl in Hmb.
      rewrite (H1 _ _ He) in Hmb. destruct (Hval _ _ He) as [mb0 Hmb0].
      rewrite Hmb0 in Hmb. simpl in Hmb. injection Hmb as <-.
      unfold MsgBatch_Count in Hpos. simpl in Hpos. lia.
Qed.

Lemma MsgBatchAllocator_Reset_empties_batches_witness :
  exists h',
    MsgBatchAllocator_Reset ex_round_heap ex_round_alloc = Val h' /\
    (forall node l, mbMap ex_round_alloc !! node = Some l ->
       batches h' !! l = MsgBatch_Reset <$> batches ex_round_heap !! l) /\
    (forall l, (forall node, mbMap ex_round_alloc !! node <> Some l) ->
       batches h' !! l = batches ex_round_heap !! l) /\
    chans h' = chans ex_round_heap /\
    checkAllDone h' ex_round_alloc = Val true.
Proof.
  apply (MsgBatchAllocator_Reset_empties_batches ex_round_heap ex_round_alloc).
  intros node p Hn. destruct (ex_round_valid node p Hn) as (mb & -> & _). eauto.
Defined.

(** *** NewMsgBatchSlice *)




End BatchProps.

(** ** Properties of proto/redis/request.go *)
Module RedisProps.
Import Redis.

(** A request as the parser leaves it for the command [c] alone: an array
    of one bulk string whose payload is [c]. *)
Definition request_of (c : bytes) : Request :=
  {| req_resp := mkResp respArray [] [mkResp respBulk c [] 0] 1;
     reply := None;
     mType := mergeTypeNo |}.

Definition supported (d : bytes) : bool :=
  bytes_Contains reqReadCmdsBytes d ||
  bytes_Contains reqWriteCmdsBytes d ||
  bytes_Contains reqCtlCmdsBytes d.

Lemma IsSupport_supported (r : Request) (c : resp) :
  1 <= arrayn (req_resp r) -> array (req_resp r) !! 0%nat = Some c ->
  IsSupport r = Val (supported (data c)).
Proof.
  intros Hn Hc. unfold IsSupport, index.
  destruct (Z.ltb_spec (arrayn (req_resp r)) 1) as [?|_]; [lia|].
  change (0 <? 0) with false. change (Z.to_nat 0) with 0%nat. cbv iota.
  rewrite Hc. reflexivity.
Qed.

Lemma blacklist_unsupported :
  forallb (fun d => negb (supported d)) reqNotSupportCmds = true.
Proof. vm_compute. reflexivity. Qed.

Lemma tables_supported :
  forallb supported (reqReadCmds ++ reqWriteCmds ++ reqCtlCmds) = true.
Proof. vm_compute. reflexivity. Qed.

(** The commands the specification names. *)
Definition named_unsupported : list bytes :=
  [ lit "4" "KEYS"; lit "4" "SCAN"; lit "4" "EVAL"; lit "7" "MIGRATE";
    lit "6" "RENAME"; lit "5" "BLPOP"; lit "4" "AUTH"; lit "4" "INFO";
    lit "6" "SELECT"; lit "6" "MSETNX"; lit "10" "SDIFFSTORE";
    lit "11" "SINTERSTORE"; lit "11" "SUNIONSTORE"; lit "11" "ZUNIONSTORE" ].

Definition named_supported : list bytes :=
  [ lit "3" "GET"; lit "3" "SET"; lit "3" "DEL"; lit "6" "EXISTS";
    lit "4" "MGET"; lit "4" "MSET"; lit "4" "PING"; lit "4" "QUIT" ].

Definition mem (d : bytes) (l : list bytes) : bool := existsb (bytes_Equal d) l.

(** C7. For a request with at least one element whose first element carries
    the payload [d]: [IsSupport] is false when [d] is one of the literals of
    the not-supported table, and true when [d] is one of the literals of the
    read, write or control tables. The commands the specification names are
    literals of those tables: KEYS, SCAN, EVAL, MIGRATE, RENAME, BLPOP, AUTH,
    INFO, SELECT, MSETNX, SDIFFSTORE, SINTERSTORE, SUNIONSTORE and
    ZUNIONSTORE of the first, GET, SET, DEL, EXISTS, MGET, MSET, PING and
    QUIT of the others. *)
Theorem IsSupport_by_table (r : Request) (c : resp) :
  1 <= arrayn (req_resp r) -> array (req_resp r) !! 0%nat = Some c ->
  (data c ∈ reqNotSupportCmds -> IsSupport r = Val false) /\
  (data c ∈ reqReadCmds ++ reqWriteCmds ++ reqCtlCmds -> IsSupport r = Val true) /\
  forallb (fun d => mem d reqNotSupportCmds) named_unsupported = true /\
  forallb (fun d => mem d (reqReadCmds ++ reqWriteCmds ++ reqCtlCmds))
    named_supported = true.
Proof.
  intros Hn Hc. rewrite (IsSupport_supported r c Hn Hc). repeat split.
  - intros Hin. apply list_elem_of_In in Hin.
    pose proof (proj1 (forallb_forall _ _) blacklist_unsupported _ Hin) as H.
    apply negb_true_iff in H. rewrite H. reflexivity.
  - intros Hin. apply list_elem_of_In in Hin.
    rewrite (proj1 (forallb_forall _ _) tables_supported _ Hin). reflexivity.
Qed.

Lemma IsSupport_by_table_witness :
  IsSupport (request_of (lit "4" "KEYS")) = Val false /\
  IsSupport (request_of (lit "11" "SUNIONSTORE")) = Val false /\
  IsSupport (request_of (lit "4" "MGET")) = Val true /\
  IsSupport (request_of (lit "4" "PING")) = Val true.
Proof.
  split; [|split; [|split]].
  - apply (IsSupport_by_table (request_of (lit "4" "KEYS"))
             (mkResp respBulk (lit "4" "KEYS") [] 0)); [simpl; lia|reflexivity|].
    apply list_elem_of_In. vm_compute. tauto.
  - apply (IsSupport_by_table (request_of (lit "11" "SUNIONSTORE"))
             (mkResp respBulk (lit "11" "SUNIONSTORE") [] 0));
      [simpl; lia|reflexivity|].
    apply list_elem_of_In. vm_compute. tauto.
  - apply (IsSupport_by_table (request_of (lit "4" "MGET"))
             (mkResp respBulk (lit "4" "MGET") [] 0)); [simpl; lia|reflexivity|].
    apply list_elem_of_In. vm_compute. tauto.
  - apply (IsSupport_by_table (request_of (lit "4" "PING"))
             (mkResp respBulk (lit "4" "PING") [] 0)); [simpl; lia|reflexivity|].
    apply list_elem_of_In. vm_compute. tauto.
Defined.

(** The payload is the length line followed by the command name. *)
Example Cmd_of_payload : Cmd (request_of (lit "4" "KEYS")) = Val (B "KEYS").
Proof. vm_compute. reflexivity. Qed.

(** Not every STORE command is rejected: ZINTERSTORE is a literal of the
    write table. The empty payload is contained in every table. *)
Example IsSupport_ZINTERSTORE :
  IsSupport (request_of (lit "11" "ZINTERSTORE")) = Val true /\
  IsSupport (request_of []) = Val true.
Proof. vm_compute. auto. Qed.

(** *** Substring search *)

Lemma bytes_HasPrefix_spec (s p : bytes) :
  bytes_HasPrefix s p = true <-> exists post, s = p ++ post.
Proof.
  revert s. induction p as [|x p IH]; intros s.
  - split; [intros _; exists s; reflexivity|intros _; destruct s; reflexivity].
  - destruct s as [|y s]; simpl.
    + split; [discriminate|intros (post & H); discriminate].
    + rewrite andb_true_iff, IH. unfold byte_eqb. rewrite Ascii.eqb_eq. split.
      * intros [-> (post & ->)]. exists post. reflexivity.
      * intros (post & [= -> ->]). eauto.
Qed.

Lemma bytes_Contains_spec (b s : bytes) :
  bytes_Contains b s = true <-> exists pre post, b = pre ++ s ++ post.
Proof.
  induction b as [|y b IH]; cbn [bytes_Contains].
  - rewrite orb_false_r, bytes_HasPrefix_spec. split.
    + intros (post & H). exists [], post. exact H.
    + intros (pre & post & H). symmetry in H.
      apply app_eq_nil in H as [-> H]. apply app_eq_nil in H as [-> ->].
      exists []. reflexivity.
  - rewrite orb_true_iff, IH, bytes_HasPrefix_spec. split.
    + intros [(post & H)|(pre & post & ->)].
      * exists [], post. exact H.
      * exists (y :: pre), post. reflexivity.
    + intros (pre & post & H). destruct pre as [|z pre].
      * left. exists post. exact H.
      * right. injection H as -> ->. eauto.
Qed.

Lemma contains_one_of_three (A B C d : bytes) :
  bytes_Contains A d || bytes_Contains B d || bytes_Contains C d = true <->
  exists blob pre post, blob ∈ [A; B; C] /\ blob = pre ++ d ++ post.
Proof.
  rewrite !orb_true_iff, !bytes_Contains_spec. split.
  - intros [[(pre & post & H)|(pre & post & H)]|(pre & post & H)];
      eexists _, pre, post; (split; [|exact H]); set_solver.
  - intros (blob & pre & post & Hin & H).
    repeat (apply elem_of_cons in Hin as [->|Hin]); eauto.
    apply elem_of_nil in Hin. contradiction.
Qed.

(** X10. [IsSupport] probes the tables by substring search: for a request
    with at least one element it answers true exactly when the payload of
    the first element is a contiguous piece of the read, the write or the
    control table, and false otherwise. The empty payload is such a piece,
    and so is any part of a literal. *)
Theorem IsSupport_iff_piece_of_a_table (r : Request) (c : resp) :
  1 <= arrayn (req_resp r) -> array (req_resp r) !! 0%nat = Some c ->
  (IsSupport r = Val true <->
   exists blob pre post,
     blob ∈ [reqReadCmdsBytes; reqWriteCmdsBytes; reqCtlCmdsBytes] /\
     blob = pre ++ data c ++ post) /\
  (IsSupport r = Val true \/ IsSupport r = Val false).
Proof.
  intros Hn Hc. rewrite (IsSupport_supported r c Hn Hc). split.
  - rewrite <- contains_one_of_three. unfold supported.
    split; [intros H; congruence|intros ->; reflexivity].
  - destruct (supported (data c)); auto.
Qed.

Lemma IsSupport_iff_piece_of_a_table_witness :
  IsSupport (request_of (B "GETBIT")) = Val true.
Proof.
  apply (IsSupport_iff_piece_of_a_table (request_of (B "GETBIT"))
           (mkResp respBulk (B "GETBIT") [] 0)); [simpl; lia|reflexivity|].
  exists reqReadCmdsBytes.
  exists (concat (take 8 reqReadCmds) ++ B "6" ++ crlfBytes),
         (concat (drop 9 reqReadCmds)).
  split; [set_solver|]. vm_compute. reflexivity.
Defined.

(** *** Cmd and Key *)

Definition CR : ascii := "013"%char.

Lemma bytes_Index_after_prefix (pre rest : bytes) :
  CR ∉ pre -> bytes_Index (pre ++ crlfBytes ++ rest) crlfBytes = Z.of_nat (length pre).
Proof.
  induction pre as [|c pre IH]; intros Hcr.
  - destruct rest; reflexivity.
  - assert (Hc : c <> CR) by (intros ->; apply Hcr; left).
    assert (Hpre : CR ∉ pre) by (intros H; apply Hcr; right; exact H).
    cbn [app bytes_Index]. specialize (IH Hpre).
    assert (Hp : bytes_HasPrefix (c :: pre ++ crlfBytes ++ rest) crlfBytes = false).
    { unfold crlfBytes. cbn [bytes_HasPrefix]. unfold byte_eqb.
      fold CR. destruct (Ascii.eqb_spec CR c) as [E|_];
        [congruence|reflexivity]. }
    rewrite Hp, IH. destruct (Z.ltb_spec (Z.of_nat (length pre)) 0); simpl length; lia.
Qed.

Lemma bytes_Index_absent (s sep : bytes) :
  bytes_Contains s sep = false -> bytes_Index s sep = -1.
Proof.
  induction s as [|c s IH]; cbn [bytes_Contains bytes_Index]; intros H;
    apply orb_false_iff in H as [Hp Hc]; rewrite Hp; [reflexivity|].
  rewrite (IH Hc). reflexivity.
Qed.

Lemma slice_from_app {A} (pre rest : list A) :
  slice_from (pre ++ rest) (Z.of_nat (length pre)) = Val rest.
Proof.
  unfold slice_from. rewrite length_app.
  destruct (Z.ltb_spec (Z.of_nat (length pre)) 0) as [?|_]; [lia|].
  destruct (Z.ltb_spec (Z.of_nat (length pre + length rest)) (Z.of_nat (length pre)))
    as [?|_]; [lia|].
  simpl. rewrite Nat2Z.id, drop_app_length. reflexivity.
Qed.

(** The slice behind the first [\r\n] of a payload whose length line holds
    no carriage return. *)
Lemma slice_after_length_line (pre name : bytes) :
  CR ∉ pre ->
  slice_from (pre ++ crlfBytes ++ name)
    (bytes_Index (pre ++ crlfBytes ++ name) crlfBytes + 2) = Val name.
Proof.
  intros Hcr. rewrite bytes_Index_after_prefix by exact Hcr.
  replace (pre ++ crlfBytes ++ name) with ((pre ++ crlfBytes) ++ name)
    by (rewrite <- app_assoc; reflexivity).
  replace (Z.of_nat (length pre) + 2) with (Z.of_nat (length (pre ++ crlfBytes)))
    by (rewrite length_app; simpl; lia).
  apply slice_from_app.
Qed.



(** X12. [Cmd] on a bulk string whose payload holds no [\r\n]: the search
    gives -1, so the slice starts at index 1: [Cmd] panics on the empty
    payload and otherwise returns the payload without its first byte. *)
Theorem Cmd_without_CRLF_drops_a_byte (r : Request) (c : resp) :
  1 <= arrayn (req_resp r) -> array (req_resp r) !! 0%nat = Some c ->
  rTp c = respBulk -> bytes_Contains (data c) crlfBytes = false ->
  Cmd r = match data c with
          | [] => Panic
          | _ :: d => Val d
          end.
Proof.
  intros Hn Hc Ht Hno. unfold Cmd, index.
  change (0 <? 0) with false. change (Z.to_nat 0) with 0%nat. cbv iota.
  rewrite Hc. destruct (Z.ltb_spec (arrayn (req_resp r)) 1); [lia|].
  rewrite Ht. cbn [respType_eqb]. rewrite (bytes_Index_absent _ _ Hno).
  change (-1 + 2) with 1. unfold slice_from.
  destruct (data c) as [|x d]; [reflexivity|].
  change (1 <? 0) with false.
  destruct (Z.ltb_spec (Z.of_nat (length (x :: d))) 1) as [H1|_];
    [simpl length in H1; lia|].
  reflexivity.
Qed.

Lemma Cmd_without_CRLF_drops_a_byte_witness :
  Cmd (request_of (B "PING")) = Val (B "ING") /\
  Cmd (request_of []) = Panic.
Proof.
  split.
  - apply (Cmd_without_CRLF_drops_a_byte (request_of (B "PING"))
             (mkResp respBulk (B "PING") [] 0));
      [simpl; lia|reflexivity|reflexivity|reflexivity].
  - apply (Cmd_without_CRLF_drops_a_byte (request_of [])
             (mkResp respBulk [] [] 0));
      [simpl; lia|reflexivity|reflexivity|reflexivity].
Defined.

(** X13. [Key]: with two elements or more it is the second element, its
    length line stripped when it is a bulk string; with one element it is
    the payload of that element as it is, length line included; with none
    the empty slice. *)
Theorem Key_is_second_element_or_raw_first (r : Request) :
  (arrayn (req_resp r) < 1 -> Key r = Val []) /\
  (forall c, arrayn (req_resp r) = 1 -> array (req_resp r) !! 0%nat = Some c ->
     Key r = Val (data c)) /\
  (forall k pre key,
     2 <= arrayn (req_resp r) -> array (req_resp r) !! 1%nat = Some k ->
     rTp k = respBulk -> data k = pre ++ crlfBytes ++ key -> CR ∉ pre ->
     Key r = Val key) /\
  (forall k,
     2 <= arrayn (req_resp r) -> array (req_resp r) !! 1%nat = Some k ->
     rTp k <> respBulk -> Key r = Val (data k)).
Proof.
  unfold Key, index.
  change (0 <? 0) with false. change (Z.to_nat 0) with 0%nat.
  change (1 <? 0) with false. change (Z.to_nat 1) with 1%nat. cbv iota.
  split; [|split; [|split]].
  - intros Hn. destruct (Z.ltb_spec (arrayn (req_resp r)) 1); [reflexivity|lia].
  - intros c Hn Hc. rewrite Hn, Hc. reflexivity.
  - intros k pre key Hn Hk Ht Hd Hcr.
    destruct (Z.ltb_spec (arrayn (req_resp r)) 1); [lia|].
    destruct (Z.eqb_spec (arrayn (req_resp r)) 1); [lia|].
    rewrite Hk, Ht, Hd. cbn [respType_eqb].
    rewrite bytes_Index_after_prefix by exact Hcr.
    replace (pre ++ crlfBytes ++ key) with ((pre ++ crlfBytes) ++ key)
      by (rewrite <- app_assoc; reflexivity).
    replace (Z.of_nat (length pre) + 2) with (Z.of_nat (length (pre ++ crlfBytes)))
      by (rewrite length_app; simpl; lia).
    apply slice_from_app.
  - intros k Hn Hk Ht.
    destruct (Z.ltb_spec (arrayn (req_resp r)) 1); [lia|].
    destruct (Z.eqb_spec (arrayn (req_resp r)) 1); [lia|].
    rewrite Hk.
    destruct (rTp k); try congruence; simpl; unfold slice_from; simpl;
      destruct (Z.ltb_spec (Z.of_nat (length (data k))) 0); try lia; reflexivity.
Qed.

(** X14. Whatever [IsCtl] accepts, [IsSupport] accepts; the two panic on
    the same requests (an element count of one or more with no element),
    and both answer false on a request with no element. *)
Theorem IsCtl_implies_IsSupport (r : Request) :
  (IsCtl r = Val true -> IsSupport r = Val true) /\
  (IsCtl r = Panic <-> IsSupport r = Panic) /\
  (arrayn (req_resp r) < 1 -> IsCtl r = Val false /\ IsSupport r = Val false).
Proof.
  unfold IsCtl, IsSupport.
  destruct (Z.ltb_spec (arrayn (req_resp r)) 1) as [Hlt|Hge].
  - split; [discriminate|]. split; [split; discriminate|auto].
  - destruct (index (array (req_resp r)) 0) as [c|].
    + set (a := bytes_Contains reqReadCmdsBytes (data c)).
      set (b := bytes_Contains reqWriteCmdsBytes (data c)).
      set (d := bytes_Contains reqCtlCmdsBytes (data c)).
      clearbody a b d.
      split; [|split; [split; discriminate|lia]].
      intros [= ->]. rewrite orb_true_r. reflexivity.
    + split; [discriminate|]. split; [tauto|lia].
Qed.

Lemma Key_is_second_element_or_raw_first_witness :
  Key (request_of (lit "4" "PING")) = Val (lit "4" "PING") /\
  Key {| req_resp := mkResp respArray []
           [mkResp respBulk (lit "3" "GET") [] 0;
            mkResp respBulk (lit "1" "a") [] 0] 2;
         reply := None; mType := mergeTypeNo |} = Val (B "a").
Proof.
  split.
  - apply (proj1 (proj2 (Key_is_second_element_or_raw_first
                           (request_of (lit "4" "PING"))))
             (mkResp respBulk (lit "4" "PING") [] 0));
      reflexivity.
  - apply (proj1 (proj2 (proj2 (Key_is_second_element_or_raw_first
             {| req_resp := mkResp respArray []
                  [mkResp respBulk (lit "3" "GET") [] 0;
                   mkResp respBulk (lit "1" "a") [] 0] 2;
                reply := None; mType := mergeTypeNo |}))))
      with (k := mkResp respBulk (lit "1" "a") [] 0) (pre := B "1");
      [simpl; lia|reflexivity|reflexivity|reflexivity|].
    intros H. apply list_elem_of_singleton in H. discriminate.
Defined.

Lemma IsCtl_implies_IsSupport_witness :
  IsSupport (request_of (lit "4" "QUIT")) = Val true.
Proof.
  apply (proj1 (IsCtl_implies_IsSupport (request_of (lit "4" "QUIT")))).
  vm_compute. reflexivity.
Defined.

(** *** The tables and the RESP encoding *)

(** The length line of a bulk string of [n] bytes. *)
Definition length_line (n : nat) : bytes :=
  B (DecimalString.NilZero.string_of_uint (Nat.to_uint n)).

Definition name_of (d : bytes) : bytes :=
  drop (Z.to_nat (bytes_Index d crlfBytes + 2)) d.

Definition bulk_payload (d : bytes) : bool :=
  let name := name_of d in
  bytes_Equal d (length_line (length name) ++ crlfBytes ++ name) &&
  negb (bytes_Equal name []) &&
  forallb (fun c => negb (byte_eqb c CR)) (length_line (length name)).

Lemma tables_bulk_payloads :
  forallb bulk_payload
    (reqReadCmds ++ reqWriteCmds ++ reqNotSupportCmds ++ reqCtlCmds) = true.
Proof. vm_compute. reflexivity. Qed.

(** X15. Every literal of the four command tables is the payload of a
    well-formed bulk string: the decimal length of a command name that is
    not empty, [\r\n], and the name. On a request that carries such a
    literal [Cmd] returns that name. *)
Theorem table_literals_are_bulk_payloads (d : bytes) :
  d ∈ reqReadCmds ++ reqWriteCmds ++ reqNotSupportCmds ++ reqCtlCmds ->
  exists name,
    name <> [] /\
    d = length_line (length name) ++ crlfBytes ++ name /\
    Cmd (request_of d) = Val name.
Proof.
  intros Hin. apply list_elem_of_In in Hin.
  pose proof (proj1 (forallb_forall _ _) tables_bulk_payloads _ Hin) as H.
  unfold bulk_payload in H.
  apply andb_true_iff in H as [H Hcr]. apply andb_true_iff in H as [Heq Hne].
  apply bytes_Equal_spec in Heq.
  exists (name_of d). split; [|split].
  - intros E. rewrite E in Hne. discriminate.
  - exact Heq.
  - unfold Cmd, request_of, index. cbn [req_resp arrayn array rTp data].
    change (1 <? 1) with false. change (0 <? 0) with false.
    change (Z.to_nat 0) with 0%nat. cbn [lookup list_lookup respType_eqb rTp data].
    rewrite Heq at 1 2. apply slice_after_length_line.
    intros Hc. apply list_elem_of_In in Hc.
    pose proof (proj1 (forallb_forall _ _) Hcr _ Hc) as Hx.
    unfold byte_eqb in Hx. rewrite Ascii.eqb_refl in Hx. discriminate.
Qed.

Lemma table_literals_are_bulk_payloads_witness :
  exists name,
    name <> [] /\
    lit "11" "ZINTERSTORE" = length_line (length name) ++ crlfBytes ++ name /\
    Cmd (request_of (lit "11" "ZINTERSTORE")) = Val name.
Proof.
  apply (table_literals_are_bulk_payloads (lit "11" "ZINTERSTORE")).
  apply list_elem_of_In. vm_compute. tauto.
Defined.

(** *** AsSlowlog *)

Lemma index_lookup {A} (l : list A) (i : nat) (x : A) :
  l !! i = Some x -> index l (Z.of_nat i) = Val x.
Proof.
  intros H. unfold index.
  destruct (Z.ltb_spec (Z.of_nat i) 0) as [?|_]; [lia|].
  rewrite Nat2Z.id, H. reflexivity.
Qed.

Lemma index_negative {A} (l : list A) (i : Z) : i < 0 -> index l i = Panic.
Proof.
  intros H. unfold index. destruct (Z.ltb_spec i 0); [reflexivity|lia].
Qed.

Lemma AsSlowlog_loop_spec (arr : list resp) (n i : nat) (sb : bytes) :
  (i + n <= length arr)%nat ->
  AsSlowlog_loop arr (Z.of_nat i) n sb =
  Val (sb ++ concat (map (fun e => data e ++ [blankByte]) (take n (drop i arr)))).
Proof.
  revert i sb. induction n as [|n IH]; intros i sb Hlen.
  - cbn [AsSlowlog_loop take map concat]. rewrite app_nil_r. reflexivity.
  - cbn [AsSlowlog_loop].
    destruct (lookup_lt_is_Some_2 arr i ltac:(lia)) as [e He].
    rewrite (index_lookup _ _ _ He).
    replace (Z.of_nat i + 1) with (Z.of_nat (S i)) by lia.
    rewrite IH by lia.
    rewrite (drop_S _ _ _ He). cbn [take map concat].
    rewrite <- !app_assoc. reflexivity.
Qed.

(** X16. [AsSlowlog]. With an element count below one it panics: the
    last element is read at a negative index. With a count [n] of one or
    more that the array covers, and a command [c] that [Cmd] returns, the
    result is [c], then the payloads of the elements 1 to [n-2], each
    followed by a blank, then the payload of element [n-1]: the payloads
    are written as they are, and nothing separates [c] from what follows. *)
Theorem AsSlowlog_layout (r : Request) :
  (arrayn (req_resp r) < 1 -> AsSlowlog r = Panic) /\
  (forall (n : nat) (c : bytes) (e : resp),
     arrayn (req_resp r) = Z.of_nat (S n) ->
     array (req_resp r) !! n = Some e ->
     Cmd r = Val c ->
     AsSlowlog r =
     Val (c ++ concat (map (fun x => data x ++ [blankByte])
                          (take (n - 1) (drop 1 (array (req_resp r)))))
            ++ data e)).
Proof.
  unfold AsSlowlog. split.
  - intros Hn.
    assert (Hc : Cmd r = Val []).
    { unfold Cmd. destruct (Z.ltb_spec (arrayn (req_resp r)) 1); [reflexivity|lia]. }
    rewrite Hc.
    replace (Z.to_nat (arrayn (req_resp r) - 1 - 1)) with 0%nat by lia.
    cbn [AsSlowlog_loop]. rewrite index_negative by lia. reflexivity.
  - intros n c e Hn He Hc. rewrite Hc, Hn.
    replace (Z.to_nat (Z.of_nat (S n) - 1 - 1)) with (n - 1)%nat by lia.
    pose proof (lookup_lt_Some _ _ _ He) as Hlt.
    rewrite (AsSlowlog_loop_spec _ (n - 1) 1) by lia.
    replace (Z.of_nat (S n) - 1) with (Z.of_nat n) by lia.
    rewrite (index_lookup _ _ _ He). rewrite <- app_assoc. reflexivity.
Qed.

Lemma AsSlowlog_layout_witness :
  AsSlowlog {| req_resp := mkResp respArray []
                 [mkResp respBulk (lit "3" "SET") [] 0;
                  mkResp respBulk (lit "1" "a") [] 0;
                  mkResp respBulk (lit "1" "b") [] 0] 3;
               reply := None; mType := mergeTypeNo |} =
  Val (B "SET" ++ (lit "1" "a" ++ [blankByte]) ++ lit "1" "b") /\
  AsSlowlog (request_of (lit "4" "PING")) = Val (B "PING" ++ lit "4" "PING") /\
  AsSlowlog {| req_resp := mkResp respArray [] [] 0;
               reply := None; mType := mergeTypeNo |} = Panic.
Proof.
  split; [|split].
  - apply (proj2 (AsSlowlog_layout
             {| req_resp := mkResp respArray []
                  [mkResp respBulk (lit "3" "SET") [] 0;
                   mkResp respBulk (lit "1" "a") [] 0;
                   mkResp respBulk (lit "1" "b") [] 0] 3;
                reply := None; mType := mergeTypeNo |})
             2%nat (B "SET") (mkResp respBulk (lit "1" "b") [] 0));
      reflexivity.
  - apply (proj2 (AsSlowlog_layout (request_of (lit "4" "PING")))
             0%nat (B "PING") (mkResp respBulk (lit "4" "PING") [] 0));
      reflexivity.
  - apply (proj1 (AsSlowlog_layout
             {| req_resp := mkResp respArray [] [] 0;
                reply := None; mType := mergeTypeNo |})).
    simpl. lia.
Defined.

End RedisProps.

(** ** Properties of the Memcache handler *)
Module MemcacheProps.
Import Memcache.
Local Open Scope handler_scope.

(** A reading of [conv.Btoi] to run examples with: a decimal numeral with
    no sign. *)
Definition digit (c : ascii) : option Z :=
  let n := Z.of_nat (nat_of_ascii c) in
  if (48 <=? n) && (n <=? 57) then Some (n - 48) else None.

Fixpoint Btoi_digits (acc : Z) (bs : bytes) : option Z :=
  match bs with
  | [] => Some acc
  | c :: bs' =>
      match digit c with
      | Some d => Btoi_digits (10 * acc + d) bs'
      | None => None
      end
  end.

Definition Btoi_decimal (bs : bytes) : option Z :=
  match bs with
  | [] => None
  | _ => Btoi_digits 0 bs
  end.

Definition ex_handler (input : bytes) : handler :=
  {| cluster := "test-mc"; addr := "127.0.0.1:11211"; incoming := input;
     sent := []; write_broken := false; bw := [];
     bw_auto := bufio_auto handlerWriteBufferSize; bss := [[]; []]; buf := 0;
     readTimeout := 0; writeTimeout := 0; closed := handlerOpening;
     close_err := None; log := [] |}.

Definition get_req (k : string) : protoRequest :=
  ProtoMC {| rTp := RequestTypeGet; key := B k; data := crlfBytes |}.

Definition L (s : string) : bytes := B s ++ crlfBytes.

(** *** Logs *)

Definition is_br (e : event) : bool :=
  match e with
  | BrRead _ | BrReadFail | SetReadDeadline _ => true
  | _ => false
  end.

Definition is_stat (e : event) : bool :=
  match e with
  | StatHit _ _ | StatMiss _ _ => true
  | _ => false
  end.

Definition is_bw (e : event) : bool :=
  match e with
  | BwWrite _ | SetWriteDeadline _ => true
  | _ => false
  end.

(** The bytes the reads of a log took from the connection, and the bytes
    its writes handed to the buffered writer. *)
Fixpoint read_bytes (R : list event) : bytes :=
  match R with
  | [] => []
  | BrRead bs :: R' => bs ++ read_bytes R'
  | _ :: R' => read_bytes R'
  end.

Fixpoint written_bytes (W : list event) : bytes :=
  match W with
  | [] => []
  | BwWrite bs :: W' => bs ++ written_bytes W'
  | _ :: W' => written_bytes W'
  end.

(** The counters of [stat] for one (cluster, address), read off a log. *)
Definition hits (c a : string) (R : list event) : nat :=
  length (List.filter
            (fun e => match e with
                      | StatHit c' a' => String.eqb c c' && String.eqb a a'
                      | _ => false
                      end) R).

Definition misses (c a : string) (R : list event) : nat :=
  length (List.filter
            (fun e => match e with
                      | StatMiss c' a' => String.eqb c c' && String.eqb a a'
                      | _ => false
                      end) R).

(** What no part of [Handle] changes once the requests are flushed. *)
Definition same_conn (h h' : handler) : Prop :=
  cluster h' = cluster h /\ addr h' = addr h /\ sent h' = sent h /\
  bw h' = bw h /\ write_broken h' = write_broken h /\
  readTimeout h' = readTimeout h /\ writeTimeout h' = writeTimeout h /\
  closed h' = closed h.

(** [reads h h' R]: from [h] to [h'] the handler made the calls [R], the
    reads among them took their bytes off the front of the input, and the
    connection is otherwise as it was. *)
Definition reads (h h' : handler) (R : list event) : Prop :=
  log h' = log h ++ R /\
  incoming h = read_bytes R ++ incoming h' /\
  same_conn h h'.

Lemma read_bytes_app (R1 R2 : list event) :
  read_bytes (R1 ++ R2) = read_bytes R1 ++ read_bytes R2.
Proof.
  induction R1 as [|e R1 IH]; [reflexivity|].
  destruct e; simpl; rewrite ?IH, ?app_assoc; reflexivity.
Qed.

Lemma written_bytes_app (W1 W2 : list event) :
  written_bytes (W1 ++ W2) = written_bytes W1 ++ written_bytes W2.
Proof.
  induction W1 as [|e W1 IH]; [reflexivity|].
  destruct e; simpl; rewrite ?IH, ?app_assoc; reflexivity.
Qed.

Lemma same_conn_refl (h : handler) : same_conn h h.
Proof. unfold same_conn; tauto. Qed.

Lemma same_conn_trans (h1 h2 h3 : handler) :
  same_conn h1 h2 -> same_conn h2 h3 -> same_conn h1 h3.
Proof. unfold same_conn; intuition congruence. Qed.

Lemma reads_refl (h : handler) : reads h h [].
Proof.
  unfold reads. rewrite app_nil_r. auto using same_conn_refl.
Qed.

Lemma reads_trans (h1 h2 h3 : handler) (R1 R2 : list event) :
  reads h1 h2 R1 -> reads h2 h3 R2 -> reads h1 h3 (R1 ++ R2).
Proof.
  intros (L1 & I1 & C1) (L2 & I2 & C2). unfold reads.
  rewrite L2, L1, I1, I2, read_bytes_app, !app_assoc.
  eauto using same_conn_trans.
Qed.

Lemma cut_line_app (d : ascii) (s l r : bytes) :
  cut_line d s = Some (l, r) -> s = l ++ r /\ (0 < length l)%nat.
Proof.
  revert l r. induction s as [|c s IH]; intros l r H; simpl in H; [discriminate|].
  destruct (byte_eqb c d).
  - injection H as <- <-. simpl. split; [reflexivity|lia].
  - destruct (cut_line d s) as [[l' r']|]; [|discriminate].
    injection H as <- <-. destruct (IH _ _ eq_refl) as [-> _].
    simpl. split; [reflexivity|lia].
Qed.

(** *** The calls on the reader *)

Lemma br_ReadBytes_spec (d : ascii) (h : handler) :
  exists r h',
    br_ReadBytes d h = Some (r, h') /\
    bss h' = bss h /\ buf h' = buf h /\
    match r with
    | inl l =>
        exists rest, cut_line d (incoming h) = Some (l, rest) /\
                     incoming h' = rest /\ reads h h' [BrRead l]
    | inr e =>
        e = ErrConn /\ cut_line d (incoming h) = None /\ reads h h' [BrReadFail]
    end.
Proof.
  unfold br_ReadBytes.
  destruct (cut_line d (incoming h)) as [[l r]|] eqn:E.
  - eexists _, _. split; [reflexivity|]. do 2 (split; [reflexivity|]).
    exists r. split; [reflexivity|]. split; [reflexivity|].
    apply cut_line_app in E as [E _].
    unfold reads, same_conn; simpl. rewrite app_nil_r. auto 10.
  - eexists _, _. split; [reflexivity|]. do 2 (split; [reflexivity|]).
    unfold reads, same_conn; simpl. auto 12.
Qed.

Lemma br_ReadFull_spec (n : Z) (h : handler) :
  exists r h',
    br_ReadFull n h = Some (r, h') /\
    bss h' = bss h /\ buf h' = buf h /\
    match r with
    | inl bs => reads h h' [BrRead bs]
    | inr e => reads h h' [BrReadFail]
    end.
Proof.
  unfold br_ReadFull.
  destruct ((n <? 0) || (len (incoming h) <? n)).
  - eexists _, _. split; [reflexivity|]. do 2 (split; [reflexivity|]).
    unfold reads, same_conn; simpl. auto 12.
  - eexists _, _. split; [reflexivity|]. do 2 (split; [reflexivity|]).
    unfold reads, same_conn; simpl. rewrite app_nil_r, take_drop. auto 12.
Qed.

Lemma set_read_deadline_spec (h : handler) :
  exists h' R,
    set_read_deadline h = Some (tt, h') /\
    bss h' = bss h /\ buf h' = buf h /\ incoming h' = incoming h /\
    reads h h' R /\ forallb is_br R = true.
Proof.
  unfold set_read_deadline. destruct (0 <? readTimeout h).
  - eexists _, [_]. split; [reflexivity|]. do 3 (split; [reflexivity|]).
    unfold reads, same_conn; simpl. auto 12.
  - exists h, []. split; [reflexivity|]. do 3 (split; [reflexivity|]).
    split; [apply reads_refl|reflexivity].
Qed.

Lemma reads_set_bss (h : handler) (l : list bytes) : reads h (set_bss l h) [].
Proof.
  unfold reads, same_conn; simpl. rewrite app_nil_r. auto 12.
Qed.

Lemma reads_set_buf (h : handler) (n : Z) : reads h (set_buf n h) [].
Proof.
  unfold reads, same_conn; simpl. rewrite app_nil_r. auto 12.
Qed.

Lemma reads_emit_stat (h : handler) (e : event) :
  is_stat e = true -> reads h (emit e h) [e].
Proof.
  intros He. unfold reads, same_conn; simpl.
  destruct e; try discriminate; simpl; auto 12.
Qed.

(** Reads that leave the input where it was took nothing. *)
Lemma reads_nothing (h h' : handler) (R : list event) :
  reads h h' R -> incoming h' = incoming h -> read_bytes R = [].
Proof.
  intros (_ & HI & _) E. rewrite E in HI.
  apply (f_equal (@length ascii)) in HI. rewrite length_app in HI.
  destruct (read_bytes R); [reflexivity|simpl in HI; lia].
Qed.

Lemma is_br_no_stat (R : list event) :
  forallb is_br R = true ->
  List.filter is_stat R = [] /\
  forallb (fun e => is_br e || is_stat e) R = true.
Proof.
  induction R as [|e R IH]; [auto|]. simpl.
  intros H. apply andb_true_iff in H as [He HR].
  destruct (IH HR) as [-> ->]. rewrite He.
  destruct e; try discriminate; auto.
Qed.

(** *** The loop that reads up to the terminator *)

Lemma Handle_reread_unfold (fuel : nat) (bs3 : option bytes) (tl : Z) (h : handler) :
  Handle_reread (S fuel) bs3 tl h =
    if bytes_Equal (default [] bs3) endBytes then Some (inl tl, h)
    else
      let h0 := match bs3 with
                | Some b => set_bss (bss h ++ [b]) h
                | None => h
                end in
      let tl' := match bs3 with
                 | Some b => tl + len b
                 | None => tl
                 end in
      match set_read_deadline h0 with
      | None => None
      | Some (_, h1) =>
          match br_ReadBytes delim h1 with
          | None => None
          | Some (inl b, h2) => Handle_reread fuel (Some b) tl' h2
          | Some (inr e, h2) =>
              Some (inr (Wrap e "MC Handler handle reread response bytes"), h2)
          end
      end.
Proof.
  cbn [Handle_reread].
  destruct (bytes_Equal (default [] bs3) endBytes); [reflexivity|].
  destruct bs3 as [b|]; unfold bind, act, ret; cbn beta iota;
    destruct (set_read_deadline _) as [[[] h1]|]; try reflexivity;
    destruct (br_ReadBytes delim h1) as [[[b'|e] h2]|]; reflexivity.
Qed.

(** With more fuel than input bytes the loop returns. On success the lines
    it read, the one it was entered with in front, are the pieces it
    appended to [bss] followed by the terminator, and [tl] has grown by the
    length of those pieces. *)
Lemma Handle_reread_spec (fuel : nat) :
  forall (bs3 : option bytes) (tl : Z) (h : handler),
    (length (incoming h) < fuel)%nat ->
    exists r h' R,
      Handle_reread fuel bs3 tl h = Some (r, h') /\
      reads h h' R /\ forallb is_br R = true /\ buf h' = buf h /\
      match r with
      | inr e => err_cause e = ErrConn
      | inl tl' =>
          exists A,
            bss h' = bss h ++ A /\
            tl' = tl + len (concat A) /\
            default [] bs3 ++ read_bytes R = concat A ++ endBytes
      end.
Proof.
  induction fuel as [|fuel IH]; intros bs3 tl h Hf; [lia|].
  rewrite Handle_reread_unfold.
  destruct (bytes_Equal (default [] bs3) endBytes) eqn:Eend.
  - exists (inl tl), h, []. split; [reflexivity|].
    split; [apply reads_refl|]. split; [reflexivity|]. split; [reflexivity|].
    exists []. rewrite !app_nil_r. apply bytes_Equal_spec in Eend.
    split; [reflexivity|]. split; [unfold len; simpl; lia|exact Eend].
  - set (h0 := match bs3 with
               | Some b => set_bss (bss h ++ [b]) h
               | None => h
               end).
    set (tl0 := match bs3 with Some b => tl + len b | None => tl end).
    assert (H0 : reads h h0 [] /\ incoming h0 = incoming h /\ buf h0 = buf h /\
                 bss h0 = bss h ++ option_list bs3).
    { unfold h0. destruct bs3 as [b|]; simpl.
      - split; [apply reads_set_bss|auto].
      - split; [apply reads_refl|]. rewrite app_nil_r. auto. }
    destruct H0 as (Hr0 & Hi0 & Hb0 & Hbss0). cbv zeta.
    destruct (set_read_deadline_spec h0)
      as (h1 & R1 & E1 & Hbss1 & Hb1 & Hi1 & Hr1 & HR1).
    rewrite E1.
    destruct (br_ReadBytes_spec delim h1) as (r & h2 & E2 & Hbss2 & Hb2 & Hcase).
    rewrite E2.
    pose proof (reads_nothing _ _ _ Hr1 Hi1) as Hn1.
    destruct r as [b|e].
    + destruct Hcase as (rest & Hcut & Hrest & Hr2).
      destruct (cut_line_app _ _ _ _ Hcut) as [Hsplit Hpos].
      destruct (IH (Some b) tl0 h2) as (r & h' & R & E & Hr & HR & Hb & Hres).
      { rewrite Hrest. rewrite <- Hi0, <- Hi1, Hsplit, length_app in Hf. lia. }
      exists r, h', (([] ++ R1) ++ [BrRead b] ++ R).
      split; [exact E|].
      split; [eauto using reads_trans|].
      split; [simpl; rewrite forallb_app, HR1; simpl; exact HR|].
      split; [congruence|].
      destruct r as [tl'|e]; [|exact Hres].
      destruct Hres as (A & HA & Htl & Hcat).
      exists (option_list bs3 ++ A).
      rewrite HA, Hbss2, Hbss1, Hbss0, app_assoc. split; [reflexivity|].
      simpl in Hcat. simpl. rewrite read_bytes_app, Hn1. simpl.
      rewrite concat_app, <- app_assoc, <- Hcat.
      split; [|destruct bs3; simpl; rewrite ?app_nil_r; reflexivity].
      rewrite Htl. unfold tl0, len. destruct bs3 as [b0|]; simpl.
      * rewrite !length_app. simpl. lia.
      * lia.
    + destruct Hcase as (-> & _ & Hr2).
      eexists _, h2, (([] ++ R1) ++ [BrReadFail]).
      split; [reflexivity|].
      split; [eauto using reads_trans|].
      split; [simpl; rewrite forallb_app, HR1; reflexivity|].
      split; [congruence|reflexivity].
Qed.

(** *** Laying the pieces out *)

Lemma copy_at_fits (done rest p : bytes) (off : Z) :
  Z.to_nat off = length done -> (length p <= length rest)%nat ->
  copy_at (done ++ rest) off p = (done ++ p) ++ drop (length p) rest.
Proof.
  intros Hoff Hp. unfold copy_at. rewrite Hoff.
  rewrite take_app_length, drop_app_add, length_app.
  replace (length done + length rest - length done)%nat with (length rest) by lia.
  rewrite take_ge by exact Hp. rewrite app_assoc. reflexivity.
Qed.

Lemma copy_all_fits (pieces : list bytes) :
  forall (done rest : bytes) (off : Z),
    0 <= off -> Z.to_nat off = length done ->
    (length (concat pieces) <= length rest)%nat ->
    copy_all pieces (done ++ rest) off =
      ((done ++ concat pieces) ++ drop (length (concat pieces)) rest,
       off + len (concat pieces)).
Proof.
  induction pieces as [|p pieces IH]; intros done rest off H0 Hoff Hlen.
  - simpl. rewrite app_nil_r. unfold len; simpl. rewrite Z.add_0_r. reflexivity.
  - simpl in Hlen. rewrite length_app in Hlen.
    cbn [copy_all]. rewrite copy_at_fits by (auto; lia).
    rewrite IH.
    + cbn [concat]. rewrite drop_drop, length_app, !app_assoc.
      unfold len. rewrite length_app. f_equal. lia.
    + unfold len; lia.
    + rewrite length_app. unfold len. lia.
    + rewrite length_drop. lia.
Qed.

(** The buffer [Handle] builds for a retrieval that has values: the pieces
    it kept, then the terminator. *)
Lemma assemble (pieces : list bytes) :
  let '(tmp, off) :=
    copy_all pieces (zeros (len (concat pieces) + endBytesLen)) 0 in
  copy_at tmp off endBytes = concat pieces ++ endBytes.
Proof.
  assert (Hz : length (zeros (len (concat pieces) + endBytesLen)) =
               (length (concat pieces) + 5)%nat).
  { unfold zeros, len, endBytesLen. rewrite length_replicate. lia. }
  pose proof (copy_all_fits pieces [] (zeros (len (concat pieces) + endBytesLen)) 0)
    as H.
  cbn [app] in H. rewrite H by (try reflexivity; lia). clear H.
  pose proof (copy_at_fits (concat pieces)
                (drop (length (concat pieces))
                   (zeros (len (concat pieces) + endBytesLen)))
                endBytes (0 + len (concat pieces))) as H.
  rewrite H.
  - rewrite drop_ge; [apply app_nil_r|]. rewrite length_drop, Hz. simpl. lia.
  - unfold len. lia.
  - rewrite length_drop, Hz. simpl. lia.
Qed.

Lemma makeBytes_spec (n : Z) (h : handler) :
  exists h', makeBytes n h = Some (zeros n, h') /\ reads h h' [] /\ bss h' = bss h.
Proof.
  unfold makeBytes. destruct (Z.eqb_spec n 0) as [->|_].
  - exists h. split; [reflexivity|]. split; [apply reads_refl|reflexivity].
  - destruct (handlerWriteBufferSize <=? n).
    + exists h. split; [reflexivity|]. split; [apply reads_refl|reflexivity].
    + eexists. split; [reflexivity|]. split; [apply reads_set_buf|reflexivity].
Qed.

(** *** Reasoning about computations *)

(** [returns c h Q]: run from [h], the computation [c] returns, with a
    result and a final handler that satisfy [Q]. *)
Definition returns {A} (c : M A) (h : handler) (Q : A -> handler -> Prop) : Prop :=
  exists a h', c h = Some (a, h') /\ Q a h'.

Lemma returns_bind {A B} (c : M A) (k : A -> M B) (h : handler)
    (Q : B -> handler -> Prop) :
  returns c h (fun a h1 => returns (k a) h1 Q) -> returns (bind c k) h Q.
Proof.
  intros (a & h1 & E & b & h2 & E2 & HQ). exists b, h2.
  unfold bind. rewrite E. auto.
Qed.

Lemma returns_ret {A} (a : A) (h : handler) (Q : A -> handler -> Prop) :
  Q a h -> returns (ret a) h Q.
Proof. intros HQ. exists a, h. auto. Qed.

Lemma returns_get {A} (f : handler -> A) (h : handler) (Q : A -> handler -> Prop) :
  Q (f h) h -> returns (get f) h Q.
Proof. intros HQ. exists (f h), h. auto. Qed.

Lemma returns_act (f : handler -> handler) (h : handler)
    (Q : unit -> handler -> Prop) :
  Q tt (f h) -> returns (act f) h Q.
Proof. intros HQ. exists tt, (f h). auto. Qed.

Lemma returns_eq {A} (c : M A) (h : handler) (a : A) (h' : handler)
    (Q : A -> handler -> Prop) :
  c h = Some (a, h') -> Q a h' -> returns c h Q.
Proof. intros E HQ. exists a, h'. auto. Qed.

(** The [stat] call the reply to [mcr] makes, judged by the first line of
    the input. *)
Definition stat_of (mcr : MCRequest) (h : handler) : list event :=
  if is_retrieval (rTp mcr) then
    match cut_line delim (incoming h) with
    | None => []
    | Some (line, _) =>
        if bytes_Equal line endBytes
        then [StatMiss (cluster h) (addr h)]
        else [StatHit (cluster h) (addr h)]
    end
  else [].

Lemma value_length_err (Btoi : bytes -> option Z) (bs : bytes) (e : error) :
  value_length Btoi bs = inr e -> err_cause e = ErrBadResponse.
Proof.
  unfold value_length. intros H.
  destruct (_ <? 4); [injection H as <-; reflexivity|].
  destruct (_ && _); [injection H as <-; reflexivity|].
  destruct (Btoi _); [discriminate|injection H as <-; reflexivity].
Qed.

(** What one pass of the read loop establishes. *)
Definition reply_post (mcr : MCRequest) (h : handler)
    (r : Response + error) (h' : handler) : Prop :=
  exists R,
    reads h h' R /\
    forallb (fun e => is_br e || is_stat e) R = true /\
    List.filter is_stat R = stat_of mcr h /\
    match r with
    | inl resp =>
        resp = response (rTp mcr) (read_bytes R) /\
        (is_retrieval (rTp mcr) = true ->
         (exists blocks, read_bytes R = blocks ++ endBytes) /\
         List.filter is_stat R =
           [if bytes_Equal (read_bytes R) endBytes
            then StatMiss (cluster h) (addr h)
            else StatHit (cluster h) (addr h)])
    | inr e => err_cause e = ErrConn \/ err_cause e = ErrBadResponse
    end.

Lemma Handle_reply_spec (Btoi : bytes -> option Z) (mcr : MCRequest) (h : handler) :
  returns (Handle_reply Btoi mcr) h (reply_post mcr h).
Proof.
  unfold Handle_reply, reply_post, stat_of. apply returns_bind.
  destruct (br_ReadBytes_spec delim h) as (r & h1 & E1 & Hbss1 & Hb1 & Hcase).
  apply (returns_eq _ _ _ _ _ E1). destruct r as [bs|e].
  2:{ destruct Hcase as (-> & Hcut & Hr1). rewrite Hcut.
      apply returns_ret. exists [BrReadFail].
      split; [exact Hr1|]. split; [reflexivity|].
      split; [destruct (is_retrieval _); reflexivity|]. left; reflexivity. }
  destruct Hcase as (rest & Hcut & Hrest & Hr1). rewrite Hcut.
  apply returns_bind.
  destruct (is_retrieval (rTp mcr)) eqn:Hret.
  2:{ do 2 apply returns_ret. exists [BrRead bs].
      split; [exact Hr1|]. split; [reflexivity|]. split; [reflexivity|].
      simpl. rewrite app_nil_r. split; [reflexivity|discriminate]. }
  assert (Hc : cluster h1 = cluster h) by apply Hr1.
  assert (Ha : addr h1 = addr h) by apply Hr1.
  destruct (bytes_Equal bs endBytes) eqn:Eend; cbn [negb].
  { apply returns_bind, returns_get, returns_bind, returns_get.
    apply returns_bind, returns_act. do 2 apply returns_ret. rewrite Hc, Ha.
    exists ([BrRead bs] ++ [StatMiss (cluster h) (addr h)]).
    split; [eapply reads_trans; [exact Hr1|apply reads_emit_stat; reflexivity]|].
    split; [reflexivity|]. split; [reflexivity|].
    simpl. rewrite app_nil_r. split; [reflexivity|].
    intros _. rewrite Eend. split; [|reflexivity].
    exists []. apply bytes_Equal_spec in Eend. exact Eend. }
  apply returns_bind, returns_get, returns_bind, returns_get.
  apply returns_bind, returns_act. rewrite Hc, Ha.
  set (h2 := emit (StatHit (cluster h) (addr h)) h1).
  assert (Hr2 : reads h h2 ([BrRead bs] ++ [StatHit (cluster h) (addr h)])).
  { eapply reads_trans; [exact Hr1|apply reads_emit_stat; reflexivity]. }
  destruct (value_length Btoi bs) as [n|e] eqn:Evl.
  2:{ do 2 apply returns_ret. eexists.
      split; [exact Hr2|]. split; [reflexivity|]. split; [reflexivity|].
      right. eapply value_length_err; eauto. }
  apply returns_bind.
  destruct (br_ReadFull_spec (wrap64 (n + 2)) h2) as (r & h3 & E3 & Hbss3 & Hb3 & Hcase).
  apply (returns_eq _ _ _ _ _ E3). destruct r as [bs2|e].
  2:{ do 2 apply returns_ret. eexists.
      split; [eapply reads_trans; [exact Hr2|exact Hcase]|].
      split; [reflexivity|]. split; [reflexivity|]. right. reflexivity. }
  apply returns_bind, returns_act, returns_bind, returns_get.
  set (h4 := set_bss [bs; bs2] h3).
  assert (Hr4 : reads h h4 (([BrRead bs] ++ [StatHit (cluster h) (addr h)])
                             ++ [BrRead bs2] ++ [])).
  { eapply reads_trans; [exact Hr2|].
    eapply reads_trans; [exact Hcase|apply reads_set_bss]. }
  apply returns_bind.
  destruct (Handle_reread_spec (S (length (incoming h4))) None (len bs + len bs2) h4)
    as (r & h5 & R5 & E5 & Hr5 & HR5 & Hb5 & Hres); [lia|].
  apply (returns_eq _ _ _ _ _ E5).
  destruct (is_br_no_stat _ HR5) as [Hns5 Hall5].
  destruct r as [tl|e].
  2:{ do 2 apply returns_ret. eexists.
      split; [eapply reads_trans; [exact Hr4|exact Hr5]|].
      split; [simpl; exact Hall5|].
      split; [simpl; rewrite Hns5; reflexivity|]. left. exact Hres. }
  destruct Hres as (A & HA & Htl & Hcat).
  apply returns_bind.
  destruct (makeBytes_spec (tl + endBytesLen) h5) as (h6 & E6 & Hr6 & Hbss6).
  apply (returns_eq _ _ _ _ _ E6).
  apply returns_bind, returns_get. rewrite Hbss6, HA.
  change (bss h4) with [bs; bs2].
  assert (Htl' : tl = len (concat ([bs; bs2] ++ A))).
  { rewrite Htl. unfold len. rewrite concat_app, !length_app. simpl.
    rewrite length_app, app_nil_r. lia. }
  rewrite Htl'.
  pose proof (assemble ([bs; bs2] ++ A)) as Hasm.
  destruct (copy_all _ _ 0) as [tmp' off]. rewrite Hasm.
  do 2 apply returns_ret. eexists.
  split; [eapply reads_trans; [eapply reads_trans; [exact Hr4|exact Hr5]|exact Hr6]|].
  split; [simpl; rewrite app_nil_r; exact Hall5|].
  split; [simpl; rewrite app_nil_r, Hns5; reflexivity|].
  simpl read_bytes. simpl in Hcat. rewrite app_nil_r, Hcat.
  rewrite concat_app. simpl. rewrite app_nil_r, <- !app_assoc.
  split; [reflexivity|]. intros _. split.
  - exists (bs ++ bs2 ++ concat A). rewrite <- !app_assoc. reflexivity.
  - rewrite bytes_Equal_neq; [rewrite app_nil_r, Hns5; reflexivity|].
    intros Heq. apply (f_equal (@length ascii)) in Heq.
    rewrite !length_app in Heq. simpl in Heq.
    apply cut_line_app in Hcut as [_ Hpos]. lia.
Qed.

(** *** The write loop *)

(** The bytes [Handle] writes for one request. *)
Definition encode (mcr : MCRequest) : bytes :=
  B (RequestType_String (rTp mcr)) ++ [spaceByte] ++
  (if is_gat (rTp mcr)
   then data mcr ++ [spaceByte] ++ key mcr ++ crlfBytes
   else key mcr ++ data mcr).

(** [writes h h' W]: from [h] to [h'] the handler made the calls [W] on its
    writer, which took the bytes: what it has sent and what it holds are,
    together, what they were followed by these bytes, and a writer that
    cannot send has sent nothing more. Nothing else changed. *)
Definition writes (h h' : handler) (W : list event) : Prop :=
  log h' = log h ++ W /\
  sent h' ++ bw h' = sent h ++ bw h ++ written_bytes W /\
  forallb is_bw W = true /\
  cluster h' = cluster h /\ addr h' = addr h /\ incoming h' = incoming h /\
  (write_broken h = true -> sent h' = sent h) /\ write_broken h' = write_broken h /\
  bss h' = bss h /\ buf h' = buf h /\
  readTimeout h' = readTimeout h /\ writeTimeout h' = writeTimeout h /\
  closed h' = closed h.

Lemma writes_refl (h : handler) : writes h h [].
Proof. unfold writes. simpl. rewrite !app_nil_r. auto 15. Qed.

Lemma writes_trans (h1 h2 h3 : handler) (W1 W2 : list event) :
  writes h1 h2 W1 -> writes h2 h3 W2 -> writes h1 h3 (W1 ++ W2).
Proof.
  unfold writes. intros H1 H2.
  destruct H1 as (L1 & B1 & F1 & C1 & A1 & I1 & S1 & K1 & ?),
           H2 as (L2 & B2 & F2 & C2 & A2 & I2 & S2 & K2 & ?).
  split; [rewrite L2, L1, app_assoc; reflexivity|].
  split; [rewrite B2, app_assoc, B1, written_bytes_app, !app_assoc; reflexivity|].
  split; [rewrite forallb_app, F1, F2; reflexivity|].
  split; [congruence|]. split; [congruence|]. split; [congruence|].
  split; [intros Hb; rewrite S2, S1 by congruence; reflexivity|].
  intuition congruence.
Qed.

Lemma bw_Write_spec (bs : bytes) (h : handler) :
  exists h', bw_Write bs h = Some (tt, h') /\ writes h h' [BwWrite bs].
Proof.
  eexists. split; [reflexivity|]. unfold writes. simpl.
  rewrite app_nil_r, <- !app_assoc, take_drop.
  split; [reflexivity|]. split; [reflexivity|]. split; [reflexivity|].
  do 3 (split; [reflexivity|]).
  split; [intros ->; simpl; apply app_nil_r|]. auto 10.
Qed.

Lemma set_write_deadline_spec (h : handler) :
  exists h' W,
    set_write_deadline h = Some (tt, h') /\ writes h h' W /\ written_bytes W = [].
Proof.
  unfold set_write_deadline. destruct (0 <? writeTimeout h).
  - eexists _, [SetWriteDeadline (writeTimeout h)].
    split; [reflexivity|]. unfold writes. simpl.
    rewrite ?app_nil_r. auto 15.
  - exists h, []. split; [reflexivity|]. split; [apply writes_refl|reflexivity].
Qed.

(** The writes of the key and the data of one request. *)
Lemma Handle_write_body_spec (mcr : MCRequest) (h : handler) :
  exists h' W,
    (if is_gat (rTp mcr)
     then bw_Write (data mcr);;; bw_Write [spaceByte];;;
          bw_Write (key mcr);;; bw_Write crlfBytes
     else bw_Write (key mcr);;; bw_Write (data mcr)) h = Some (tt, h') /\
    writes h h' W /\
    written_bytes W =
      (if is_gat (rTp mcr)
       then data mcr ++ [spaceByte] ++ key mcr ++ crlfBytes
       else key mcr ++ data mcr).
Proof.
  destruct (is_gat (rTp mcr)).
  - destruct (bw_Write_spec (data mcr) h) as (h1 & E1 & H1).
    destruct (bw_Write_spec [spaceByte] h1) as (h2 & E2 & H2).
    destruct (bw_Write_spec (key mcr) h2) as (h3 & E3 & H3).
    destruct (bw_Write_spec crlfBytes h3) as (h4 & E4 & H4).
    exists h4, ((([BwWrite (data mcr)] ++ [BwWrite [spaceByte]])
                   ++ [BwWrite (key mcr)]) ++ [BwWrite crlfBytes]).
    split; [unfold bind; rewrite E1, E2, E3; exact E4|].
    split; [eauto using writes_trans|].
    simpl. rewrite ?app_nil_r. reflexivity.
  - destruct (bw_Write_spec (key mcr) h) as (h1 & E1 & H1).
    destruct (bw_Write_spec (data mcr) h1) as (h2 & E2 & H2).
    exists h2, ([BwWrite (key mcr)] ++ [BwWrite (data mcr)]).
    split; [unfold bind; rewrite E1; exact E2|].
    split; [eauto using writes_trans|].
    simpl. rewrite ?app_nil_r. reflexivity.
Qed.

Definition write_post (reqs : list protoRequest) (mcrs : list MCRequest)
    (h : handler) (r : list MCRequest + error) (h' : handler) : Prop :=
  exists W,
    writes h h' W /\
    match r with
    | inl out =>
        exists ms, reqs = map ProtoMC ms /\ out = mcrs ++ ms /\
                   written_bytes W = concat (map encode ms)
    | inr e =>
        e = Wrap ErrAssertRequest "MC Handler handle assert MCRequest" /\
        exists ms rest, reqs = map ProtoMC ms ++ ProtoOther :: rest
    end.

Lemma Handle_write_spec (reqs : list protoRequest) :
  forall (mcrs : list MCRequest) (h : handler),
    returns (Handle_write reqs mcrs) h (write_post reqs mcrs h).
Proof.
  induction reqs as [|req reqs IH]; intros mcrs h; cbn [Handle_write].
  - apply returns_ret. exists []. split; [apply writes_refl|].
    exists []. rewrite app_nil_r. auto.
  - destruct req as [mcr|].
    2:{ apply returns_ret. exists []. split; [apply writes_refl|].
        split; [reflexivity|]. exists [], reqs. reflexivity. }
    apply returns_bind.
    destruct (set_write_deadline_spec h) as (h1 & W1 & E1 & Hw1 & Hn1).
    apply (returns_eq _ _ _ _ _ E1).
    apply returns_bind.
    destruct (bw_Write_spec (B (RequestType_String (rTp mcr))) h1) as (h2 & E2 & Hw2).
    apply (returns_eq _ _ _ _ _ E2).
    apply returns_bind.
    destruct (bw_Write_spec [spaceByte] h2) as (h3 & E3 & Hw3).
    apply (returns_eq _ _ _ _ _ E3).
    apply returns_bind.
    destruct (Handle_write_body_spec mcr h3) as (h4 & W4 & E4 & Hw4 & Hb4).
    apply (returns_eq _ _ _ _ _ E4).
    destruct (IH (mcrs ++ [mcr]) h4) as (r & h' & E & W & Hw & Hres).
    apply (returns_eq _ _ _ _ _ E).
    exists ((((W1 ++ [BwWrite (B (RequestType_String (rTp mcr)))])
                ++ [BwWrite [spaceByte]]) ++ W4) ++ W).
    split; [eauto using writes_trans|].
    destruct r as [out|e].
    + destruct Hres as (ms & -> & -> & Hwb). exists (mcr :: ms).
      split; [reflexivity|]. split; [rewrite <- app_assoc; reflexivity|].
      rewrite !written_bytes_app, Hn1, Hb4, Hwb. simpl.
      unfold encode. rewrite !app_nil_r, <- !app_assoc. reflexivity.
    + destruct Hres as (-> & ms & rest & ->). split; [reflexivity|].
      exists (mcr :: ms), rest. reflexivity.
Qed.

(** *** The read loop *)

(** The response at a position answers the request at that position. *)
Definition answers (resp : Response) (mcr : MCRequest) : Prop :=
  Type_ resp = CacheTypeMemcache /\
  resp_rTp (proto resp) = rTp mcr /\
  (is_retrieval (rTp mcr) = true ->
   exists blocks, resp_data (proto resp) = blocks ++ endBytes).

Definition datas (resps : list Response) : list bytes :=
  map (fun r => resp_data (proto r)) resps.

(** The [stat] call a response stands for: none unless it answers a
    retrieval, a miss when it is the bare terminator, a hit otherwise. *)
Definition stat_for (c a : string) (resp : Response) : list event :=
  if is_retrieval (resp_rTp (proto resp)) then
    [if bytes_Equal (resp_data (proto resp)) endBytes
     then StatMiss c a else StatHit c a]
  else [].

Definition read_post (Btoi : bytes -> option Z) (mcrs : list MCRequest)
    (resps : list Response) (h : handler)
    (r : list Response * option error) (h' : handler) : Prop :=
  exists R done,
    reads h h' R /\
    forallb (fun e => is_br e || is_stat e) R = true /\
    r.1 = resps ++ done /\
    Forall2 answers done (take (length done) mcrs) /\
    match r.2 with
    | None =>
        length done = length mcrs /\
        read_bytes R = concat (datas done) /\
        List.filter is_stat R =
          concat (map (stat_for (cluster h) (addr h)) done)
    | Some e =>
        (err_cause e = ErrConn \/ err_cause e = ErrBadResponse) /\
        exists mcr h_i,
          mcrs !! length done = Some mcr /\
          Handle_read Btoi (take (length done) mcrs) resps h
            = Some ((resps ++ done, None), h_i) /\
          incoming h = concat (datas done) ++ incoming h_i /\
          Handle_reply Btoi mcr h_i = Some (inr e, h')
    end.

Lemma Handle_read_spec (Btoi : bytes -> option Z) (mcrs : list MCRequest) :
  forall (resps : list Response) (h : handler),
    returns (Handle_read Btoi mcrs resps) h (read_post Btoi mcrs resps h).
Proof.
  induction mcrs as [|mcr mcrs IH]; intros resps h; cbn [Handle_read].
  - apply returns_ret. exists [], []. simpl.
    split; [apply reads_refl|]. rewrite app_nil_r. repeat split; auto.
  - apply returns_bind.
    destruct (Handle_reply_spec Btoi mcr h) as (r & h1 & E1 & R1 & Hr1 & Hall1 & Hst1 & Hres).
    apply (returns_eq _ _ _ _ _ E1). destruct r as [resp|e].
    + destruct Hres as [Hresp Hblocks].
      destruct (IH (resps ++ [resp]) h1) as ([out err] & h' & E & R & done & Hr & Hall & Hout & Hans & Hres).
      apply (returns_eq _ _ _ _ _ E).
      exists (R1 ++ R), (resp :: done). cbn [fst snd] in *.
      split; [eauto using reads_trans|].
      split; [rewrite forallb_app, Hall1, Hall; reflexivity|].
      split; [rewrite Hout, <- app_assoc; reflexivity|].
      assert (Ha : answers resp mcr).
      { rewrite Hresp. unfold answers, response. simpl.
        split; [reflexivity|]. split; [reflexivity|]. apply Hblocks. }
      assert (Hd : resp_data (proto resp) = read_bytes R1)
        by (rewrite Hresp; reflexivity).
      split; [simpl; constructor; assumption|].
      destruct err as [e|].
      * destruct Hres as (Hc & m & h_i & Hm & Hrun & Hinc & Hfail).
        split; [exact Hc|]. exists m, h_i. simpl.
        split; [exact Hm|].
        split; [unfold bind; rewrite E1, Hrun, <- app_assoc; reflexivity|].
        split; [|exact Hfail].
        destruct Hr1 as (_ & Hi1 & _). rewrite Hi1, Hd, Hinc, app_assoc.
        reflexivity.
      * destruct Hres as (Hlen & Hrb & Hst). simpl. split; [lia|].
        split; [rewrite read_bytes_app, Hrb, Hd; reflexivity|].
        rewrite List.filter_app, Hst. f_equal.
        -- unfold stat_for. rewrite Hd, Hresp. simpl.
           unfold stat_of in Hst1.
           destruct (is_retrieval (rTp mcr)) eqn:Hret; [|exact Hst1].
           apply Hblocks. reflexivity.
        -- destruct Hr1 as (_ & _ & Hc1). unfold same_conn in Hc1.
           destruct Hc1 as (-> & -> & _). reflexivity.
    + apply returns_ret. exists R1, []. cbn [fst snd]. simpl.
      split; [exact Hr1|]. split; [exact Hall1|].
      split; [rewrite app_nil_r; reflexivity|].
      split; [constructor|]. split; [exact Hres|].
      exists mcr, h. rewrite app_nil_r. auto.
Qed.

(** *** Handle *)

Lemma bw_Flush_spec (h : handler) :
  exists r h',
    bw_Flush h = Some (r, h') /\
    cluster h' = cluster h /\ addr h' = addr h /\ incoming h' = incoming h /\
    closed h' = closed h /\
    match r with
    | Some e =>
        e = ErrConn /\ write_broken h = true /\
        log h' = log h ++ [BwFlush false] /\ sent h' = sent h /\ bw h' = bw h
    | None =>
        write_broken h = false /\
        log h' = log h ++ [BwFlush true] /\ sent h' = sent h ++ bw h /\ bw h' = []
    end.
Proof.
  unfold bw_Flush. destruct (write_broken h) eqn:E.
  - eexists _, _. split; [reflexivity|]. simpl. auto 12.
  - eexists _, _. split; [reflexivity|]. simpl. auto 12.
Qed.

(** The ways a call of [Handle] can go. *)
Inductive Handle_outcome (Btoi : bytes -> option Z) (reqs : list protoRequest)
    (h : handler) (resps : list Response) (err : option error) (h' : handler)
  : Prop :=
| Handle_rejected :
    closed h = handlerClosed -> h' = h -> resps = [] ->
    err = Some (Wrap ErrClosed "MC Handler handle request") ->
    Handle_outcome Btoi reqs h resps err h'
| Handle_bad_request (W : list event) (ms : list MCRequest)
    (rest : list protoRequest) :
    closed h <> handlerClosed ->
    reqs = map ProtoMC ms ++ ProtoOther :: rest ->
    writes h h' W -> resps = [] ->
    err = Some (Wrap ErrAssertRequest "MC Handler handle assert MCRequest") ->
    Handle_outcome Btoi reqs h resps err h'
| Handle_flush_failed (W : list event) (mcrs : list MCRequest) :
    closed h <> handlerClosed ->
    reqs = map ProtoMC mcrs ->
    written_bytes W = concat (map encode mcrs) -> forallb is_bw W = true ->
    write_broken h = true ->
    log h' = log h ++ W ++ [BwFlush false] ->
    incoming h' = incoming h -> closed h' = closed h -> resps = [] ->
    err = Some (Wrap ErrConn "MC Handler handle flush request bytes") ->
    Handle_outcome Btoi reqs h resps err h'
| Handle_read_phase (W D : list event) (mcrs : list MCRequest) (h_r : handler) :
    closed h <> handlerClosed ->
    reqs = map ProtoMC mcrs ->
    written_bytes W = concat (map encode mcrs) -> forallb is_bw W = true ->
    write_broken h = false ->
    log h_r = log h ++ W ++ [BwFlush true] ++ D ->
    forallb is_br D = true -> read_bytes D = [] ->
    incoming h_r = incoming h ->
    sent h_r = sent h ++ bw h ++ concat (map encode mcrs) -> bw h_r = [] ->
    closed h_r = closed h -> cluster h_r = cluster h -> addr h_r = addr h ->
    Handle_read Btoi mcrs [] h_r = Some ((resps, err), h') ->
    read_post Btoi mcrs [] h_r (resps, err) h' ->
    Handle_outcome Btoi reqs h resps err h'.

Lemma Handle_spec (Btoi : bytes -> option Z) (reqs : list protoRequest)
    (h : handler) :
  returns (Handle Btoi reqs) h
    (fun r h' => Handle_outcome Btoi reqs h r.1 r.2 h').
Proof.
  unfold Handle. apply returns_bind. unfold Closed. apply returns_get.
  destruct (Z.eqb_spec (closed h) handlerClosed) as [Hcl|Hop].
  { apply returns_ret. apply Handle_rejected; auto. }
  apply returns_bind.
  destruct (Handle_write_spec reqs [] h) as (w & h1 & E1 & W & Hw & Hres).
  apply (returns_eq _ _ _ _ _ E1). destruct w as [mcrs|e].
  2:{ destruct Hres as (-> & ms & rest & ->). apply returns_ret.
      eapply Handle_bad_request; eauto. }
  destruct Hres as (ms & -> & Hm & Hwb). simpl in Hm. subst mcrs.
  unfold writes in Hw.
  destruct Hw as (HL & HB & HF & Hc & Ha & Hi & Hs & Hwbk & _ & _ & _ & _ & Hcl).
  apply returns_bind.
  destruct (bw_Flush_spec h1) as (f & h2 & E2 & Hc2 & Ha2 & Hi2 & Hcl2 & Hf).
  apply (returns_eq _ _ _ _ _ E2). destruct f as [e|].
  { destruct Hf as (-> & Hbr & HL2 & _). apply returns_ret.
    eapply (Handle_flush_failed _ _ _ _ _ _ W ms); eauto; try congruence.
    cbn [fst snd]. rewrite HL2, HL, <- app_assoc. reflexivity. }
  destruct Hf as (Hbr & HL2 & Hs2 & Hb2).
  apply returns_bind.
  destruct (set_read_deadline_spec h2) as (h3 & D & E3 & _ & _ & Hi3 & Hr3 & HD).
  apply (returns_eq _ _ _ _ _ E3).
  destruct (Handle_read_spec Btoi ms [] h3) as ([resps err] & h' & E & Hpost).
  apply (returns_eq _ _ _ _ _ E).
  pose proof (reads_nothing _ _ _ Hr3 Hi3) as HnD.
  destruct Hr3 as (HL3 & _ & Hsame). unfold same_conn in Hsame.
  destruct Hsame as (Hc3 & Ha3 & Hs3 & Hb3 & _ & _ & _ & Hcl3).
  eapply (Handle_read_phase _ _ _ _ _ _ W D ms h3); eauto; try congruence.
  rewrite HL3, HL2, HL, <- !app_assoc. reflexivity.
Qed.

(** *** What a call of Handle returns *)

(** [Handle] always returns. *)
Lemma Handle_returns (Btoi : bytes -> option Z) (reqs : list protoRequest)
    (h : handler) :
  exists resps err h', Handle Btoi reqs h = Some ((resps, err), h').
Proof.
  destruct (Handle_spec Btoi reqs h) as ([resps err] & h' & E & _). eauto.
Qed.

Lemma Handle_outcome_of (Btoi : bytes -> option Z) (reqs : list protoRequest)
    (h : handler) (resps : list Response) (err : option error) (h' : handler) :
  Handle Btoi reqs h = Some ((resps, err), h') ->
  Handle_outcome Btoi reqs h resps err h'.
Proof.
  intros E. destruct (Handle_spec Btoi reqs h) as ([resps0 err0] & h0 & E0 & H).
  rewrite E in E0. injection E0 as <- <- <-. exact H.
Qed.


(** *** Replies and where they end *)

Lemma bind_eq {A B} (c : M A) (k : A -> M B) (h h1 : handler) (a : A) :
  c h = Some (a, h1) -> bind c k h = k a h1.
Proof. intros E. unfold bind. rewrite E. reflexivity. Qed.

Lemma map_ProtoMC_no_other (a b : list MCRequest) (c : list protoRequest) :
  map ProtoMC a <> map ProtoMC b ++ ProtoOther :: c.
Proof.
  revert b. induction a as [|x a IH]; intros [|y b]; simpl; try discriminate.
  intros [= _ H]. exact (IH _ H).
Qed.

(** A line: bytes that end with the first [\n] in them. *)
Definition is_line (l : bytes) : Prop := cut_line delim l = Some (l, []).

(** The bytes of a well-formed reply to [mcr], as [Handle] reads them: one
    line for a request that is no retrieval; for a retrieval the
    terminator alone, or a first line whose length field [Btoi] reads as
    [n], then [n + 2] bytes, then lines up to the first terminator line. *)
Inductive well_formed_reply (Btoi : bytes -> option Z) (mcr : MCRequest)
  : bytes -> Prop :=
| reply_line (l : bytes) :
    is_retrieval (rTp mcr) = false -> is_line l ->
    well_formed_reply Btoi mcr l
| reply_miss :
    is_retrieval (rTp mcr) = true ->
    well_formed_reply Btoi mcr endBytes
| reply_values (hdr body : bytes) (n : Z) (ls : list bytes) :
    is_retrieval (rTp mcr) = true ->
    is_line hdr -> value_length Btoi hdr = inl n ->
    0 <= n < 2 ^ 62 -> len body = n + 2 ->
    Forall is_line ls -> Forall (fun l => l <> endBytes) ls ->
    well_formed_reply Btoi mcr (hdr ++ body ++ concat ls ++ endBytes).

Lemma cut_line_line (l r : bytes) :
  is_line l -> cut_line delim (l ++ r) = Some (l, r).
Proof.
  unfold is_line. induction l as [|c l IH]; [discriminate|].
  cbn [cut_line app]. destruct (byte_eqb c delim).
  - intros [= H1 H2]. subst l. reflexivity.
  - destruct (cut_line delim l) as [[l' r']|] eqn:E; [|discriminate].
    intros [= H1 H2]. subst l' r'. rewrite (IH eq_refl). reflexivity.
Qed.

Lemma br_ReadBytes_line (l r : bytes) (h : handler) :
  cut_line delim (incoming h) = Some (l, r) ->
  exists h1,
    br_ReadBytes delim h = Some (inl l, h1) /\ incoming h1 = r /\
    cluster h1 = cluster h /\ addr h1 = addr h /\ readTimeout h1 = readTimeout h.
Proof.
  intros E. unfold br_ReadBytes. rewrite E. eexists. split; [reflexivity|].
  simpl. auto.
Qed.

Lemma Handle_reread_end (fuel : nat) (tl : Z) (h : handler) :
  Handle_reread fuel (Some endBytes) tl h = Some (inl tl, h).
Proof. destruct fuel; reflexivity. Qed.

(** The loop reads the lines [ls] and stops behind the terminator. *)
Lemma Handle_reread_lines (ls : list bytes) :
  forall (fuel : nat) (bs3 : option bytes) (tl : Z) (h : handler) (rest : bytes),
    Forall is_line ls -> Forall (fun l => l <> endBytes) ls ->
    default [] bs3 <> endBytes ->
    incoming h = concat ls ++ endBytes ++ rest ->
    (length (incoming h) < fuel)%nat ->
    exists tl' h',
      Handle_reread fuel bs3 tl h = Some (inl tl', h') /\ incoming h' = rest.
Proof.
  induction ls as [|l ls IH]; intros fuel bs3 tl h rest Hl Hne Hbs Hin Hf;
    (destruct fuel as [|fuel]; [lia|]);
    rewrite Handle_reread_unfold, (bytes_Equal_neq _ _ Hbs); cbv zeta;
    set (h0 := match bs3 with
               | Some b => set_bss (bss h ++ [b]) h
               | None => h
               end);
    assert (Hi0 : incoming h0 = incoming h) by (unfold h0; destruct bs3; reflexivity);
    destruct (set_read_deadline_spec h0) as (h1 & R1 & E1 & _ & _ & Hi1 & _);
    rewrite E1.
  - assert (Hcut : cut_line delim (incoming h1) = Some (endBytes, rest)).
    { rewrite Hi1, Hi0, Hin. reflexivity. }
    destruct (br_ReadBytes_line _ _ _ Hcut) as (h2 & E2 & Hi2 & _).
    rewrite E2, Handle_reread_end. eauto.
  - apply Forall_cons in Hl as [Hl Hls]. apply Forall_cons in Hne as [Hne Hnes].
    assert (Hcut : cut_line delim (incoming h1) =
                   Some (l, concat ls ++ endBytes ++ rest)).
    { rewrite Hi1, Hi0, Hin. cbn [concat]. rewrite <- app_assoc.
      apply cut_line_line. exact Hl. }
    destruct (br_ReadBytes_line _ _ _ Hcut) as (h2 & E2 & Hi2 & _).
    rewrite E2. apply IH; auto.
    rewrite Hi2. rewrite Hin in Hf. cbn [concat] in Hf.
    rewrite !length_app in Hf. rewrite !length_app.
    assert (0 < length l)%nat; [|lia].
    destruct l; [discriminate Hl|simpl; lia].
Qed.

Lemma value_length_END (Btoi : bytes -> option Z) :
  exists e, value_length Btoi endBytes = inr e.
Proof. eexists. reflexivity. Qed.

Lemma wrap64_small (z : Z) : 0 <= z < 2 ^ 63 -> wrap64 z = z.
Proof.
  intros H. unfold wrap64. rewrite Z.mod_small; lia.
Qed.

(** A well-formed reply is read without error, and the input is left
    behind it. *)
Lemma Handle_reply_succeeds (Btoi : bytes -> option Z) (mcr : MCRequest)
    (bs rest : bytes) (h : handler) :
  well_formed_reply Btoi mcr bs -> incoming h = bs ++ rest ->
  returns (Handle_reply Btoi mcr) h
    (fun r h' => (exists resp, r = inl resp) /\ incoming h' = rest).
Proof.
  intros Hwf Hin. unfold Handle_reply. apply returns_bind.
  destruct Hwf as [l Hret Hl|Hret|hdr body n ls Hret Hhdr Hvl Hn Hbody Hls Hnes].
  - assert (Hcut : cut_line delim (incoming h) = Some (l, rest))
      by (rewrite Hin; apply cut_line_line; exact Hl).
    destruct (br_ReadBytes_line _ _ _ Hcut) as (h1 & E1 & Hi1 & _).
    apply (returns_eq _ _ _ _ _ E1). rewrite Hret.
    apply returns_bind. do 2 apply returns_ret. eauto.
  - assert (Hcut : cut_line delim (incoming h) = Some (endBytes, rest))
      by (rewrite Hin; reflexivity).
    destruct (br_ReadBytes_line _ _ _ Hcut) as (h1 & E1 & Hi1 & _).
    apply (returns_eq _ _ _ _ _ E1). rewrite Hret.
    rewrite bytes_Equal_refl. cbn [negb].
    apply returns_bind, returns_bind, returns_get, returns_bind, returns_get.
    apply returns_bind, returns_act. do 2 apply returns_ret.
    split; [eauto|exact Hi1].
  - assert (Hcut : cut_line delim (incoming h) =
                   Some (hdr, body ++ concat ls ++ endBytes ++ rest)).
    { rewrite Hin, <- !app_assoc. apply cut_line_line. exact Hhdr. }
    destruct (br_ReadBytes_line _ _ _ Hcut) as (h1 & E1 & Hi1 & _).
    apply (returns_eq _ _ _ _ _ E1). rewrite Hret.
    assert (Hne : bytes_Equal hdr endBytes = false).
    { apply bytes_Equal_neq. intros ->.
      destruct (value_length_END Btoi) as [e He]. congruence. }
    rewrite Hne. cbn [negb].
    apply returns_bind, returns_bind, returns_get, returns_bind, returns_get.
    apply returns_bind, returns_act. rewrite Hvl.
    apply returns_bind. rewrite wrap64_small by lia.
    set (h2 := emit _ h1).
    assert (Hi2 : incoming h2 = body ++ concat ls ++ endBytes ++ rest) by exact Hi1.
    assert (Hlen : length body = Z.to_nat (n + 2)) by (unfold len in Hbody; lia).
    assert (E3 : br_ReadFull (n + 2) h2 =
                 Some (inl body,
                       emit (BrRead body)
                         (set_incoming (concat ls ++ endBytes ++ rest) h2))).
    { unfold br_ReadFull. rewrite Hi2.
      destruct (Z.ltb_spec (n + 2) 0) as [?|_]; [lia|].
      destruct (Z.ltb_spec (len (body ++ concat ls ++ endBytes ++ rest)) (n + 2))
        as [Hlt|_].
      { unfold len in Hlt. rewrite length_app in Hlt. lia. }
      cbn [orb]. rewrite <- Hlen, take_app_length, drop_app_length. reflexivity. }
    apply (returns_eq _ _ _ _ _ E3).
    apply returns_bind, returns_act, returns_bind, returns_get, returns_bind.
    set (h4 := set_bss _ _).
    destruct (Handle_reread_lines ls (S (length (incoming h4))) None
                (len hdr + len body) h4 rest Hls Hnes)
      as (tl & h5 & E5 & Hi5); [discriminate|reflexivity|lia|].
    apply (returns_eq _ _ _ _ _ E5). apply returns_bind.
    destruct (makeBytes_spec (tl + endBytesLen) h5) as (h6 & E6 & Hr6 & _).
    apply (returns_eq _ _ _ _ _ E6). apply returns_bind, returns_get.
    destruct (copy_all _ _ 0) as [tmp' off]. do 2 apply returns_ret.
    split; [eauto|]. destruct Hr6 as (_ & Hi6 & _). simpl in Hi6. congruence.
Qed.

Lemma Handle_reply_complete (Btoi : bytes -> option Z) (mcr : MCRequest)
    (bs rest : bytes) (h : handler) :
  well_formed_reply Btoi mcr bs -> incoming h = bs ++ rest ->
  exists h',
    Handle_reply Btoi mcr h = Some (inl (response (rTp mcr) bs), h') /\
    incoming h' = rest.
Proof.
  intros Hwf Hin.
  destruct (Handle_reply_succeeds Btoi mcr bs rest h Hwf Hin)
    as (r & h' & E & [resp ->] & Hi).
  destruct (Handle_reply_spec Btoi mcr h) as (r0 & h0 & E0 & R & Hr & _ & _ & Hres).
  rewrite E in E0. injection E0 as <- <-. destruct Hres as [-> _].
  destruct Hr as (_ & Hinc & _). rewrite Hin, Hi in Hinc.
  apply app_inv_tail in Hinc. subst bs. eauto.
Qed.

Definition responses (mcrs : list MCRequest) (bss : list bytes) : list Response :=
  zip_with (fun m b => response (rTp m) b) mcrs bss.

Lemma Handle_read_complete (Btoi : bytes -> option Z) (mcrs : list MCRequest)
    (bss : list bytes) :
  Forall2 (well_formed_reply Btoi) mcrs bss ->
  forall (resps : list Response) (h : handler) (rest : bytes),
    incoming h = concat bss ++ rest ->
    exists h',
      Handle_read Btoi mcrs resps h = Some ((resps ++ responses mcrs bss, None), h') /\
      incoming h' = rest.
Proof.
  induction 1 as [|m b mcrs bss Hwf _ IH]; intros resps h rest Hin.
  - exists h. cbn [Handle_read responses zip_with]. rewrite app_nil_r.
    split; [reflexivity|exact Hin].
  - cbn [concat] in Hin. rewrite <- app_assoc in Hin.
    destruct (Handle_reply_complete Btoi m b _ h Hwf Hin) as (h1 & E1 & Hi1).
    destruct (IH (resps ++ [response (rTp m) b]) h1 rest Hi1) as (h' & E & Hi).
    exists h'. cbn [Handle_read]. rewrite (bind_eq _ _ _ _ _ E1), E.
    unfold responses. cbn [zip_with]. rewrite <- app_assoc. auto.
Qed.










(** Two [get]s on one connection: a hit, then a miss. *)
Definition ex_two_replies : bytes :=
  L "VALUE a 0 3" ++ L "aaa" ++ L "END" ++ L "END".

Abbreviation ex_run reqs input :=
  (Handle Btoi_decimal reqs (ex_handler input)) (only parsing).

Definition ex_final (reqs : list protoRequest) (input : bytes) : handler :=
  match ex_run reqs input with
  | Some (_, h') => h'
  | None => ex_handler input
  end.


(** The replies of a backend to [get a b], where the value of [b] is the
    eight bytes [END\r\nEND], and to [get c] and [get b], each with a
    value. *)
Definition ex_reply_ab : bytes :=
  L "VALUE a 0 1" ++ L "x" ++ L "VALUE b 0 8" ++ (L "END" ++ B "END") ++ crlfBytes
    ++ endBytes.

Definition ex_reply_c : bytes := L "VALUE c 0 1" ++ L "y" ++ endBytes.

Definition ex_reply_b : bytes := L "VALUE b 0 1" ++ L "y" ++ endBytes.

(** Two calls that return no error with a response that is not the reply
    to its request. In the first, the reply to [get a b] is cut at the
    line [END\r\n] inside the value of [b]: the response to [get c] is the
    rest of that value, read as a miss, and the end of the first reply and
    the whole reply to [get c] stay unread. In the second, an earlier call
    has failed on its first reply and left the reply to its [get b] unread:
    the next call, for [get c], returns no error and its response carries
    the reply to [get b]. *)
Lemma Handle_reply_of_another_request_counterexample :
  ((snd <$> (fst <$> ex_run [get_req "a b"; get_req "c"] (ex_reply_ab ++ ex_reply_c)))
     = Some None /\
   (datas <$> (fst <$> (fst <$>
      ex_run [get_req "a b"; get_req "c"] (ex_reply_ab ++ ex_reply_c))))
     = Some [L "VALUE a 0 1" ++ L "x" ++ L "VALUE b 0 8" ++ endBytes; endBytes] /\
   incoming (ex_final [get_req "a b"; get_req "c"] (ex_reply_ab ++ ex_reply_c))
     = endBytes ++ ex_reply_c /\
   [L "VALUE a 0 1" ++ L "x" ++ L "VALUE b 0 8" ++ endBytes; endBytes]
     <> [ex_reply_ab; ex_reply_c]) /\
  ((snd <$> (fst <$>
      ex_run [get_req "a"; get_req "b"] (L "ERROR" ++ ex_reply_b ++ endBytes)))
     = Some (Some (Wrap ErrBadResponse "MC Handler handle read response bytes split")) /\
   (fst <$> Handle Btoi_decimal [get_req "c"]
              (ex_final [get_req "a"; get_req "b"]
                 (L "ERROR" ++ ex_reply_b ++ endBytes)))
     = Some ([response RequestTypeGet ex_reply_b], None) /\
   ex_reply_b <> endBytes).
Proof.
  split; [split; [|split; [|split]]|split; [|split]];
    try (vm_compute; reflexivity); vm_compute; discriminate.
Qed.


Definition ex_value_block : bytes := L "VALUE a 0 3" ++ L "aaa".



(** *** The counters *)

Lemma hits_app (c a : string) (R1 R2 : list event) :
  hits c a (R1 ++ R2) = (hits c a R1 + hits c a R2)%nat.
Proof. unfold hits. rewrite List.filter_app, length_app. reflexivity. Qed.

Lemma misses_app (c a : string) (R1 R2 : list event) :
  misses c a (R1 ++ R2) = (misses c a R1 + misses c a R2)%nat.
Proof. unfold misses. rewrite List.filter_app, length_app. reflexivity. Qed.

Lemma hits_stat_only (c a : string) (R : list event) :
  hits c a R = hits c a (List.filter is_stat R).
Proof.
  unfold hits. induction R as [|e R IH]; [reflexivity|].
  destruct e; simpl; try exact IH; destruct (_ && _); simpl; congruence.
Qed.

Lemma misses_stat_only (c a : string) (R : list event) :
  misses c a R = misses c a (List.filter is_stat R).
Proof.
  unfold misses. induction R as [|e R IH]; [reflexivity|].
  destruct e; simpl; try exact IH; destruct (_ && _); simpl; congruence.
Qed.

Lemma VALUE_line_is_not_END (line : bytes) :
  bytes_HasPrefix line (B "VALUE") = true ->
  bytes_Equal line endBytes = false.
Proof.
  intros H. apply bytes_Equal_neq. intros ->. vm_compute in H. discriminate.
Qed.

(** C5, as the code has it. In the pass of [Handle]'s read loop for a
    retrieval request, with the counters of the handler's (cluster,
    address): when the first line of the reply is read and is [END\r\n],
    the miss counter goes up by one and the hit counter stays; when it is
    read and is any other line, a [VALUE] line or not, the hit counter goes
    up by one and the miss counter stays; when it cannot be read, both
    stay. *)
Theorem Handle_reply_hit_or_miss (Btoi : bytes -> option Z) (mcr : MCRequest)
    (h : handler) (r : Response + error) (h' : handler) :
  is_retrieval (rTp mcr) = true ->
  Handle_reply Btoi mcr h = Some (r, h') ->
  match cut_line delim (incoming h) with
  | None =>
      hits (cluster h) (addr h) (log h') = hits (cluster h) (addr h) (log h) /\
      misses (cluster h) (addr h) (log h') = misses (cluster h) (addr h) (log h)
  | Some (line, _) =>
      if bytes_Equal line endBytes then
        misses (cluster h) (addr h) (log h')
          = S (misses (cluster h) (addr h) (log h)) /\
        hits (cluster h) (addr h) (log h') = hits (cluster h) (addr h) (log h)
      else
        hits (cluster h) (addr h) (log h')
          = S (hits (cluster h) (addr h) (log h)) /\
        misses (cluster h) (addr h) (log h') = misses (cluster h) (addr h) (log h)
  end.
Proof.
  intros Hret E.
  destruct (Handle_reply_spec Btoi mcr h) as (r0 & h0 & E0 & R & Hr & _ & Hst & _).
  rewrite E in E0. injection E0 as <- <-.
  destruct Hr as (HL & _). rewrite HL, !hits_app, !misses_app.
  rewrite (hits_stat_only _ _ R), (misses_stat_only _ _ R), Hst.
  unfold stat_of. rewrite Hret.
  destruct (cut_line delim (incoming h)) as [[line rest]|].
  - destruct (bytes_Equal line endBytes); unfold hits, misses; simpl;
      rewrite !String.eqb_refl; simpl; lia.
  - unfold hits, misses; simpl; lia.
Qed.

Definition ex_get_a : MCRequest :=
  {| rTp := RequestTypeGet; key := B "a"; data := crlfBytes |}.

Definition ex_reply_final (input : bytes) : handler :=
  match Handle_reply Btoi_decimal ex_get_a (ex_handler input) with
  | Some (_, h') => h'
  | None => ex_handler input
  end.

Lemma Handle_reply_hit_or_miss_witness :
  hits "test-mc" "127.0.0.1:11211" (log (ex_reply_final (ex_value_block ++ endBytes)))
    = 1%nat /\
  misses "test-mc" "127.0.0.1:11211" (log (ex_reply_final endBytes)) = 1%nat.
Proof.
  split.
  - assert (E : Handle_reply Btoi_decimal ex_get_a
                  (ex_handler (ex_value_block ++ endBytes)) =
                Some (inl (response RequestTypeGet (ex_value_block ++ endBytes)),
                      ex_reply_final (ex_value_block ++ endBytes)))
      by (vm_compute; reflexivity).
    pose proof (Handle_reply_hit_or_miss Btoi_decimal ex_get_a _ _ _ eq_refl E) as H.
    assert (Hcut : cut_line delim (incoming (ex_handler (ex_value_block ++ endBytes)))
                   = Some (L "VALUE a 0 3", L "aaa" ++ endBytes))
      by (vm_compute; reflexivity).
    rewrite Hcut in H.
    assert (Hne : bytes_Equal (L "VALUE a 0 3") endBytes = false)
      by (vm_compute; reflexivity).
    rewrite Hne in H. exact (proj1 H).
  - assert (E : Handle_reply Btoi_decimal ex_get_a (ex_handler endBytes) =
                Some (inl (response RequestTypeGet endBytes),
                      ex_reply_final endBytes))
      by (vm_compute; reflexivity).
    pose proof (Handle_reply_hit_or_miss Btoi_decimal ex_get_a _ _ _ eq_refl E) as H.
    assert (Hcut : cut_line delim (incoming (ex_handler endBytes))
                   = Some (endBytes, []))
      by (vm_compute; reflexivity).
    rewrite Hcut in H.
    assert (Heq : bytes_Equal endBytes endBytes = true)
      by (vm_compute; reflexivity).
    rewrite Heq in H. exact (proj1 H).
Defined.

(** The backend answers a [get] with [ERROR\r\n]: the reply does not begin
    with a [VALUE] line, [Handle] fails on it, and the hit counter has gone
    up. The backend answers nothing: neither counter moves. *)
Lemma Handle_hit_without_VALUE_counterexample :
  bytes_HasPrefix (L "ERROR") (B "VALUE") = false /\
  hits "test-mc" "127.0.0.1:11211" (log (ex_final [get_req "a"] (L "ERROR")))
    = 1%nat /\
  misses "test-mc" "127.0.0.1:11211" (log (ex_final [get_req "a"] (L "ERROR")))
    = 0%nat /\
  hits "test-mc" "127.0.0.1:11211" (log (ex_final [get_req "a"] [])) = 0%nat /\
  misses "test-mc" "127.0.0.1:11211" (log (ex_final [get_req "a"] [])) = 0%nat.
Proof. vm_compute. auto. Qed.

(** *** Errors *)

(** C6, as the code has it. When [Handle] returns an error, the closed flag
    is what it was: [Handle] does not close the handler. The error is the
    rejection of a closed handler, or a request that is no [MCRequest] or a
    failed flush (no reply read in either case), or the failure of the
    reply at position [i = len(resps)]: then the replies before [i] were
    read without error and are the responses returned, the error is the
    connection's or [ErrBadResponse], the handler is left as the failed
    pass left it (nothing is read after the failure), and it is still open
    for the next call. *)
Theorem Handle_error_returns_at_once (Btoi : bytes -> option Z)
    (reqs : list protoRequest) (h : handler) (resps : list Response)
    (e : error) (h' : handler) :
  Handle Btoi reqs h = Some ((resps, Some e), h') ->
  closed h' = closed h /\
  ((closed h = handlerClosed /\ h' = h /\ resps = [] /\
    e = Wrap ErrClosed "MC Handler handle request") \/
   (closed h <> handlerClosed /\ resps = [] /\ incoming h' = incoming h /\
    (e = Wrap ErrAssertRequest "MC Handler handle assert MCRequest" \/
     e = Wrap ErrConn "MC Handler handle flush request bytes")) \/
   (closed h' <> handlerClosed /\
    (err_cause e = ErrConn \/ err_cause e = ErrBadResponse) /\
    exists mcrs h_r mcr h_i,
      reqs = map ProtoMC mcrs /\
      incoming h_r = incoming h /\
      mcrs !! length resps = Some mcr /\
      Handle_read Btoi (take (length resps) mcrs) [] h_r
        = Some ((resps, None), h_i) /\
      incoming h = concat (datas resps) ++ incoming h_i /\
      Handle_reply Btoi mcr h_i = Some (inr e, h'))).
Proof.
  intros E. apply Handle_outcome_of in E.
  destruct E as [Hcl -> -> He|W ms rest Hop ? Hw -> He
                |W mcrs Hop ? ? ? ? ? Hi Hcl -> He
                |W D mcrs h_r Hop Hreqs HW HF Hbr HL HD HnD Hi Hs Hb Hcl Hc Ha E Hpost].
  - injection He as ->. split; [reflexivity|]. left. auto.
  - injection He as ->. unfold writes in Hw.
    destruct Hw as (_ & _ & _ & _ & _ & Hi & _ & _ & _ & _ & _ & _ & Hcl).
    split; [exact Hcl|]. right; left. auto.
  - injection He as ->. split; [exact Hcl|]. right; left. auto.
  - destruct Hpost as (R & done & Hr & Hall & Hout & Hans & Hc' & mcr & h_i & Hm & Hrun & Hinc & Hfail).
    cbn [fst snd app] in *. subst resps.
    destruct Hr as (_ & _ & Hsame). unfold same_conn in Hsame.
    destruct Hsame as (_ & _ & _ & _ & _ & _ & _ & Hcl').
    split; [congruence|]. right; right.
    split; [congruence|]. split; [exact Hc'|].
    exists mcrs, h_r, mcr, h_i. repeat split; auto. congruence.
Qed.

(** Two [get]s; the backend answers the first with a miss and breaks off
    in the second reply. *)
Definition ex_broken_off : bytes := L "END" ++ B "VALUE b 0".

Lemma Handle_error_returns_at_once_witness :
  Handle Btoi_decimal [get_req "a"; get_req "b"] (ex_handler ex_broken_off) =
    Some (([response RequestTypeGet endBytes],
           Some (Wrap ErrConn "MC Handler handle read response bytes")),
          ex_final [get_req "a"; get_req "b"] ex_broken_off) /\
  closed (ex_final [get_req "a"; get_req "b"] ex_broken_off) = handlerOpening /\
  incoming (ex_final [get_req "a"; get_req "b"] ex_broken_off) = B "VALUE b 0".
Proof.
  assert (E : Handle Btoi_decimal [get_req "a"; get_req "b"]
                (ex_handler ex_broken_off) =
    Some (([response RequestTypeGet endBytes],
           Some (Wrap ErrConn "MC Handler handle read response bytes")),
          ex_final [get_req "a"; get_req "b"] ex_broken_off))
    by (vm_compute; reflexivity).
  split; [exact E|].
  destruct (Handle_error_returns_at_once _ _ _ _ _ _ E) as [Hcl _].
  split; [exact Hcl|]. vm_compute. reflexivity.
Defined.

(** After the failed read of the second reply the handler is not marked
    closed, and the next [Handle] on it is not rejected: it writes its
    request and goes on reading where the failed call stopped. *)
Lemma Handle_failure_does_not_close_counterexample :
  (snd <$> (fst <$> Handle Btoi_decimal [get_req "a"; get_req "b"]
                      (ex_handler ex_broken_off)))
    = Some (Some (Wrap ErrConn "MC Handler handle read response bytes")) /\
  (fst <$> Closed (ex_final [get_req "a"; get_req "b"] ex_broken_off))
    = Some false /\
  (snd <$> (fst <$> Handle Btoi_decimal [get_req "c"]
                      (ex_final [get_req "a"; get_req "b"] ex_broken_off)))
    = Some (Some (Wrap ErrConn "MC Handler handle read response bytes")) /\
  (sent <$> (snd <$> Handle Btoi_decimal [get_req "c"]
                       (ex_final [get_req "a"; get_req "b"] ex_broken_off)))
    = Some (L "get a" ++ L "get b" ++ L "get c").
Proof. vm_compute. auto. Qed.

(** *** Counters over a whole call, and more runs *)

(** The count a response stands for: a response to a retrieval counts as
    a miss when its bytes are the bare terminator and as a hit otherwise. *)
Definition counts_hit (resp : Response) : bool :=
  is_retrieval (resp_rTp (proto resp)) &&
  negb (bytes_Equal (resp_data (proto resp)) endBytes).

Definition counts_miss (resp : Response) : bool :=
  is_retrieval (resp_rTp (proto resp)) &&
  bytes_Equal (resp_data (proto resp)) endBytes.

Lemma no_stat_events (P : event -> bool) (R : list event) :
  (forall e, P e = true -> is_stat e = false) ->
  forallb P R = true -> List.filter is_stat R = [].
Proof.
  intros HP. induction R as [|e R IH]; [reflexivity|]. simpl.
  intros H. apply andb_true_iff in H as [He HR].
  rewrite (HP e He). auto.
Qed.

Lemma stat_for_counts (c a : string) (done : list Response) :
  hits c a (concat (map (stat_for c a) done))
    = length (List.filter counts_hit done) /\
  misses c a (concat (map (stat_for c a) done))
    = length (List.filter counts_miss done).
Proof.
  induction done as [|resp done [IHh IHm]]; [split; reflexivity|].
  cbn [map concat]. rewrite hits_app, misses_app, IHh, IHm.
  unfold stat_for, counts_hit, counts_miss. cbn [List.filter].
  destruct (is_retrieval _); [|split; reflexivity].
  destruct (bytes_Equal _ endBytes); unfold hits, misses; simpl;
    rewrite !String.eqb_refl; split; reflexivity.
Qed.

(** X25. Over a whole call of [Handle] that returns without error, the
    hit counter of the handler's (cluster, address) goes up by the number
    of responses to retrievals that carry values, the miss counter by the
    number of responses to retrievals that are the bare terminator;
    nothing else is counted. *)
Theorem Handle_counters (Btoi : bytes -> option Z) (reqs : list protoRequest)
    (h : handler) (resps : list Response) (h' : handler) :
  Handle Btoi reqs h = Some ((resps, None), h') ->
  hits (cluster h) (addr h) (log h')
    = (hits (cluster h) (addr h) (log h) + length (List.filter counts_hit resps))%nat /\
  misses (cluster h) (addr h) (log h')
    = (misses (cluster h) (addr h) (log h) + length (List.filter counts_miss resps))%nat.
Proof.
  intros E. apply Handle_outcome_of in E.
  destruct E as [? ? ? He|W ms rest ? ? ? ? He|W mcrs ? ? ? ? ? ? ? ? ? He
                |W D mcrs h_r Hop Hreqs HW HF Hbr HL HD HnD Hi Hs Hb Hcl Hc Ha E Hpost];
    try discriminate.
  destruct Hpost as (R & done & (HLr & _) & _ & Hout & _ & _ & _ & Hst).
  cbn [fst snd] in *. cbn [app] in Hout. subst resps.
  destruct (stat_for_counts (cluster h) (addr h) done) as [Hh Hm].
  assert (HWs : List.filter is_stat W = []).
  { apply (no_stat_events is_bw); [|exact HF]. intros []; simpl; congruence. }
  assert (HDs : List.filter is_stat D = []).
  { apply (no_stat_events is_br); [|exact HD]. intros []; simpl; congruence. }
  rewrite HLr, HL, !hits_app, !misses_app.
  rewrite (hits_stat_only _ _ W), (misses_stat_only _ _ W), HWs.
  rewrite (hits_stat_only _ _ D), (misses_stat_only _ _ D), HDs.
  rewrite (hits_stat_only _ _ R), (misses_stat_only _ _ R), Hst, Hc, Ha, Hh, Hm.
  unfold hits, misses; simpl. lia.
Qed.

Lemma Handle_counters_witness :
  hits "test-mc" "127.0.0.1:11211"
    (log (ex_final [get_req "a"; get_req "b"] ex_two_replies)) = 1%nat /\
  misses "test-mc" "127.0.0.1:11211"
    (log (ex_final [get_req "a"; get_req "b"] ex_two_replies)) = 1%nat.
Proof.
  assert (E : Handle Btoi_decimal [get_req "a"; get_req "b"]
                (ex_handler ex_two_replies) =
    Some (([response RequestTypeGet (ex_value_block ++ endBytes);
            response RequestTypeGet endBytes], None),
          ex_final [get_req "a"; get_req "b"] ex_two_replies))
    by (vm_compute; reflexivity).
  exact (Handle_counters _ _ _ _ _ E).
Defined.

(** A reply with two VALUE blocks is kept whole, terminator included. *)
Example Handle_two_blocks :
  (datas <$> (fst <$> (fst <$>
     Handle Btoi_decimal [get_req "a b"]
       (ex_handler (L "VALUE a 0 3" ++ L "aaa" ++ L "VALUE b 1 2 77" ++ L "bb"
                    ++ endBytes)))))
  = Some [L "VALUE a 0 3" ++ L "aaa" ++ L "VALUE b 1 2 77" ++ L "bb" ++ endBytes].
Proof. vm_compute. reflexivity. Qed.

(** A [get] that misses: the request goes out as [get a\r\n], the reply is
    the terminator, the miss counter goes up by one. *)
Example Handle_get_miss :
  (fst <$> Handle Btoi_decimal [get_req "a"] (ex_handler endBytes))
    = Some ([response RequestTypeGet endBytes], None) /\
  sent (ex_final [get_req "a"] endBytes) = L "get a" /\
  misses "test-mc" "127.0.0.1:11211" (log (ex_final [get_req "a"] endBytes)) = 1%nat /\
  hits "test-mc" "127.0.0.1:11211" (log (ex_final [get_req "a"] endBytes)) = 0%nat.
Proof. vm_compute. auto. Qed.

(** A closed handler rejects the call and touches nothing. *)
Example Handle_on_closed :
  match Close (ex_handler endBytes) with
  | Some (_, hc) =>
      Handle Btoi_decimal [get_req "a"] hc
        = Some (([], Some (Wrap ErrClosed "MC Handler handle request")), hc)
  | None => False
  end.
Proof. vm_compute. reflexivity. Qed.

(** *** Close *)

(** X17. [Close] closes the connection once. On a handler whose flag is
    one of the two states, [Close] leaves it closed, and has called
    [conn.Close] exactly when it was open; a second [Close] returns nil and
    changes nothing; [Closed] then answers true, and every [Handle] is
    turned down with [ErrClosed], no response, and the handler untouched. *)
Theorem Close_closes_once (Btoi : bytes -> option Z) (reqs : list protoRequest)
    (h : handler) :
  closed h = handlerOpening \/ closed h = handlerClosed ->
  exists hc,
    snd <$> Close h = Some hc /\
    closed hc = handlerClosed /\
    log hc = log h ++ (if closed h =? handlerOpening then [ConnClose] else []) /\
    Close hc = Some (None, hc) /\
    Closed hc = Some (true, hc) /\
    Handle Btoi reqs hc =
      Some (([], Some (Wrap ErrClosed "MC Handler handle request")), hc).
Proof.
  intros [Hc|Hc]; unfold Close; rewrite Hc; cbn [Z.eqb handlerOpening handlerClosed].
  - eexists. split; [reflexivity|]. repeat split.
  - exists h. split; [reflexivity|]. rewrite app_nil_r.
    unfold Handle, Closed, bind, get, ret. rewrite Hc. repeat split.
Qed.

Lemma Close_closes_once_witness :
  exists hc,
    snd <$> Close (ex_handler endBytes) = Some hc /\
    closed hc = handlerClosed /\
    log hc = [ConnClose] /\
    Close hc = Some (None, hc) /\
    Closed hc = Some (true, hc) /\
    Handle Btoi_decimal [get_req "a"] hc =
      Some (([], Some (Wrap ErrClosed "MC Handler handle request")), hc).
Proof.
  apply (Close_closes_once Btoi_decimal [get_req "a"] (ex_handler endBytes)).
  left. reflexivity.
Defined.

(** *** Failures before the first read *)


(** The write loop over requests that are all [MCRequest]s, with whatever
    follows them. *)
Lemma Handle_write_MC (ms : list MCRequest) :
  forall (mcrs : list MCRequest) (h : handler) (tail : list protoRequest),
    exists h1 W,
      writes h h1 W /\ written_bytes W = concat (map encode ms) /\
      Handle_write (map ProtoMC ms ++ tail) mcrs h =
        Handle_write tail (mcrs ++ ms) h1.
Proof.
  induction ms as [|m ms IH]; intros mcrs h tail.
  - exists h, []. split; [apply writes_refl|]. split; [reflexivity|].
    rewrite app_nil_r. reflexivity.
  - cbn [map app Handle_write].
    destruct (set_write_deadline_spec h) as (h1 & W1 & E1 & Hw1 & Hn1).
    rewrite (bind_eq _ _ _ _ _ E1).
    destruct (bw_Write_spec (B (RequestType_String (rTp m))) h1) as (h2 & E2 & Hw2).
    rewrite (bind_eq _ _ _ _ _ E2).
    destruct (bw_Write_spec [spaceByte] h2) as (h3 & E3 & Hw3).
    rewrite (bind_eq _ _ _ _ _ E3).
    destruct (Handle_write_body_spec m h3) as (h4 & W4 & E4 & Hw4 & Hb4).
    rewrite (bind_eq _ _ _ _ _ E4).
    destruct (IH (mcrs ++ [m]) h4 tail) as (h5 & W5 & Hw5 & Hb5 & E5).
    exists h5, ((((W1 ++ [BwWrite (B (RequestType_String (rTp m)))])
                    ++ [BwWrite [spaceByte]]) ++ W4) ++ W5).
    split; [eauto using writes_trans|].
    split.
    + rewrite !written_bytes_app, Hn1, Hb4, Hb5. simpl.
      unfold encode. rewrite !app_nil_r, <- !app_assoc. reflexivity.
    + rewrite E5, <- app_assoc. reflexivity.
Qed.

Lemma Handle_open (Btoi : bytes -> option Z) (reqs : list protoRequest)
    (h : handler) :
  closed h <> handlerClosed ->
  Handle Btoi reqs h =
    (w <- Handle_write reqs [] ;;
     match w with
     | inr e => ret ([], Some e)
     | inl mcrs =>
         f <- bw_Flush ;;
         match f with
         | Some e => ret ([], Some (Wrap e "MC Handler handle flush request bytes"))
         | None => set_read_deadline ;;; Handle_read Btoi mcrs []
         end
     end) h.
Proof.
  intros Hop. unfold Handle, Closed.
  rewrite (bind_eq _ _ h h false)
    by (unfold get; destruct (Z.eqb_spec (closed h) handlerClosed); congruence).
  reflexivity.
Qed.

Lemma Handle_assert_failure (Btoi : bytes -> option Z)
    (ms : list MCRequest) (rest : list protoRequest) (h : handler) :
  closed h <> handlerClosed ->
  exists h' W,
    Handle Btoi (map ProtoMC ms ++ ProtoOther :: rest) h =
      Some (([], Some (Wrap ErrAssertRequest "MC Handler handle assert MCRequest")),
            h') /\
    writes h h' W /\ written_bytes W = concat (map encode ms).
Proof.
  intros Hop.
  destruct (Handle_write_MC ms [] h (ProtoOther :: rest)) as (h1 & W & Hw & Hb & E).
  exists h1, W. rewrite Handle_open by exact Hop.
  unfold bind at 1. rewrite E. cbn [Handle_write ret]. auto.
Qed.




(** What a call on an open handler with a working connection has sent,
    whether the replies could be read or not. *)
Lemma Handle_sent (Btoi : bytes -> option Z) (mcrs : list MCRequest)
    (h : handler) (r : list Response * option error) (h' : handler) :
  closed h <> handlerClosed -> write_broken h = false ->
  Handle Btoi (map ProtoMC mcrs) h = Some (r, h') ->
  sent h' = sent h ++ bw h ++ concat (map encode mcrs) /\ bw h' = [].
Proof.
  intros Hop Hok E. destruct r as [resps err]. apply Handle_outcome_of in E.
  destruct E as [Hcl|W ms rest _ Hreqs|W ms _ _ _ _ Hbr
                |W D ms h_r _ Hreqs _ _ _ _ _ _ _ Hs Hb _ _ _ _ Hpost].
  - contradiction.
  - exfalso. exact (map_ProtoMC_no_other _ _ _ Hreqs).
  - congruence.
  - destruct Hpost as (R & done & (_ & _ & Hsame) & _).
    unfold same_conn in Hsame. destruct Hsame as (_ & _ & Hs' & Hb' & _).
    assert (ms = mcrs) as ->.
    { clear -Hreqs. revert ms Hreqs.
      induction mcrs as [|x l IH]; intros [|y k]; simpl; try discriminate.
      - reflexivity.
      - intros [= -> H]. f_equal. auto. }
    split; congruence.
Qed.

(** X19. The requests written before a failed type assertion reach the
    backend ahead of the next call's. After [Handle] has failed on a
    request that is no [MCRequest], the bytes of the requests [ms] before
    it are with the writer, sent or still held; a [Handle] of the requests
    [mcrs2] on the same handler then has sent all of them: the backend gets
    the requests [ms] of the failed call, then [mcrs2], though [Handle]
    reads replies for [mcrs2] only. *)
Theorem Handle_after_assert_failure_sends_stale_requests
    (Btoi : bytes -> option Z) (ms mcrs2 : list MCRequest)
    (rest : list protoRequest) (h h1 h2 : handler)
    (r1 r2 : list Response * option error) :
  closed h <> handlerClosed -> write_broken h = false ->
  Handle Btoi (map ProtoMC ms ++ ProtoOther :: rest) h = Some (r1, h1) ->
  Handle Btoi (map ProtoMC mcrs2) h1 = Some (r2, h2) ->
  sent h1 ++ bw h1 = sent h ++ bw h ++ concat (map encode ms) /\
  sent h2 = sent h ++ bw h ++ concat (map encode ms) ++ concat (map encode mcrs2).
Proof.
  intros Hop Hok E1 E2.
  destruct (Handle_assert_failure Btoi ms rest h Hop) as (h1' & W & E & Hw & Hb).
  rewrite E in E1. injection E1 as <- <-.
  unfold writes in Hw.
  destruct Hw as (_ & Hbw & _ & _ & _ & _ & _ & Hwb & _ & _ & _ & _ & Hcl).
  destruct (Handle_sent Btoi mcrs2 h1' r2 h2) as [Hs2 _]; [congruence..|].
  rewrite Hb in Hbw. split; [exact Hbw|].
  rewrite Hs2, app_assoc, Hbw, <- !app_assoc. reflexivity.
Qed.

(** A failed call with a request written, and the handler a second call
    leaves. *)
Definition ex_after_stale : handler :=
  match Handle Btoi_decimal [get_req "b"]
          (ex_final [get_req "a"; ProtoOther] endBytes) with
  | Some (_, h2) => h2
  | None => ex_handler endBytes
  end.

Lemma Handle_after_assert_failure_sends_stale_requests_witness :
  sent (ex_final [get_req "a"; ProtoOther] endBytes)
    ++ bw (ex_final [get_req "a"; ProtoOther] endBytes) = L "get a" /\
  sent ex_after_stale = L "get a" ++ L "get b".
Proof.
  assert (E1 : Handle Btoi_decimal (map ProtoMC [ex_get_a] ++ ProtoOther :: [])
                 (ex_handler endBytes) =
    Some (([], Some (Wrap ErrAssertRequest "MC Handler handle assert MCRequest")),
          ex_final [get_req "a"; ProtoOther] endBytes))
    by (vm_compute; reflexivity).
  assert (E2 : Handle Btoi_decimal
                 (map ProtoMC [{| rTp := RequestTypeGet; key := B "b";
                                  data := crlfBytes |}])
                 (ex_final [get_req "a"; ProtoOther] endBytes) =
    Some (([response RequestTypeGet endBytes], None), ex_after_stale))
    by (vm_compute; reflexivity).
  apply (Handle_after_assert_failure_sends_stale_requests Btoi_decimal
           [ex_get_a] [{| rTp := RequestTypeGet; key := B "b"; data := crlfBytes |}]
           [] (ex_handler endBytes)
           (ex_final [get_req "a"; ProtoOther] endBytes) ex_after_stale
           ([], Some (Wrap ErrAssertRequest "MC Handler handle assert MCRequest"))
           ([response RequestTypeGet endBytes], None));
    [discriminate|reflexivity|exact E1|exact E2].
Defined.

(** X20. When the writer cannot flush, [Handle] on an open handler with
    requests that are all [MCRequest]s writes them, calls [Flush] once,
    and returns the flush error with no response: no read deadline is set
    and nothing is read. *)
Theorem Handle_flush_failure_reads_nothing (Btoi : bytes -> option Z)
    (mcrs : list MCRequest) (h : handler) :
  closed h <> handlerClosed -> write_broken h = true ->
  exists h' W,
    Handle Btoi (map ProtoMC mcrs) h =
      Some (([], Some (Wrap ErrConn "MC Handler handle flush request bytes")), h') /\
    log h' = log h ++ W ++ [BwFlush false] /\ forallb is_bw W = true /\
    written_bytes W = concat (map encode mcrs) /\
    sent h' = sent h /\ incoming h' = incoming h /\ closed h' = closed h.
Proof.
  intros Hop Hbr.
  destruct (Handle_write_MC mcrs [] h []) as (h1 & W & Hw & Hb & E).
  rewrite app_nil_r in E. cbn [app Handle_write] in E.
  unfold writes in Hw.
  destruct Hw as (HL & _ & HF & _ & _ & Hi & Hs & Hwb & _ & _ & _ & _ & Hcl).
  destruct (bw_Flush_spec h1) as (f & h2 & E2 & _ & _ & Hi2 & Hcl2 & Hf).
  destruct f as [e|]; [|destruct Hf as [Hf _]; congruence].
  destruct Hf as (-> & _ & HL2 & Hs2 & _).
  exists h2, W. rewrite Handle_open by exact Hop.
  unfold bind at 1. rewrite E. unfold ret at 1. cbv beta iota.
  rewrite (bind_eq _ _ _ _ _ E2). unfold ret.
  split; [reflexivity|].
  split; [rewrite HL2, HL, <- app_assoc; reflexivity|].
  specialize (Hs Hbr). repeat split; congruence.
Qed.

Definition ex_broken_handler : handler :=
  {| cluster := "test-mc"; addr := "127.0.0.1:11211"; incoming := endBytes;
     sent := []; write_broken := true; bw := [];
     bw_auto := bufio_auto handlerWriteBufferSize; bss := [[]; []]; buf := 0;
     readTimeout := 1; writeTimeout := 1; closed := handlerOpening;
     close_err := None; log := [] |}.

Lemma Handle_flush_failure_reads_nothing_witness :
  exists h' W,
    Handle Btoi_decimal (map ProtoMC [ex_get_a]) ex_broken_handler =
      Some (([], Some (Wrap ErrConn "MC Handler handle flush request bytes")), h') /\
    log h' = log ex_broken_handler ++ W ++ [BwFlush false] /\
    forallb is_bw W = true /\
    written_bytes W = concat (map encode [ex_get_a]) /\
    sent h' = sent ex_broken_handler /\ incoming h' = incoming ex_broken_handler /\
    closed h' = closed ex_broken_handler.
Proof.
  apply (Handle_flush_failure_reads_nothing Btoi_decimal [ex_get_a] ex_broken_handler);
    [discriminate|reflexivity].
Defined.

(** X21. [Handle] on an open handler whose writer can flush, with
    requests that are all [MCRequest]s, when the input begins with a
    well-formed reply to each request in turn: it returns no error and one
    response for each request, which carries the type of the request and
    the bytes of its reply, terminator included; the input is left right
    behind the last reply, and the request bytes have gone out after what
    the writer held. *)
Theorem Handle_complete (Btoi : bytes -> option Z) (mcrs : list MCRequest)
    (bss : list bytes) (rest : bytes) (h : handler) :
  closed h <> handlerClosed -> write_broken h = false ->
  Forall2 (well_formed_reply Btoi) mcrs bss ->
  incoming h = concat bss ++ rest ->
  exists h',
    Handle Btoi (map ProtoMC mcrs) h = Some ((responses mcrs bss, None), h') /\
    incoming h' = rest /\
    sent h' = sent h ++ bw h ++ concat (map encode mcrs).
Proof.
  intros Hop Hok Hwf Hin.
  destruct (Handle_write_MC mcrs [] h []) as (h1 & W & Hw & Hb & E).
  rewrite app_nil_r in E. cbn [app Handle_write] in E.
  unfold writes in Hw.
  destruct Hw as (_ & _ & _ & _ & _ & Hi & _ & Hwb & _).
  destruct (bw_Flush_spec h1) as (f & h2 & E2 & _ & _ & Hi2 & _ & Hf).
  destruct f as [e|]; [destruct Hf as (_ & Hf & _); congruence|].
  destruct (set_read_deadline_spec h2) as (h3 & D & E3 & _ & _ & Hi3 & _).
  destruct (Handle_read_complete Btoi mcrs bss Hwf [] h3 rest) as (h' & E4 & Hi4);
    [congruence|].
  assert (EH : Handle Btoi (map ProtoMC mcrs) h =
               Some ((responses mcrs bss, None), h')).
  { rewrite Handle_open by exact Hop.
    unfold bind at 1. rewrite E. unfold ret at 1. cbv beta iota.
    rewrite (bind_eq _ _ _ _ _ E2). cbv beta iota.
    rewrite (bind_eq _ _ _ _ _ E3). exact E4. }
  exists h'. split; [exact EH|]. split; [exact Hi4|].
  apply (Handle_sent Btoi mcrs h _ h' Hop Hok EH).
Qed.

Lemma Handle_complete_witness :
  exists h',
    Handle Btoi_decimal (map ProtoMC [ex_get_a; ex_get_a])
      (ex_handler ((ex_value_block ++ endBytes) ++ endBytes ++ B "rest")) =
      Some (([response RequestTypeGet (ex_value_block ++ endBytes);
              response RequestTypeGet endBytes], None), h') /\
    incoming h' = B "rest" /\
    sent h' = L "get a" ++ L "get a".
Proof.
  apply (Handle_complete Btoi_decimal [ex_get_a; ex_get_a]
           [ex_value_block ++ endBytes; endBytes] (B "rest")
           (ex_handler ((ex_value_block ++ endBytes) ++ endBytes ++ B "rest")));
    [discriminate|reflexivity| |reflexivity].
  constructor; [|constructor; [|constructor]].
  - apply (reply_values Btoi_decimal ex_get_a (L "VALUE a 0 3") (L "aaa") 3 []);
      [reflexivity|reflexivity|reflexivity|lia|reflexivity|constructor|constructor].
  - apply reply_miss. reflexivity.
Defined.

(** *** The length field *)

Lemma bytes_HasPrefix_nil (s : bytes) : bytes_HasPrefix s [] = true.
Proof. destruct s; reflexivity. Qed.

Lemma bytes_HasPrefix_space (c : ascii) (t : bytes) :
  bytes_HasPrefix (c :: t) spaceBytes = byte_eqb spaceByte c.
Proof.
  unfold spaceBytes. cbn [bytes_HasPrefix].
  rewrite bytes_HasPrefix_nil, andb_true_r. reflexivity.
Qed.

Lemma bytes_Split_from_field (f t cur : bytes) :
  spaceByte ∉ f ->
  bytes_Split_from (f ++ spaceByte :: t) spaceBytes 0 cur =
    (rev cur ++ f) :: bytes_Split_from t spaceBytes 0 [].
Proof.
  revert cur. induction f as [|c f IH]; intros cur Hf.
  - cbn [app bytes_Split_from]. rewrite bytes_HasPrefix_space.
    unfold byte_eqb. rewrite Ascii.eqb_refl, app_nil_r. reflexivity.
  - assert (Hc : c <> spaceByte) by (intros ->; apply Hf; left).
    assert (Hf' : spaceByte ∉ f) by (intros H; apply Hf; right; exact H).
    cbn [app bytes_Split_from]. rewrite bytes_HasPrefix_space. unfold byte_eqb.
    destruct (Ascii.eqb_spec spaceByte c) as [?|_]; [congruence|].
    rewrite (IH _ Hf'). cbn [rev]. rewrite <- app_assoc. reflexivity.
Qed.

Lemma bytes_Split_from_last (f cur : bytes) :
  spaceByte ∉ f -> bytes_Split_from f spaceBytes 0 cur = [rev cur ++ f].
Proof.
  revert cur. induction f as [|c f IH]; intros cur Hf.
  - cbn [bytes_Split_from]. rewrite app_nil_r. reflexivity.
  - assert (Hc : c <> spaceByte) by (intros ->; apply Hf; left).
    assert (Hf' : spaceByte ∉ f) by (intros H; apply Hf; right; exact H).
    cbn [bytes_Split_from]. rewrite bytes_HasPrefix_space. unfold byte_eqb.
    destruct (Ascii.eqb_spec spaceByte c) as [?|_]; [congruence|].
    rewrite (IH _ Hf'). cbn [rev]. rewrite <- app_assoc. reflexivity.
Qed.

Lemma bytes_Split_from_nonempty (s sep : bytes) :
  forall (skip : nat) (cur : bytes),
    (0 < length (bytes_Split_from s sep skip cur))%nat.
Proof.
  induction s as [|c s IH]; intros skip cur; cbn [bytes_Split_from].
  - simpl. lia.
  - destruct skip; [|apply IH].
    destruct (bytes_HasPrefix _ _); [simpl; lia|apply IH].
Qed.

(** X22. The length of a value is the fourth field of its first line,
    whatever the first three fields are. For a line of four fields
    separated by single spaces, the last two bytes of the fourth are cut
    off before [Btoi] reads it, without a look at what they are; for a
    line of five fields or more the fourth is read as it is. A number that
    [Btoi] does not read gives [ErrBadResponse]. *)
Theorem value_length_reads_fourth_field (Btoi : bytes -> option Z)
    (f0 f1 f2 f3 e tail : bytes) :
  spaceByte ∉ f0 -> spaceByte ∉ f1 -> spaceByte ∉ f2 -> spaceByte ∉ f3 ->
  spaceByte ∉ e -> length e = 2%nat ->
  let read :=
    match Btoi f3 with
    | Some n => inl n
    | None => inr (Wrap ErrBadResponse "MC Handler handle read response bytes length")
    end in
  value_length Btoi (f0 ++ spaceByte :: f1 ++ spaceByte :: f2 ++ spaceByte :: f3 ++ e)
    = read /\
  value_length Btoi
    (f0 ++ spaceByte :: f1 ++ spaceByte :: f2 ++ spaceByte :: f3 ++ spaceByte :: tail)
    = read.
Proof.
  intros H0 H1 H2 H3 He Hlen read. unfold value_length, bytes_Split. split.
  - rewrite !bytes_Split_from_field by assumption.
    rewrite bytes_Split_from_last
      by (intros H; apply elem_of_app in H as [H|H]; contradiction).
    cbn [rev app len_list length list_lookup_total Z.of_nat].
    change (Z.pos (Pos.of_succ_nat 3) <? 4) with false.
    change (Z.pos (Pos.of_succ_nat 3) =? 4) with true. cbv iota.
    assert (Hl : (len (f3 ++ e) <? 2) = false).
    { unfold len. rewrite length_app. apply Z.ltb_ge. lia. }
    cbn [rev app]. unfold lookup_total, list_lookup_total. cbn [andb].
    simpl lookup_total. simpl. rewrite Hl.
    rewrite length_app, Hlen.
    replace (length f3 + 2 - 2)%nat with (length f3) by lia.
    rewrite take_app_length. reflexivity.
  - rewrite !bytes_Split_from_field by assumption.
    pose proof (bytes_Split_from_nonempty tail spaceBytes 0 []) as Hne.
    destruct (bytes_Split_from tail spaceBytes 0 []) as [|g gs];
      [simpl in Hne; lia|].
    cbn [rev app]. unfold len_list. cbn [length].
    destruct (Z.ltb_spec (Z.of_nat (S (S (S (S (S (length gs))))))) 4) as [?|_]; [lia|].
    destruct (Z.eqb_spec (Z.of_nat (S (S (S (S (S (length gs))))))) 4) as [?|_]; [lia|].
    reflexivity.
Qed.

Lemma value_length_reads_fourth_field_witness :
  value_length Btoi_decimal (L "VALUE a 0 3") = inl 3 /\
  value_length Btoi_decimal (L "VALUE a 0 3 77") = inl 3.
Proof.
  apply (value_length_reads_fourth_field Btoi_decimal
           (B "VALUE") (B "a") (B "0") (B "3") crlfBytes (L "77"));
    try reflexivity;
    intros H; apply list_elem_of_In in H; simpl in H; intuition discriminate.
Defined.

(** *** The read loop over a list put together *)

(** X23. Reading the replies to [a ++ b] is reading the replies to [a],
    and, when none of them failed, reading the replies to [b] from where
    that stopped, with the responses so far; when a reply to [a] failed,
    no reply to [b] is read. *)
Theorem Handle_read_app (Btoi : bytes -> option Z) (a b : list MCRequest)
    (resps : list Response) (h : handler) :
  Handle_read Btoi (a ++ b) resps h =
    match Handle_read Btoi a resps h with
    | Some ((out, None), h1) => Handle_read Btoi b out h1
    | r => r
    end.
Proof.
  revert resps h. induction a as [|m a IH]; intros resps h.
  - reflexivity.
  - cbn [app Handle_read]. unfold bind.
    destruct (Handle_reply Btoi m h) as [[[resp|e] h1]|]; [apply IH|reflexivity..].
Qed.

(** *** makeBytes *)

(** X24. [makeBytes n], for [n >= 0] and a slab of at most 128 KiB:
    it gives [n] bytes and the slab stays within 128 KiB. A request of no
    byte or of 8 KiB and more leaves the slab alone; a smaller one takes
    its bytes off the slab, which is renewed first when it is too short. *)
Theorem makeBytes_keeps_slab (n : Z) (h : handler) :
  0 <= n -> 0 <= buf h <= handlerReadBufferSize ->
  exists ss h',
    makeBytes n h = Some (ss, h') /\ len ss = n /\
    0 <= buf h' <= handlerReadBufferSize /\
    (n = 0 \/ handlerWriteBufferSize <= n -> h' = h) /\
    (0 < n < handlerWriteBufferSize -> n <= buf h -> buf h' = buf h - n) /\
    (0 < n < handlerWriteBufferSize -> buf h < n ->
     buf h' = handlerReadBufferSize - n) /\
    log h' = log h /\ incoming h' = incoming h /\ bss h' = bss h.
Proof.
  intros Hn Hb. unfold makeBytes, handlerWriteBufferSize, handlerReadBufferSize in *.
  assert (Hz : len (zeros n) = n).
  { unfold len, zeros. rewrite length_replicate. lia. }
  destruct (Z.eqb_spec n 0) as [->|Hn0].
  - exists [], h. repeat split; auto; lia.
  - destruct (Z.leb_spec (8 * 1024) n).
    + exists (zeros n), h. repeat split; auto; lia.
    + eexists _, _. split; [reflexivity|]. split; [exact Hz|].
      cbn [buf set_buf log incoming bss].
      destruct (Z.ltb_spec (buf h) n); repeat split; auto; lia.
Qed.

Lemma makeBytes_keeps_slab_witness :
  exists ss h',
    makeBytes 100 (ex_handler []) = Some (ss, h') /\ len ss = 100 /\
    buf h' = handlerReadBufferSize - 100.
Proof.
  destruct (makeBytes_keeps_slab 100 (ex_handler []))
    as (ss & h' & E & Hl & _ & _ & _ & Hnew & _);
    [lia|simpl; unfold handlerReadBufferSize; lia|].
  exists ss, h'. split; [exact E|]. split; [exact Hl|].
  apply Hnew; [unfold handlerWriteBufferSize; lia|simpl; lia].
Defined.

End MemcacheProps.

(** ** Properties of the mock connection *)
Module AnziProps.
Import Anzi.

(** What the connection has still to deliver: the read buffer, then the
    data once for each repeat left. *)
Definition stream (m : mockConn) : bytes :=
  match rbuf m with Some b => b | None => [] end ++
  concat (replicate (Z.to_nat (repeat m)) (data m)).

(** X26. After [Close], [Read] and [Write] give [io.EOF] with a count of
    0 and leave the connection as it is, whatever its buffers and its
    error hold. [writeBuffers] does not look at the closed flag: on a
    closed connection with no error set it still appends every buffer to
    [wbuf]. *)
Theorem closed_conn_gives_EOF (m : mockConn) (k : nat) (b w : bytes)
    (bufs : list bytes) :
  Read (Close m) k = Val ([], Some io_EOF, Close m) /\
  Write (Close m) b = Val (0, Some io_EOF, Close m) /\
  Close (Close m) = Close m /\
  (err m = None -> wbuf m = Some w ->
   writeBuffers (Close m) bufs =
     Val (Z.of_nat (length (concat bufs)), None,
          set_wbuf (Some (w ++ concat bufs)) (Close m), [])).
Proof.
  split; [reflexivity|]. split; [reflexivity|]. split; [reflexivity|].
  intros He Hw. unfold writeBuffers. cbn [Close set_closed err wbuf].
  rewrite He, Hw.
  assert (H : forall bufs w n,
            Buffers_WriteTo bufs (Some w) n =
            Val (n + Z.of_nat (length (concat bufs)), Some (w ++ concat bufs))).
  { clear. induction bufs as [|x bufs IH]; intros w n; cbn [Buffers_WriteTo].
    - simpl. rewrite app_nil_r, Z.add_0_r. reflexivity.
    - cbn [Buffer_Write concat]. rewrite IH, length_app, <- app_assoc.
      rewrite Nat2Z.inj_add, Z.add_assoc. reflexivity. }
  rewrite H. reflexivity.
Qed.

Lemma closed_conn_gives_EOF_witness :
  writeBuffers (Close (_createConn (B "x"))) [B "ab"; B "c"] =
    Val (3, None, set_wbuf (Some (B "abc")) (Close (_createConn (B "x"))), []).
Proof.
  apply (proj2 (proj2 (proj2
           (closed_conn_gives_EOF (_createConn (B "x")) 0 [] [] [B "ab"; B "c"]))));
    reflexivity.
Defined.

Lemma replicate_pos {A} (n : Z) (x : list A) :
  0 < n ->
  concat (replicate (Z.to_nat n) x) = x ++ concat (replicate (Z.to_nat (n - 1)) x).
Proof.
  intros Hn. replace (Z.to_nat n) with (S (Z.to_nat (n - 1))) by lia. reflexivity.
Qed.

(** X27. One [Read] on an open connection with no error set and a read
    buffer: the bytes it gives are the front of what was still to be
    delivered, at most [k] of them, and the rest is still to be delivered;
    with [k > 0] it gives at least one byte as long as anything is left,
    and [io.EOF] exactly when nothing is. *)
Theorem Read_delivers_the_stream (m : mockConn) (k : nat) (rb : bytes) :
  closed m <> stateClosed -> err m = None -> rbuf m = Some rb ->
  exists out e m',
    Read m k = Val (out, e, m') /\
    stream m = out ++ stream m' /\
    (length out <= k)%nat /\
    ((0 < k)%nat -> stream m <> [] -> out <> []) /\
    (e = Some io_EOF <-> stream m = [] /\ (0 < k)%nat) /\
    (e = None \/ e = Some io_EOF) /\
    closed m' = closed m /\ err m' = None /\ is_Some (rbuf m') /\
    data m' = data m /\ wbuf m' = wbuf m.
Proof.
  intros Hop He Hrb. unfold Read.
  destruct (Z.eqb_spec (closed m) stateClosed) as [?|_]; [contradiction|].
  rewrite He.
  set (m1 := if 0 <? repeat m
             then set_repeat (repeat m - 1) (set_rbuf (Some (rb ++ data m)) m)
             else m).
  assert (Hm1 : (if 0 <? repeat m
                 then match Buffer_Write (rbuf m) (data m) with
                      | Panic => Panic
                      | Val b => Val (set_repeat (repeat m - 1) (set_rbuf (Some b) m))
                      end
                 else Val m) = Val m1).
  { unfold m1. rewrite Hrb. destruct (0 <? repeat m); reflexivity. }
  rewrite Hm1.
  assert (Hs1 : exists rb1, rbuf m1 = Some rb1 /\ stream m1 = stream m /\
                  closed m1 = closed m /\ err m1 = None /\ data m1 = data m /\
                  wbuf m1 = wbuf m /\
                  (rb1 = [] -> stream m = [])).
  { unfold m1, stream. destruct (Z.ltb_spec 0 (repeat m)) as [Hr|Hr].
    - exists (rb ++ data m). cbn [rbuf set_repeat set_rbuf repeat data closed err wbuf].
      rewrite Hrb. rewrite (replicate_pos (repeat m)) by exact Hr.
      rewrite <- app_assoc. repeat split; auto.
      intros Hnil. apply app_eq_nil in Hnil as [-> Hd]. rewrite Hd.
      simpl. clear. induction (Z.to_nat _); simpl; auto.
    - exists rb. rewrite Hrb. repeat split; auto.
      intros ->. replace (Z.to_nat (repeat m)) with 0%nat by lia. reflexivity. }
  destruct Hs1 as (rb1 & Hrb1 & Hst & Hc1 & He1 & Hd1 & Hw1 & Hnil).
  rewrite Hrb1. unfold Buffer_Read.
  assert (Hst1 : stream m1 =
                 rb1 ++ concat (replicate (Z.to_nat (repeat m1)) (data m1)))
    by (unfold stream; rewrite Hrb1; reflexivity).
  destruct rb1 as [|c rb1].
  - eexists _, _, _. split; [reflexivity|].
    rewrite (Hnil eq_refl). rewrite (Hnil eq_refl) in Hst.
    unfold stream at 1. cbn [rbuf set_rbuf repeat data app].
    cbn [app] in Hst1. rewrite <- Hst1, Hst.
    split; [reflexivity|]. split; [simpl; lia|].
    split; [intros _ H; contradiction|].
    split; [destruct k; simpl; split; try (intros [? ?]); try discriminate;
            try lia; auto; split; auto; lia|].
    split; [destruct k; simpl; auto|].
    cbn [closed err rbuf data wbuf set_rbuf]. repeat split; eauto.
  - eexists _, _, _. split; [reflexivity|].
    unfold stream at 2. cbn [rbuf set_rbuf repeat data].
    rewrite <- Hst, Hst1, app_assoc, take_drop.
    split; [reflexivity|]. split; [rewrite length_take; lia|].
    split; [intros Hk _; destruct k; [lia|discriminate]|].
    split; [split; [discriminate|intros [H _]; discriminate]|].
    split; [auto|].
    cbn [closed err rbuf data wbuf set_rbuf]. repeat split; eauto.
Qed.

Lemma Read_delivers_the_stream_witness :
  exists out e m',
    Read (_createRepeatConn (B "ab") 2) 3 = Val (out, e, m') /\
    stream (_createRepeatConn (B "ab") 2) = out ++ stream m' /\
    (length out <= 3)%nat.
Proof.
  destruct (Read_delivers_the_stream (_createRepeatConn (B "ab") 2) 3 [])
    as (out & e & m' & E & Hs & Hl & _); [discriminate|reflexivity|reflexivity|].
  exists out, e, m'. auto.
Defined.

(** [Write] of each of [bs] in turn, as long as none fails. *)
Fixpoint Write_each (m : mockConn) (bs : list bytes) : result mockConn :=
  match bs with
  | [] => Val m
  | b :: bs' =>
      match Write m b with
      | Val (_, None, m') => Write_each m' bs'
      | Val (_, Some _, _) => Val m
      | Panic => Panic
      end
  end.

Lemma Write_each_appends (bs : list bytes) :
  forall (m : mockConn) (w : bytes),
    closed m <> stateClosed -> err m = None -> wbuf m = Some w ->
    Write_each m bs = Val (set_wbuf (Some (w ++ concat bs)) m).
Proof.
  induction bs as [|b bs IH]; intros m w Hop He Hw; cbn [Write_each concat].
  - rewrite app_nil_r, <- Hw. destruct m; reflexivity.
  - unfold Write. destruct (Z.eqb_spec (closed m) stateClosed) as [?|_]; [contradiction|].
    rewrite He, Hw. cbn [Buffer_Write].
    rewrite (IH _ (w ++ b)) by assumption || reflexivity.
    rewrite <- app_assoc. reflexivity.
Qed.

(** X28. A connection with no read buffer, as [_createDownStreamConn]
    makes it: while it is open and has no error set, [Read] panics,
    whatever the size of the slice; the writes made on it pile up in
    [wbuf], the buffer handed out beside the connection, in the order they
    are made, and change nothing else. *)
Theorem conn_without_read_buffer (m : mockConn) (k : nat) (w : bytes)
    (bs : list bytes) :
  closed m <> stateClosed -> err m = None -> rbuf m = None -> wbuf m = Some w ->
  Read m k = Panic /\
  Write_each m bs = Val (set_wbuf (Some (w ++ concat bs)) m).
Proof.
  intros Hop He Hrb Hw. split; [|apply Write_each_appends; assumption].
  unfold Read. destruct (Z.eqb_spec (closed m) stateClosed) as [?|_]; [contradiction|].
  rewrite He. destruct (0 <? repeat m); cbv zeta; rewrite Hrb; reflexivity.
Qed.

Lemma conn_without_read_buffer_witness :
  Read _createDownStreamConn 16 = Panic /\
  Write_each _createDownStreamConn [B "get a"; B "b"] =
    Val (set_wbuf (Some ([] ++ concat [B "get a"; B "b"])) _createDownStreamConn).
Proof.
  apply (conn_without_read_buffer _createDownStreamConn 16 [] [B "get a"; B "b"]);
    [discriminate|reflexivity..].
Defined.

End AnziProps.
